(** * plotly.subplots: a shallow embedding of [make_subplots] and its helpers

    The development follows [src/plotly/subplots.py].  Python objects that
    the code mutates in place (the caller's spec and inset dictionaries, the
    layout object) live in a store; the local variables of [make_subplots]
    are threaded through a small state-and-exception monad.  Python floats
    are IEEE binary64 numbers, modelled by Rocq's primitive floats. *)

From Stdlib Require Import ZArith Floats.
From stdpp Require Import gmap strings list fin_maps pretty.

Set Warnings "-inexact-float,-register-all,-clear-no-such-hyp".
Local Open Scope string_scope.
Local Open Scope Z_scope.
Local Coercion Z.of_nat : nat >-> Z.

(** ** Python values *)

Module Py.

(** The dynamic values that reach [make_subplots] through its arguments and
    through the entries of spec and inset dictionaries. *)
Inductive pyval :=
| VNone
| VBool (b : bool)
| VInt (z : Z)
| VFloat (f : float)
| VStr (s : string)
| VTuple (l : list pyval).

(** The numeric tower: [int] and [float] ([bool] is an [int]). *)
Inductive num :=
| NInt (z : Z)
| NFloat (f : float).

(** [float(z)]: the nearest binary64 number, ties to even. *)
Definition Z2F (z : Z) : float :=
  SF2Prim (binary_normalize prec emax z 0 false).

Definition to_float (n : num) : float :=
  match n with
  | NInt z => Z2F z
  | NFloat f => f
  end.

Definition as_num (v : pyval) : option num :=
  match v with
  | VBool b => Some (NInt (if b then 1 else 0))
  | VInt z => Some (NInt z)
  | VFloat f => Some (NFloat f)
  | _ => None
  end.

Definition num_add (a b : num) : num :=
  match a, b with
  | NInt x, NInt y => NInt (x + y)
  | _, _ => NFloat (to_float a + to_float b)
  end.

Definition num_sub (a b : num) : num :=
  match a, b with
  | NInt x, NInt y => NInt (x - y)
  | _, _ => NFloat (to_float a - to_float b)
  end.

(** [a >= b].  Mixed comparisons go through [float]; CPython compares an
    [int] with a [float] exactly, which agrees below [2^53]. *)
Definition num_geb (a b : num) : bool :=
  match a, b with
  | NInt x, NInt y => bool_decide (y ≤ x)
  | _, _ => PrimFloat.leb (to_float b) (to_float a)
  end.

(** [a < b] *)
Definition num_ltb (a b : num) : bool :=
  match a, b with
  | NInt x, NInt y => bool_decide (x < y)
  | _, _ => PrimFloat.ltb (to_float a) (to_float b)
  end.

Definition num_eqb (a b : num) : bool :=
  match a, b with
  | NInt x, NInt y => bool_decide (x = y)
  | _, _ => PrimFloat.eqb (to_float a) (to_float b)
  end.

(** Truth value of an object ([bool(v)]). *)
Definition truthy (v : pyval) : bool :=
  match v with
  | VNone => false
  | VBool b => b
  | VInt z => negb (bool_decide (z = 0))
  | VFloat f => negb (PrimFloat.eqb f 0)
  | VStr s => negb (bool_decide (s = ""))
  | VTuple l => negb (bool_decide (length l = 0%nat))
  end.

(** [a == b]. *)
Fixpoint py_eq (a b : pyval) {struct a} : bool :=
  match a, b with
  | VNone, VNone => true
  | VStr s, VStr t => bool_decide (s = t)
  | VTuple l, VTuple m =>
      (fix go (l : list pyval) (m : list pyval) {struct l} : bool :=
         match l, m with
         | [], [] => true
         | x :: l', y :: m' => py_eq x y && go l' m'
         | _, _ => false
         end) l m
  | _, _ =>
      match as_num a, as_num b with
      | Some x, Some y => num_eqb x y
      | _, _ => false
      end
  end.

(** [v in l] for a list [l]. *)
Definition py_in (v : pyval) (l : list pyval) : bool :=
  existsb (py_eq v) l.

(** [max(a, b)] and [min(a, b)] on floats: the first argument is kept
    unless the second compares strictly beyond it. *)
Definition py_max (a b : float) : float :=
  if PrimFloat.ltb a b then b else a.

Definition py_min (a b : float) : float :=
  if PrimFloat.ltb b a then b else a.

(** [l[i]] with Python's negative indices; [None] stands for IndexError. *)
Definition py_index {A} (l : list A) (i : Z) : option A :=
  if bool_decide (0 ≤ i) then l !! Z.to_nat i
  else if bool_decide (- Z.of_nat (length l) ≤ i)
       then l !! Z.to_nat (Z.of_nat (length l) + i)
       else None.

(** [sum(l)] over floats: left to right from zero. *)
Definition py_sum (l : list float) : float :=
  foldl PrimFloat.add 0%float l.

(** [s.replace(old, new)]: non-overlapping occurrences, left to right.
    [skip] counts the characters of a match still to be dropped. *)
Fixpoint replace_from (old new : string) (skip : nat) (s : string) : string :=
  match s with
  | EmptyString => EmptyString
  | String a s' =>
      match skip with
      | S k => replace_from old new k s'
      | O =>
          if String.prefix old s
          then new +:+ replace_from old new (String.length old - 1) s'
          else String a (replace_from old new O s')
      end
  end.

Definition replace (old new s : string) : string :=
  replace_from old new O s.

(** A dictionary with string keys. *)
Abbreviation dict := (gmap string pyval).

(** [d.setdefault(k, v)], for its effect on [d]. *)
Definition setdefault (d : dict) (kv : string * pyval) : dict :=
  match d !! kv.1 with
  | Some _ => d
  | None => <[kv.1 := kv.2]> d
  end.

End Py.
Import Py.

(** ** Exceptions *)

Inductive exn_class :=
| ValueError | TypeError | IndexError | KeyError | ZeroDivisionError
| AttributeError | Exception_.

(** One constructor per [raise] site (or per failing primitive). *)
Inductive error :=
| E_future_mode
| E_rows
| E_cols
| E_start_cell
| E_column_widths
| E_row_heights
| E_zero_division
| E_specs_shape
| E_invalid_key (name : string)
| E_shared (arg : string)
| E_colspan_too_large
| E_rowspan_too_large
| E_inset_row_range
| E_inset_col_range
| E_invalid_subplot_type (t : pyval)
| E_type
| E_index
| E_key (k : string)
| E_attribute
| E_max_empty
| E_bind_row
| E_bind_col
| E_bind_pair
| E_bind_empty
| E_bind_incompatible (typ subplot_type : string)
| E_lookup_row
| E_lookup_col
| E_lookup_keys.

Definition class_of (e : error) : exn_class :=
  match e with
  | E_future_mode | E_rows | E_cols | E_start_cell | E_column_widths
  | E_row_heights | E_specs_shape | E_invalid_key _ | E_shared _
  | E_invalid_subplot_type _ | E_max_empty | E_bind_empty
  | E_bind_incompatible _ _ | E_lookup_row | E_lookup_col
  | E_lookup_keys => ValueError
  | E_zero_division => ZeroDivisionError
  | E_type => TypeError
  | E_index => IndexError
  | E_key _ => KeyError
  | E_attribute => AttributeError
  | E_colspan_too_large | E_rowspan_too_large | E_inset_row_range
  | E_inset_col_range | E_bind_row | E_bind_col | E_bind_pair => Exception_
  end.

(** The two "span is too large for this subplot grid" exceptions. *)
Definition is_span_error (e : error) : bool :=
  match e with
  | E_colspan_too_large | E_rowspan_too_large => true
  | _ => false
  end.

(** ** Results, and computations that mutate a state and may raise *)

Abbreviation res := (sum error).

#[global] Instance res_ret : MRet res := λ _ x, inr x.
#[global] Instance res_bind : MBind res := λ _ _ f m,
  match m with
  | inl e => inl e
  | inr x => f x
  end.

#[global] Instance res_fmap : FMap res := λ _ _ f m,
  match m with
  | inl e => inl e
  | inr x => inr (f x)
  end.

Definition raise {A} (e : error) : res A := inl e.

(** [o] or, when it is [None], the exception [e]. *)
Definition or_raise {A} (e : error) (o : option A) : res A :=
  match o with
  | Some x => inr x
  | None => inl e
  end.

(** A computation over a mutable state [S]: the state survives an
    exception, as the objects a Python function has mutated do. *)
Definition M (S A : Type) : Type := S → S * res A.

Definition m_ret {S A} (x : A) : M S A := λ s, (s, inr x).

Definition m_bind {S A B} (m : M S A) (k : A → M S B) : M S B := λ s,
  match m s with
  | (s', inl e) => (s', inl e)
  | (s', inr x) => k x s'
  end.

Definition lift {S A} (r : res A) : M S A := λ s, (s, r).

Definition get {S} : M S S := λ s, (s, inr s).

Definition modify {S} (f : S → S) : M S unit := λ s, (f s, inr tt).

Notation "'do' x <- m ; k" := (m_bind m (λ x, k))
  (at level 10, x name, m at level 100, k at level 200,
   format "'[v' 'do'  x  <-  m ; '/' k ']'").
Notation "'do' ' p <- m ; k" := (m_bind m (λ x, match x with p => k end))
  (at level 10, p pattern, m at level 100, k at level 200,
   format "'[v' 'do'  ' p  <-  m ; '/' k ']'").
Notation "'run' m ; k" := (m_bind m (λ _, k))
  (at level 10, m at level 100, k at level 200,
   format "'[v' 'run'  m ; '/' k ']'").

(** [for x in xs: body(x)] *)
Fixpoint for_each {S X} (xs : list X) (body : X → M S unit) : M S unit :=
  match xs with
  | [] => m_ret tt
  | x :: xs' => run body x; for_each xs' body
  end.

(** ** Objects of the store *)

Abbreviation loc := nat.

(** An [x_domain] or [y_domain]: a two-element list [[start, end]]. *)
Abbreviation interval := (float * float)%type.

(** Modelled from the spec: the layout object of [plotly.graph_objs], which
    "supports setting arbitrary named sub-objects (e.g. xaxis3, scene2)" and
    "attribute-style mutation (matches, showticklabels) on axis entries".
    An axis entry starts as [{'domain': .., 'anchor': ..}]; a subplot
    container as [dict(domain={'x': .., 'y': ..})]. *)
Record axis := {
  domain : interval;
  anchor : string;
  matches : option string;
  showticklabels : option bool;
}.

Inductive layout_obj :=
| Axis (a : axis)
| Container (x y : interval).

Abbreviation layout_t := (gmap string layout_obj).

(** The values of a [trace_kwargs] dictionary: an axis or subplot label,
    or [{'x': x_domain, 'y': y_domain}]. *)
Inductive kwarg :=
| KLabel (s : string)
| KDomain (x y : interval).

(** A grid reference element.  The ['spec'] key is added by
    [make_subplots] to the elements of the grid (not to the insets'). *)
Record ref_element := {
  subplot_type : string;
  layout_keys : list string;
  trace_kwargs : gmap string kwarg;
  spec : option loc;
}.

Definition with_spec (l : loc) (ref : ref_element) : ref_element :=
  {| subplot_type := subplot_type ref; layout_keys := layout_keys ref;
     trace_kwargs := trace_kwargs ref; spec := Some l |}.

(** What a caller can reach: the dictionaries (the caller's own, and those
    [make_subplots] creates) and the layout objects, by address. *)
Record world := {
  dicts : list dict;
  layouts : list layout_t;
}.

(** ** Subplot factory *)

Definition _subplot_types : list string :=
  ["scene"; "geo"; "polar"; "ternary"; "mapbox"].

Definition _subplot_prop_named_subplot : list string :=
  ["polar"; "ternary"; "mapbox"].

Definition _get_initial_max_subplot_ids : gmap string Z :=
  <["yaxis" := 0]> (<["xaxis" := 0]>
    (list_to_map ((λ subplot_type, (subplot_type, 0)) <$> _subplot_types))).

(** [d[k]] on the counters. *)
Definition counter (ids : gmap string Z) (k : string) : res Z :=
  or_raise (E_key k) (ids !! k).

(** ["{}".format(cnt)] *)
Definition fmt (cnt : Z) : string := pretty cnt.

(** The functions below receive the layout and the counters by reference
    and mutate them; here they return the updated objects.  Each of them
    raises, if at all, before its first mutation. *)
Definition _init_subplot_xy (layout : layout_t) (x_domain y_domain : interval)
    (max_subplot_ids : option (gmap string Z))
  : res (layout_t * gmap string Z * ref_element) :=
  let max_subplot_ids := default _get_initial_max_subplot_ids max_subplot_ids in
  x ← counter max_subplot_ids "xaxis";
  let x_cnt := x + 1 in
  y ← counter max_subplot_ids "yaxis";
  let y_cnt := y + 1 in
  let x_label := "x" +:+ fmt x_cnt in
  let y_label := "y" +:+ fmt y_cnt in
  let '(x_anchor, y_anchor) := (y_label, x_label) in
  let xaxis_name := "xaxis" +:+ fmt x_cnt in
  let yaxis_name := "yaxis" +:+ fmt y_cnt in
  let x_axis := {| domain := x_domain; anchor := x_anchor;
                   matches := None; showticklabels := None |} in
  let y_axis := {| domain := y_domain; anchor := y_anchor;
                   matches := None; showticklabels := None |} in
  let layout := <[xaxis_name := Axis x_axis]> layout in
  let layout := <[yaxis_name := Axis y_axis]> layout in
  let ref_element := {|
    subplot_type := "xy";
    layout_keys := [xaxis_name; yaxis_name];
    trace_kwargs := <["yaxis" := KLabel y_label]> {["xaxis" := KLabel x_label]};
    spec := None |} in
  let max_subplot_ids := <["xaxis" := x_cnt]> max_subplot_ids in
  let max_subplot_ids := <["yaxis" := y_cnt]> max_subplot_ids in
  mret (layout, max_subplot_ids, ref_element).

Definition _init_subplot_single (layout : layout_t) (subplot_type : string)
    (x_domain y_domain : interval) (max_subplot_ids : option (gmap string Z))
  : res (layout_t * gmap string Z * ref_element) :=
  let max_subplot_ids := default _get_initial_max_subplot_ids max_subplot_ids in
  n ← counter max_subplot_ids subplot_type;
  let cnt := n + 1 in
  let label := subplot_type +:+ fmt cnt in
  let scene := Container x_domain y_domain in
  let layout := <[label := scene]> layout in
  let trace_key :=
    if bool_decide (subplot_type ∈ _subplot_prop_named_subplot)
    then "subplot" else subplot_type in
  let ref_element := {|
    subplot_type := subplot_type;
    layout_keys := [label];
    trace_kwargs := {[trace_key := KLabel label]};
    spec := None |} in
  let max_subplot_ids := <["scene" := cnt]> max_subplot_ids in
  mret (layout, max_subplot_ids, ref_element).

Definition _init_subplot_domain (x_domain y_domain : interval) : ref_element :=
  {| subplot_type := "domain";
     layout_keys := [];
     trace_kwargs := {["domain" := KDomain x_domain y_domain]};
     spec := None |}.

Definition _init_subplot (layout : layout_t) (subplot_type : pyval)
    (x_domain y_domain : interval) (max_subplot_ids : option (gmap string Z))
  : res (layout_t * gmap string Z * ref_element) :=
  let max_subplot_ids := default _get_initial_max_subplot_ids max_subplot_ids in
  let x_domain := (py_max 0 x_domain.1, py_min 1 x_domain.2) in
  let y_domain := (py_max 0 y_domain.1, py_min 1 y_domain.2) in
  match subplot_type with
  | VStr t =>
      if bool_decide (t = "xy") then
        _init_subplot_xy layout x_domain y_domain (Some max_subplot_ids)
      else if bool_decide (t ∈ _subplot_types) then
        _init_subplot_single layout t x_domain y_domain (Some max_subplot_ids)
      else if bool_decide (t = "domain") then
        mret (layout, max_subplot_ids, _init_subplot_domain x_domain y_domain)
      else raise (E_invalid_subplot_type subplot_type)
  | _ => raise (E_invalid_subplot_type subplot_type)
  end.

(** ** Arguments of [make_subplots] *)

Module Args.
(** The keyword arguments, with the legacy [row_width] and [column_width]
    of [**kwargs].  [specs] and [insets] hold the addresses of the caller's
    dictionaries, so that one dictionary may sit in several cells. *)
Record t := {
  rows : Z;
  cols : Z;
  shared_xaxes : pyval;
  shared_yaxes : pyval;
  start_cell : string;
  print_grid : bool;
  horizontal_spacing : option float;
  vertical_spacing : option float;
  subplot_titles : list string;
  column_widths : option (list num);
  row_heights : option (list num);
  specs : option (list (list (option loc)));
  insets : option (list loc);
  column_titles : list string;
  row_titles : list string;
  x_title : string;
  y_title : string;
  row_width : option (list num);
  column_width : option (list num);
}.

(** [make_subplots()] with every argument at its default. *)
Definition defaults : t := {|
  rows := 1; cols := 1;
  shared_xaxes := VBool false; shared_yaxes := VBool false;
  start_cell := "top-left"; print_grid := true;
  horizontal_spacing := None; vertical_spacing := None;
  subplot_titles := [];
  column_widths := None; row_heights := None;
  specs := None; insets := None;
  column_titles := []; row_titles := [];
  x_title := ""; y_title := "";
  row_width := None; column_width := None |}.

(** [make_subplots(rows=.., cols=.., shared_xaxes=.., shared_yaxes=..,
    specs=.., insets=..)], the other arguments at their defaults. *)
Definition make (rows cols : Z) (shared_xaxes shared_yaxes : pyval)
    (specs : option (list (list (option loc)))) (insets : option (list loc)) : t := {|
  rows := rows; cols := cols;
  shared_xaxes := shared_xaxes; shared_yaxes := shared_yaxes;
  start_cell := "top-left"; print_grid := true;
  horizontal_spacing := None; vertical_spacing := None;
  subplot_titles := [];
  column_widths := None; row_heights := None;
  specs := specs; insets := insets;
  column_titles := []; row_titles := [];
  x_title := ""; y_title := "";
  row_width := None; column_width := None |}.

(** [make_subplots(rows=.., cols=..)] *)
Definition grid (rows cols : Z) : t :=
  make rows cols (VBool false) (VBool false) None None.
End Args.

(** ** Validation of the grid arguments and the geometry they fix *)

(** The local variables of [make_subplots] that are set before the
    dictionaries are looked at. *)
Record geometry := {
  rows : Z;
  cols : Z;
  row_dir : Z;
  horizontal_spacing : float;
  vertical_spacing : float;
  max_width : float;
  widths : list float;
  heights : list float;
}.

(** [x / y] on floats. *)
Definition py_div (x y : float) : res float :=
  if PrimFloat.eqb y 0 then raise E_zero_division else mret (x / y)%float.

(** [float(sum(l))] for a list of numbers. *)
Definition float_sum (l : list num) : float :=
  to_float (foldl num_add (NInt 0) l).

(** The column widths or row heights: [total] is the room left once the
    spacing is taken off, [n] the number of columns or rows. *)
Definition sizes (e : error) (total : float) (n : Z) (given : option (list num))
  : res (list float) :=
  match given with
  | None => mret (replicate (Z.to_nat n) (total / Z2F n)%float)
  | Some l =>
      if bool_decide (Z.of_nat (length l) = n) then
        let cum_sum := float_sum l in
        mapM (λ w, q ← py_div (to_float w) cum_sum; mret (total * q)%float) l
      else raise e
  end.

Definition validate_grid (_future_flags : list string) (a : Args.t)
  : res geometry :=
  if negb (bool_decide ("v4_subplots" ∈ _future_flags)) then raise E_future_mode
  else
  let use_legacy_row_heights_order := bool_decide (is_Some (Args.row_width a)) in
  let row_heights :=
    match Args.row_width a with Some l => Some l | None => Args.row_heights a end in
  let column_widths :=
    match Args.column_width a with Some l => Some l | None => Args.column_widths a end in
  let rows := Args.rows a in
  let cols := Args.cols a in
  if bool_decide (rows ≤ 0) then raise E_rows else
  if bool_decide (cols ≤ 0) then raise E_cols else
  row_dir ←
    (if bool_decide (Args.start_cell a = "bottom-left") then mret 1
     else if bool_decide (Args.start_cell a = "top-left") then mret (-1)
     else raise E_start_cell);
  let horizontal_spacing :=
    match Args.horizontal_spacing a with
    | Some h => h
    | None => (0.2 / Z2F cols)%float
    end in
  let vertical_spacing :=
    match Args.vertical_spacing a with
    | Some v => v
    | None =>
        match Args.subplot_titles a with
        | _ :: _ => (0.5 / Z2F rows)%float
        | [] => (0.3 / Z2F rows)%float
        end
    end in
  let max_width :=
    match Args.row_titles a with
    | _ :: _ => 0.98%float
    | [] => 1.0%float
    end in
  widths ← sizes E_column_widths
    (max_width - horizontal_spacing * Z2F (cols - 1))%float cols column_widths;
  heights ← sizes E_row_heights
    (1 - vertical_spacing * Z2F (rows - 1))%float rows row_heights;
  let heights :=
    if bool_decide (is_Some row_heights) &&
       bool_decide (row_dir < 0) && negb use_legacy_row_heights_order
    then reverse heights else heights in
  mret {| rows := rows; cols := cols; row_dir := row_dir;
          horizontal_spacing := horizontal_spacing;
          vertical_spacing := vertical_spacing;
          max_width := max_width; widths := widths; heights := heights |}.

(** ** Normalisation of the spec and inset dictionaries *)

(** The dictionary at an address.  Every address held by an argument is
    allocated; an unallocated one reads as the empty dictionary. *)
Definition deref (ds : list dict) (l : loc) : dict := default ∅ (ds !! l).

(** [if spec and spec.pop('is_3d', None): spec['type'] = 'scene'] *)
Definition convert_is_3d (item : option loc) : M (list dict) unit :=
  modify (λ ds,
    match item with
    | None => ds
    | Some l =>
        let d := deref ds l in
        if bool_decide (size d = 0%nat) then ds
        else match d !! "is_3d" with
             | None => ds
             | Some v =>
                 let d := delete "is_3d" d in
                 <[l := if truthy v then <["type" := VStr "scene"]> d else d]> ds
             end
    end).

(** The elements of the list given to [_check_keys_and_fill]: a row of
    the 2D list of specs, or a dictionary of the 1D list of insets. *)
Inductive arg_item :=
| Row (arg_i : list (option loc))
| Item (arg_i : loc).

Definition _checks (name : string) (defaults : list (string * pyval))
    (item : option loc) : M (list dict) unit := λ ds,
  match item with
  | None => (ds, inr tt)
  | Some l =>
      let d := deref ds l in
      if bool_decide (dom d ⊆ list_to_set defaults.*1)
      then (<[l := foldl setdefault d defaults]> ds, inr tt)
      else (ds, inl (E_invalid_key name))
  end.

Definition _check_keys_and_fill (name : string) (arg : list arg_item)
    (defaults : list (string * pyval)) : M (list dict) unit :=
  for_each arg (λ arg_i,
    match arg_i with
    | Row arg_i => for_each arg_i (λ arg_ii, _checks name defaults arg_ii)
    | Item arg_i => _checks name defaults (Some arg_i)
    end).

Definition spec_defaults : list (string * pyval) :=
  [("type", VStr "xy"); ("colspan", VInt 1); ("rowspan", VInt 1);
   ("l", VFloat 0); ("r", VFloat 0); ("b", VFloat 0); ("t", VFloat 0)].

Definition inset_defaults : list (string * pyval) :=
  [("cell", VTuple [VInt 1; VInt 1]); ("type", VStr "xy"); ("l", VFloat 0);
   ("w", VStr "to_end"); ("b", VFloat 0); ("h", VStr "to_end")].

(** [[[{} for c in range(cols)] for r in range(rows)]]: fresh dictionaries
    at the end of the store. *)
Definition fresh_specs (rows cols : Z) : M (list dict) (list (list (option loc))) :=
  λ ds,
  let n := length ds in
  let nc := Z.to_nat cols in
  ((ds ++ replicate (Z.to_nat rows * nc) ∅)%list,
   inr ((λ r, (λ c, Some (n + r * nc + c)%nat) <$> seq 0 nc) <$> seq 0 (Z.to_nat rows))).

Definition normalize_specs (g : geometry) (specs : option (list (list (option loc))))
  : M (list dict) (list (list (option loc))) :=
  do specs <-
    match specs with
    | None => fresh_specs (rows g) (cols g)
    | Some specs =>
        if negb (bool_decide (length specs = 0%nat)) &&
           bool_decide (Z.of_nat (length specs) = rows g) &&
           forallb (λ row, bool_decide (Z.of_nat (length row) = cols g)) specs
        then m_ret specs
        else lift (raise E_specs_shape)
    end;
  run for_each specs (λ row, for_each row convert_is_3d);
  run _check_keys_and_fill "specs" (Row <$> specs) spec_defaults;
  m_ret specs.

Definition normalize_insets (insets : option (list loc)) : M (list dict) (list loc) :=
  let insets := default [] insets in
  match insets with
  | [] => m_ret insets
  | _ :: _ =>
      run for_each insets (λ inset, convert_is_3d (Some inset));
      run _check_keys_and_fill "insets" (Item <$> insets) inset_defaults;
      m_ret insets
  end.

Definition valid_shared_vals : list pyval :=
  [VNone; VBool true; VBool false; VStr "rows"; VStr "cols"; VStr "all"].

Definition validate_shared (shared_xaxes shared_yaxes : pyval) : res unit :=
  if negb (py_in shared_xaxes valid_shared_vals) then raise (E_shared "shared_xaxes")
  else if negb (py_in shared_yaxes valid_shared_vals) then raise (E_shared "shared_yaxes")
  else mret tt.

(** ** Building the grid of subplots *)

(** [for ...: acc = body(acc, x)], for a loop that carries a local. *)
Fixpoint for_fold {S X A} (xs : list X) (a : A) (body : A → X → M S A) : M S A :=
  match xs with
  | [] => m_ret a
  | x :: xs' => do a' <- body a x; for_fold xs' a' body
  end.

(** [range(n)[::dir]] for [dir] in [{1, -1}]. *)
Definition range_dir (n : Z) (dir : Z) : list nat :=
  if bool_decide (0 < dir) then seq 0 (Z.to_nat n) else reverse (seq 0 (Z.to_nat n)).

(** The start x and start y coordinate of each subplot. *)
Definition grid_of (g : geometry) : list (list (float * float)) :=
  let col_seq := range_dir (cols g) 1 in
  let row_seq := range_dir (rows g) (row_dir g) in
  (λ r : nat, (λ c : nat,
     ((py_sum (take c (widths g)) + Z2F c * horizontal_spacing g)%float,
      (py_sum (take r (heights g)) + Z2F r * vertical_spacing g)%float))
     <$> col_seq) <$> row_seq.

(** The objects [make_subplots] creates and mutates while it builds. *)
Record build_state := {
  layout : layout_t;
  max_subplot_ids : gmap string Z;
  grid_ref : list (list (option ref_element));
  domains_grid : list (list (option (interval * interval)));
  list_of_domains : list interval;
  insets_ref : list (option ref_element);
}.

Definition initial_state (g : geometry) (insets : list loc) : build_state :=
  let nr := Z.to_nat (rows g) in
  let nc := Z.to_nat (cols g) in
  {| layout := ∅;
     max_subplot_ids := _get_initial_max_subplot_ids;
     grid_ref := replicate nr (replicate nc None);
     domains_grid := replicate nr (replicate nc None);
     list_of_domains := [];
     insets_ref := replicate (length insets) None |}.

(** [d[k]] on a spec or inset dictionary. *)
Definition field (d : dict) (k : string) : res pyval :=
  or_raise (E_key k) (d !! k).

(** [d[k]] where a number is needed by the arithmetic that follows. *)
Definition num_field (d : dict) (k : string) : res num :=
  v ← field d k; or_raise E_type (as_num v).

(** [l[i]]: list indices must be integers. *)
Definition index {A} (l : list A) (i : num) : res A :=
  match i with
  | NInt z => or_raise E_index (py_index l z)
  | NFloat _ => raise E_type
  end.

(** [i + span - 1] *)
Definition spanned (i : nat) (span : pyval) : res num :=
  n ← or_raise E_type (as_num span);
  mret (num_sub (num_add (NInt i) n) (NInt 1)).

(** The x and y domain of the cell [(r, c)], before clamping. *)
Definition cell_domains (g : geometry) (grid : list (list (float * float)))
    (r c : nat) (spec : dict) : res (interval * interval) :=
  colspan ← field spec "colspan";
  c_spanned ← spanned c colspan;
  rowspan ← field spec "rowspan";
  r_spanned ← spanned r rowspan;
  if num_geb c_spanned (NInt (cols g)) then raise E_colspan_too_large else
  if num_geb r_spanned (NInt (rows g)) then raise E_rowspan_too_large else
  grid_r ← index grid (NInt r);
  grid_r_c ← index grid_r (NInt c);
  l ← num_field spec "l";
  let x_s := (grid_r_c.1 + to_float l)%float in
  grid_r_cs ← index grid_r c_spanned;
  w ← index (widths g) c_spanned;
  pad_r ← num_field spec "r";
  let x_e := (grid_r_cs.1 + w - to_float pad_r)%float in
  y_domain ←
    (if bool_decide (0 < row_dir g) then
       b ← num_field spec "b";
       let y_s := (grid_r_c.2 + to_float b)%float in
       grid_rs ← index grid r_spanned;
       grid_rs_c ← index grid_rs (NInt c);
       h ← index (heights g) r_spanned;
       t ← num_field spec "t";
       mret (y_s, (grid_rs_c.2 + h - to_float t)%float)
     else
       grid_rs ← index grid r_spanned;
       grid_rs_c ← index grid_rs (NInt c);
       b ← num_field spec "b";
       let y_s := (grid_rs_c.2 + to_float b)%float in
       h ← index (heights g) (NInt (-1 - r));
       t ← num_field spec "t";
       mret (y_s, (grid_r_c.2 + h - to_float t)%float));
  mret ((x_s, x_e), y_domain).

(** [for r, spec_row in enumerate(specs): for c, spec in enumerate(spec_row)],
    flattened in the order the two loops visit the cells. *)
Definition cells {A} (specs : list (list A)) : list (nat * nat * A) :=
  concat (imap (λ r spec_row, imap (λ c spec, (r, c, spec)) spec_row) specs).

(** [m[r][c] = x] *)
Definition set_cell {A} (r c : nat) (x : A) (m : list (list A)) : list (list A) :=
  alter (λ row, <[c := x]> row) r m.

(** The body of the loop through specs. *)
Definition init_cell (ds : list dict) (g : geometry)
    (grid : list (list (float * float))) (cell : nat * nat * option loc)
  : M build_state unit :=
  let '(r, c, spec) := cell in
  match spec with
  | None => m_ret tt
  | Some l =>
      let d := deref ds l in
      do '(x_domain, y_domain) <- lift (cell_domains g grid r c d);
      run modify (λ st,
        {| layout := layout st; max_subplot_ids := max_subplot_ids st;
           grid_ref := grid_ref st;
           domains_grid := set_cell r c (Some (x_domain, y_domain)) (domains_grid st);
           list_of_domains := (list_of_domains st ++ [x_domain; y_domain])%list;
           insets_ref := insets_ref st |});
      do subplot_type <- lift (field d "type");
      do st <- get;
      do '(layout', ids', grid_ref_element) <-
        lift (_init_subplot (layout st) subplot_type x_domain y_domain
                (Some (max_subplot_ids st)));
      modify (λ st,
        {| layout := layout'; max_subplot_ids := ids';
           grid_ref := set_cell r c (Some (with_spec l grid_ref_element)) (grid_ref st);
           domains_grid := domains_grid st;
           list_of_domains := list_of_domains st;
           insets_ref := insets_ref st |})
  end.

(** ** Shared axes *)

Inductive axis_letter := X | Y.

#[global] Instance axis_letter_eq_dec : EqDecision axis_letter.
Proof. solve_decision. Defined.

Definition span_key (x_or_y : axis_letter) : string :=
  match x_or_y with X => "colspan" | Y => "rowspan" end.

(** [['x', 'y'].index(x_or_y)] *)
Definition layout_key_ind (x_or_y : axis_letter) : nat :=
  match x_or_y with X => 0%nat | Y => 1%nat end.

(** [axis_to_match.matches = first_axis_id], then
    [axis_to_match.showticklabels = False] when [remove_label]. *)
Definition set_matches (first_axis_id : string) (remove_label : bool)
    (a : axis) : axis :=
  {| domain := domain a; anchor := anchor a;
     matches := Some first_axis_id;
     showticklabels := if remove_label then Some false else showticklabels a |}.

Definition update_axis_matches (ds : list dict) (x_or_y : axis_letter)
    (first_axis_id : option string) (ref : option ref_element)
    (remove_label : bool) : M layout_t (option string) :=
  match ref with
  | None => m_ret first_axis_id
  | Some ref =>
      do span <- lift (l ← or_raise (E_key "spec") (spec ref);
                       field (deref ds l) (span_key x_or_y));
      if bool_decide (subplot_type ref = "xy") && py_eq span (VInt 1) then
        match first_axis_id with
        | None =>
            do first_axis_name <-
              lift (or_raise E_index (layout_keys ref !! layout_key_ind x_or_y));
            m_ret (Some (replace "axis" "" first_axis_name))
        | Some id =>
            do axis_name <-
              lift (or_raise E_index (layout_keys ref !! layout_key_ind x_or_y));
            do layout <- get;
            do axis_to_match <- lift (or_raise (E_key axis_name) (layout !! axis_name));
            match axis_to_match with
            | Axis a =>
                run modify (λ layout : layout_t,
                  <[axis_name := Axis (set_matches id remove_label a)]> layout);
                m_ret first_axis_id
            | Container _ _ => lift (raise E_attribute)
            end
        end
      else m_ret first_axis_id
  end.

(** [grid_ref[r][c]] *)
Definition ref_at (grid_ref : list (list (option ref_element))) (r c : nat)
  : res (option ref_element) :=
  or_raise E_index (row ← grid_ref !! r; row !! c).

(** [len(grid_ref[0])] *)
Definition ncols {A} (grid_ref : list (list A)) : res nat :=
  or_raise E_index (length <$> grid_ref !! 0%nat).

(** [shared is True] *)
Definition is_True (v : pyval) : bool :=
  match v with VBool true => true | _ => false end.

Definition _configure_shared_axes (ds : list dict)
    (grid_ref : list (list (option ref_element))) (x_or_y : axis_letter)
    (shared : pyval) (row_dir : Z) : M layout_t unit :=
  let rows := length grid_ref in
  do cols <- lift (ncols grid_ref);
  let rows_iter :=
    if bool_decide (row_dir < 0) then reverse (seq 0 rows) else seq 0 rows in
  if py_eq shared (VStr "columns") ||
     (bool_decide (x_or_y = X) && is_True shared) then
    for_each (seq 0 cols) (λ c,
      let ok_to_remove_label := bool_decide (x_or_y = X) in
      do _ <- for_fold rows_iter None (λ first_axis_id r,
        do ref <- lift (ref_at grid_ref r c);
        update_axis_matches ds x_or_y first_axis_id ref ok_to_remove_label);
      m_ret tt)
  else if py_eq shared (VStr "rows") ||
          (bool_decide (x_or_y = Y) && is_True shared) then
    for_each rows_iter (λ r,
      let ok_to_remove_label := bool_decide (x_or_y = Y) in
      do _ <- for_fold (seq 0 cols) None (λ first_axis_id c,
        do ref <- lift (ref_at grid_ref r c);
        update_axis_matches ds x_or_y first_axis_id ref ok_to_remove_label);
      m_ret tt)
  else if py_eq shared (VStr "all") then
    do _ <- for_fold (seq 0 cols) None (λ first_axis_id c,
      for_fold (imap pair rows_iter) first_axis_id (λ first_axis_id ri_r,
        let '(ri, r) := ri_r in
        do ref <- lift (ref_at grid_ref r c);
        let ok_to_remove_label :=
          match x_or_y with
          | Y => bool_decide (0 < c)%nat
          | X => if bool_decide (0 < row_dir) then bool_decide (0 < ri)%nat
                 else bool_decide (r < rows - 1)%nat
          end in
        update_axis_matches ds x_or_y first_axis_id ref ok_to_remove_label));
    m_ret tt
  else m_ret tt.

(** ** Insets *)

(** [v[i]] on a value of a dictionary. *)
Definition subscript (v : pyval) (i : Z) : res pyval :=
  match v with
  | VTuple l => or_raise E_index (py_index l i)
  | VStr s =>
      a ← or_raise E_index (py_index (String.list_ascii_of_string s) i);
      mret (VStr (String a EmptyString))
  | _ => raise E_type
  end.

(** [r = inset['cell'][0] - 1] and [c = inset['cell'][1] - 1] *)
Definition inset_cell (inset : dict) : res (num * num) :=
  cell ← field inset "cell";
  cell_0 ← subscript cell 0;
  row ← or_raise E_type (as_num cell_0);
  cell ← field inset "cell";
  cell_1 ← subscript cell 1;
  col ← or_raise E_type (as_num cell_1);
  mret (num_sub row (NInt 1), num_sub col (NInt 1)).

(** [0 <= i < n] *)
Definition in_range (i : num) (n : Z) : bool :=
  num_geb i (NInt 0) && num_ltb i (NInt n).

(** The x and y domain of an inset, before clamping. *)
Definition inset_domains (g : geometry) (grid : list (list (float * float)))
    (inset : dict) : res (interval * interval) :=
  '(r, c) ← inset_cell inset;
  if negb (in_range r (rows g)) then raise E_inset_row_range else
  if negb (in_range c (cols g)) then raise E_inset_col_range else
  grid_r ← index grid r;
  grid_r_c ← index grid_r c;
  l ← num_field inset "l";
  width ← index (widths g) c;
  let x_s := (grid_r_c.1 + to_float l * width)%float in
  w ← field inset "w";
  x_e ← (if py_eq w (VStr "to_end") then mret (grid_r_c.1 + width)%float
         else w ← or_raise E_type (as_num w);
              mret (x_s + to_float w * width)%float);
  b ← num_field inset "b";
  height ← index (heights g) (num_sub (NInt (-1)) r);
  let y_s := (grid_r_c.2 + to_float b * height)%float in
  h ← field inset "h";
  y_e ← (if py_eq h (VStr "to_end") then mret (grid_r_c.2 + height)%float
         else h ← or_raise E_type (as_num h);
              mret (y_s + to_float h * height)%float);
  mret ((x_s, x_e), (y_s, y_e)).

(** The body of the loop through insets. *)
Definition init_inset (ds : list dict) (g : geometry)
    (grid : list (list (float * float))) (i_inset_inset : nat * loc)
  : M build_state unit :=
  let '(i_inset, inset) := i_inset_inset in
  let d := deref ds inset in
  do '(x_domain, y_domain) <- lift (inset_domains g grid d);
  run modify (λ st,
    {| layout := layout st; max_subplot_ids := max_subplot_ids st;
       grid_ref := grid_ref st; domains_grid := domains_grid st;
       list_of_domains := (list_of_domains st ++ [x_domain; y_domain])%list;
       insets_ref := insets_ref st |});
  do subplot_type <- lift (field d "type");
  do st <- get;
  do '(layout', ids', inset_ref_element) <-
    lift (_init_subplot (layout st) subplot_type x_domain y_domain
            (Some (max_subplot_ids st)));
  modify (λ st,
    {| layout := layout'; max_subplot_ids := ids';
       grid_ref := grid_ref st; domains_grid := domains_grid st;
       list_of_domains := list_of_domains st;
       insets_ref := <[i_inset := Some inset_ref_element]> (insets_ref st) |}).

(** [_build_grid_str], for the exceptions it can raise (the text of the
    diagram is left out): [max] of an empty list when the grid has no
    subplot at all, and the label of a missing cell under an inset. *)
Definition _build_grid_str (ds : list dict)
    (grid_ref : list (list (option ref_element))) (insets : list loc)
  : res unit :=
  if forallb (λ ref, negb (bool_decide (is_Some ref))) (concat grid_ref)
  then raise E_max_empty
  else
    _ ← mapM (λ inset,
      '(r, c) ← inset_cell (deref ds inset);
      grid_ref_r ← index grid_ref r;
      ref ← index grid_ref_r c;
      match ref with
      | None => raise E_type
      | Some _ => mret tt
      end) insets;
    mret tt.

(** ** [make_subplots] *)

Record figure := {
  fig_layout : loc;
  _grid_ref : list (list (option ref_element));
}.

(** Run a computation on the layout of the state. *)
Definition on_layout {A} (m : M layout_t A) : M build_state A := λ st,
  let '(layout', r) := m (layout st) in
  ({| layout := layout'; max_subplot_ids := max_subplot_ids st;
      grid_ref := grid_ref st; domains_grid := domains_grid st;
      list_of_domains := list_of_domains st; insets_ref := insets_ref st |}, r).

(** From [layout = go.Layout()] to the grid diagram.  The title
    annotations, which cannot raise and only set [layout['annotations']],
    are left out. *)
Definition build (ds : list dict) (g : geometry)
    (specs : list (list (option loc))) (insets : list loc)
    (shared_xaxes shared_yaxes : pyval) : M build_state unit :=
  let grid := grid_of g in
  run for_each (cells specs) (init_cell ds g grid);
  do st <- get;
  run on_layout (_configure_shared_axes ds (grid_ref st) X shared_xaxes (row_dir g));
  run on_layout (_configure_shared_axes ds (grid_ref st) Y shared_yaxes (row_dir g));
  run for_each (imap pair insets) (init_inset ds g grid);
  do st <- get;
  lift (_build_grid_str ds (grid_ref st) insets).

(** The dictionaries are normalised in place before anything is built. *)
Definition normalize (g : geometry) (a : Args.t)
  : M (list dict) (list (list (option loc)) * list loc) :=
  do specs <- normalize_specs g (Args.specs a);
  do insets <- normalize_insets (Args.insets a);
  run lift (validate_shared (Args.shared_xaxes a) (Args.shared_yaxes a));
  m_ret (specs, insets).

(** The layout object is allocated by the call; the caller receives its
    address in the returned figure, and nothing when the call raises. *)
Definition make_subplots (_future_flags : list string) (a : Args.t)
  : M world figure := λ w,
  match validate_grid _future_flags a with
  | inl e => (w, inl e)
  | inr g =>
      match normalize g a (dicts w) with
      | (ds, inl e) => ({| dicts := ds; layouts := layouts w |}, inl e)
      | (ds, inr (specs, insets)) =>
          let '(st, r) :=
            build ds g specs insets (Args.shared_xaxes a) (Args.shared_yaxes a)
              (initial_state g insets) in
          let w' := {| dicts := ds; layouts := (layouts w ++ [layout st])%list |} in
          match r with
          | inl e => (w', inl e)
          | inr _ =>
              (w', inr {| fig_layout := length (layouts w);
                          _grid_ref := grid_ref st |})
          end
      end
  end.

(** ** Binding a trace to a cell, and looking a cell up *)

(** Modelled from the spec: the trace object, which "supports checking
    membership of a named property and updating multiple named properties
    at once". *)
Record trace := {
  trace_type : string;
  valid_props : gset string;
  props : gmap string kwarg;
}.

(** [trace.update(kwargs)] *)
Definition trace_update (kwargs : gmap string kwarg) (t : trace) : trace :=
  {| trace_type := trace_type t; valid_props := valid_props t;
     props := kwargs ∪ props t |}.

Definition _set_trace_grid_reference
    (grid_ref : list (list (option ref_element))) (row col : Z)
  : M trace unit :=
  if bool_decide (row ≤ 0) then lift (raise E_bind_row) else
  if bool_decide (col ≤ 0) then lift (raise E_bind_col) else
  do ref <- lift (or_raise E_bind_pair
                    (grid_ref_row ← py_index grid_ref (row - 1);
                     py_index grid_ref_row (col - 1)));
  match ref with
  | None => lift (raise E_bind_empty)
  | Some ref =>
      do t <- get;
      if bool_decide (dom (trace_kwargs ref) ⊆ valid_props t)
      then modify (trace_update (trace_kwargs ref))
      else lift (raise (E_bind_incompatible (trace_type t) (subplot_type ref)))
  end.

(** What [_get_grid_subplot] returns for a cell with a subplot. *)
Inductive handle :=
| SubplotDomain (x y : interval)
| SubplotSingle (obj : layout_obj)
| SubplotXY (xaxis yaxis : layout_obj).

Definition handle_of (layout : layout_t) (ref : ref_element) : res handle :=
  match layout_keys ref with
  | [] =>
      d ← or_raise (E_key "domain") (trace_kwargs ref !! "domain");
      match d with
      | KDomain x y => mret (SubplotDomain x y)
      | KLabel _ => raise E_type
      end
  | [k] =>
      obj ← or_raise (E_key k) (layout !! k);
      mret (SubplotSingle obj)
  | [kx; ky] =>
      xaxis ← or_raise (E_key kx) (layout !! kx);
      yaxis ← or_raise (E_key ky) (layout !! ky);
      mret (SubplotXY xaxis yaxis)
  | _ => raise E_lookup_keys
  end.

Definition _get_grid_subplot (_future_flags : list string) (w : world)
    (fig : figure) (row col : Z) : res (option handle) :=
  if negb (bool_decide ("v4_subplots" ∈ _future_flags)) then raise E_future_mode
  else
  let grid_ref := _grid_ref fig in
  let rows : nat := length grid_ref in
  match ncols grid_ref with
  | inl e => inl e
  | inr cols =>
      if bool_decide (row < 1) || bool_decide (rows < row) then raise E_lookup_row else
      if bool_decide (col < 1) || bool_decide (cols < col) then raise E_lookup_col else
      match grid_ref !! Z.to_nat (row - 1) ≫= (.!! Z.to_nat (col - 1)) with
      | None => raise E_index
      | Some None => mret None
      | Some (Some ref) =>
          h ← handle_of (default ∅ (layouts w !! fig_layout fig)) ref;
          mret (Some h)
      end
  end.

(** ** Vocabulary of the statements *)

(** A caller with no objects yet. *)
Definition empty_world : world := {| dicts := []; layouts := [] |}.

(** The future flags under which [make_subplots] may be used. *)
Definition v4 : list string := ["v4_subplots"].

(** [0 <= d[0]] and [d[1] <= 1]: what clamping a domain guarantees. *)
Definition clamped (d : interval) : Prop :=
  PrimFloat.leb 0 d.1 = true ∧ PrimFloat.leb d.2 1 = true.

(** Both ends of the interval lie in [[0, 1]]. *)
Definition within_unit (d : interval) : Prop :=
  (PrimFloat.leb 0 d.1 = true ∧ PrimFloat.leb d.1 1 = true) ∧
  (PrimFloat.leb 0 d.2 = true ∧ PrimFloat.leb d.2 1 = true).

(** The domains a layout object carries. *)
Definition obj_domains (o : layout_obj) : list interval :=
  match o with
  | Axis a => [domain a]
  | Container x y => [x; y]
  end.

(** The clamped domains [_init_subplot] hands to the three constructors. *)
Definition clamp (d : interval) : interval := (py_max 0 d.1, py_min 1 d.2).

(** Every object of the layout carries clamped domains. *)
Definition layout_clamped (layout : layout_t) : Prop :=
  map_Forall (λ _ o, Forall clamped (obj_domains o)) layout.

(** An axis entry as [_init_subplot_xy] registers it. *)
Definition new_axis (d : interval) (anchor : string) : layout_obj :=
  Axis {| domain := d; anchor := anchor; matches := None; showticklabels := None |}.

(** The reference element of the xy subplot on [xaxis<x>] and [yaxis<y>]. *)
Definition xy_ref (x y : string) (s : option loc) : ref_element :=
  {| subplot_type := "xy";
     layout_keys := ["xaxis" +:+ x; "yaxis" +:+ y];
     trace_kwargs := {["xaxis" := KLabel ("x" +:+ x); "yaxis" := KLabel ("y" +:+ y)]};
     spec := s |}.

(** The reference element of a single-container subplot. *)
Definition single_ref (subplot_type trace_key label : string) (s : option loc)
  : ref_element :=
  {| subplot_type := subplot_type;
     layout_keys := [label];
     trace_kwargs := {[trace_key := KLabel label]};
     spec := s |}.

(** A spec dictionary holding the defaults, but for the given entries. *)
Definition spec_with (entries : list (string * pyval)) : dict :=
  list_to_map (entries ++ spec_defaults)%list.

(** The cell at the 1-based position [(row, col)], when it is in range. *)
Definition grid_cell {A} (grid_ref : list (list A)) (row col : Z) : option A :=
  grid_ref !! Z.to_nat (row - 1) ≫= (.!! Z.to_nat (col - 1)).

(** Every row of the table has [cols] cells. *)
Definition rectangular {A} (cols : nat) (grid_ref : list (list A)) : Prop :=
  Forall (λ grid_ref_row, length grid_ref_row = cols) grid_ref.

(** The world and the figure of [make_subplots(rows=2, cols=1)] called
    with no object allocated yet. *)
Definition two_rows_layout : layout_t :=
  {[ "xaxis1" := new_axis (0, 1)%float "y1";
     "yaxis1" := new_axis (0.575, 1.0)%float "x1";
     "xaxis2" := new_axis (0, 1)%float "y2";
     "yaxis2" := new_axis (0.0, 0.425)%float "x2" ]}.

Definition two_rows_world : world :=
  {| dicts := [spec_with []; spec_with []]; layouts := [two_rows_layout] |}.

Definition two_rows_figure : figure :=
  {| fig_layout := 0;
     _grid_ref := [ [Some (xy_ref "1" "1" (Some 0%nat))];
                    [Some (xy_ref "2" "2" (Some 1%nat))] ] |}.

(** What [if spec and spec.pop('is_3d', None): spec['type'] = 'scene']
    makes of a dictionary. *)
Definition converted (d : dict) : dict :=
  match d !! "is_3d" with
  | None => d
  | Some v =>
      if truthy v then <["type" := VStr "scene"]> (delete "is_3d" d)
      else delete "is_3d" d
  end.

(** What [for k, v in defaults.items(): item.setdefault(k, v)] makes of a
    dictionary. *)
Definition filled (defaults : list (string * pyval)) (d : dict) : dict :=
  foldl setdefault d defaults.

(** The keys of a list of defaults. *)
Definition keys_of (defaults : list (string * pyval)) : gset string :=
  list_to_set defaults.*1.

(** An in-place update of the dictionary at an address: replace it by
    [f] of itself when it passes the check [ok], raise [e] otherwise. *)
Definition update_at (f : dict → dict) (ok : dict → bool) (e : error)
    (item : option loc) : M (list dict) unit := λ ds,
  match item with
  | None => (ds, inr tt)
  | Some l =>
      if ok (deref ds l) then (<[l := f (deref ds l)]> ds, inr tt)
      else (ds, inl e)
  end.

(** The shape [make_subplots] demands of a [specs] argument: a non-empty
    list of [rows] rows of [cols] cells. *)
Definition specs_shape_ok (g : geometry) (specs : list (list (option loc))) : bool :=
  negb (bool_decide (length specs = 0%nat)) &&
  bool_decide (Z.of_nat (length specs) = rows g) &&
  forallb (λ row, bool_decide (Z.of_nat (length row) = cols g)) specs.

(** The check [_checks] makes of the keys of a dictionary. *)
Definition keys_ok (defaults : list (string * pyval)) (d : dict) : bool :=
  bool_decide (dom d ⊆ list_to_set defaults.*1).

(** The geometry of [make_subplots()], a grid of one cell. *)
Definition one_cell : geometry :=
  {| rows := 1; cols := 1; row_dir := -1;
     horizontal_spacing := 0.2; vertical_spacing := 0.3; max_width := 1;
     widths := [1%float]; heights := [1%float] |}.

(** The dictionaries [_check_keys_and_fill] visits, in order. *)
Definition arg_items (arg : list arg_item) : list (option loc) :=
  concat ((λ arg_i, match arg_i with
                    | Row arg_i => arg_i
                    | Item arg_i => [Some arg_i]
                    end) <$> arg).




(** [m[r][c]], when both indices are in range. *)
Definition cell_at {A} (m : list (list A)) (r c : nat) : option A :=
  m !! r ≫= (.!! c).

(** A reference element of one of the three shapes [_init_subplot]
    builds, with the layout keys it names registered in the layout. *)
Definition ref_registered (layout : layout_t) (ref : ref_element) : Prop :=
  match layout_keys ref with
  | [] => ∃ x y, trace_kwargs ref = {["domain" := KDomain x y]}
  | [k] => is_Some (layout !! k) ∧ ∃ key, trace_kwargs ref = {[key := KLabel k]}
  | [kx; ky] =>
      is_Some (layout !! kx) ∧ is_Some (layout !! ky) ∧
      ∃ n m, kx = "xaxis" +:+ fmt n ∧ ky = "yaxis" +:+ fmt m ∧
        trace_kwargs ref = {["xaxis" := KLabel ("x" +:+ fmt n);
                             "yaxis" := KLabel ("y" +:+ fmt m)]}
  | _ => False
  end.

(** The xy elements of a table are numbered below the counters, and no
    two cells share a number. *)
Definition xy_numbered (ids : gmap string Z)
    (gr : list (list (option ref_element))) : Prop :=
  ∃ n m, ids !! "xaxis" = Some n ∧ ids !! "yaxis" = Some m ∧
    ∃ ix iy : nat → nat → Z,
      ∀ r c ref, cell_at gr r c = Some (Some ref) → subplot_type ref = "xy" →
        ix r c ≤ n ∧ iy r c ≤ m ∧
        layout_keys ref = ["xaxis" +:+ fmt (ix r c); "yaxis" +:+ fmt (iy r c)] ∧
        ∀ r' c' ref', (r, c) ≠ (r', c') →
          cell_at gr r' c' = Some (Some ref') → subplot_type ref' = "xy" →
          ix r c ≠ ix r' c' ∧ iy r c ≠ iy r' c'.






(** ** Title annotations *)

(** The exceptions of the title annotations: the [ValueError] of an
    unknown edge, an [IndexError], and the [OverflowError] of an [int]
    beyond the range of [float]. *)
Inductive title_error :=
| E_annotation_edge (edge : string)
| E_title_index
| E_title_overflow.

Abbreviation tres := (sum title_error).

#[global] Instance tres_ret : MRet tres := λ _ x, inr x.
#[global] Instance tres_bind : MBind tres := λ _ _ f m,
  match m with
  | inl e => inl e
  | inr x => f x
  end.

(** [l[i]] for [0 <= i] *)
Definition item {A} (l : list A) (i : nat) : tres A :=
  from_option inr (inl E_title_index) (l !! i).

(** [l[-1]] *)
Definition last_item {A} (l : list A) : tres A :=
  from_option inr (inl E_title_index) (py_index l (-1)).

(** The annotation dictionaries [_build_subplot_title_annotations]
    builds; [font] is the size of [dict(size=16)]. *)
Module Annot.
Record t := {
  y : num;
  xref : string;
  x : num;
  yref : string;
  text : string;
  showarrow : bool;
  font : Z;
  xanchor : string;
  yanchor : string;
  xshift : option Z;
  yshift : option Z;
  textangle : option Z;
}.
End Annot.

(** [l[::2]]; [l[1::2]] is [every_other (drop 1 l)]. *)
Fixpoint every_other {A} (l : list A) : list A :=
  match l with
  | [] => []
  | x :: l' =>
      x :: match l' with
           | [] => []
           | _ :: l'' => every_other l''
           end
  end.

(** [float(n)], as arithmetic between an [int] and a [float] applies it. *)
Definition float_of (n : num) : tres float :=
  match n with
  | NInt z =>
      let f := Z2F z in
      if PrimFloat.is_infinity f then inl E_title_overflow else mret f
  | NFloat f => mret f
  end.

(** [a + b] *)
Definition add (a b : num) : tres num :=
  match a, b with
  | NInt x, NInt y => mret (NInt (x + y))
  | _, _ => x ← float_of a; y ← float_of b; mret (NFloat (x + y))
  end.

(** [sum(domain) / 2.0] *)
Definition middle (domain : num * num) : tres num :=
  s ← add (NInt 0) domain.1;
  s ← add s domain.2;
  f ← float_of s;
  mret (NFloat (f / 2)).

(** [if v != 0: annot[k] = v] *)
Definition shift (v : Z) : option Z :=
  if bool_decide (v ≠ 0) then Some v else None.

Definition _build_subplot_title_annotations (subplot_titles : list string)
    (list_of_domains : list (num * num)) (title_edge : string) (offset : Z)
  : tres (list Annot.t) :=
  let x_dom := every_other list_of_domains in
  let y_dom := every_other (drop 1 list_of_domains) in
  '(text_angle, xanchor, yanchor, subtitle_pos_x, subtitle_pos_y, yshift, xshift) ←
    (if bool_decide (title_edge = "top") then
       subtitle_pos_x ← mapM middle x_dom;
       let subtitle_pos_y := snd <$> y_dom in
       mret (0, "center", "bottom", subtitle_pos_x, subtitle_pos_y, offset, 0)
     else if bool_decide (title_edge = "bottom") then
       subtitle_pos_x ← mapM middle x_dom;
       let subtitle_pos_y := fst <$> y_dom in
       mret (0, "center", "top", subtitle_pos_x, subtitle_pos_y, - offset, 0)
     else if bool_decide (title_edge = "right") then
       let subtitle_pos_x := snd <$> x_dom in
       subtitle_pos_y ← mapM middle y_dom;
       mret (90, "left", "middle", subtitle_pos_x, subtitle_pos_y, 0, offset)
     else if bool_decide (title_edge = "left") then
       let subtitle_pos_x := fst <$> x_dom in
       subtitle_pos_y ← mapM middle y_dom;
       mret (-90, "right", "middle", subtitle_pos_x, subtitle_pos_y, 0, - offset)
     else inl (E_annotation_edge title_edge));
  plot_titles ← mapM (λ '(index, title),
      if bool_decide (title = "") ||
         bool_decide (length subtitle_pos_y ≤ index)%nat
      then mret None
      else
        y ← item subtitle_pos_y index;
        x ← item subtitle_pos_x index;
        mret (Some {| Annot.y := y; Annot.xref := "paper";
                      Annot.x := x; Annot.yref := "paper";
                      Annot.text := title; Annot.showarrow := false;
                      Annot.font := 16;
                      Annot.xanchor := xanchor; Annot.yanchor := yanchor;
                      Annot.xshift := shift xshift;
                      Annot.yshift := shift yshift;
                      Annot.textangle := shift text_angle |}))
    (imap pair subplot_titles);
  mret (omap id plot_titles).

(** A domain of the build state as the title annotations read it. *)
Definition as_nums (d : interval) : num * num := (NFloat d.1, NFloat d.2).

(** [if domain_pair: domains_list.extend(domain_pair)] over the pairs
    read from [domains_grid]. *)
Definition extended (pairs : list (option (interval * interval)))
  : list (num * num) :=
  concat ((λ domain_pair,
             match domain_pair with
             | Some (x_domain, y_domain) => [as_nums x_domain; as_nums y_domain]
             | None => []
             end) <$> pairs).

(** The value of [layout['annotations']] when [make_subplots] returns:
    the titles of the subplots, of the columns and of the rows, and the
    titles of the x and the y axis.  Without subplot titles the call has
    set [subplot_titles] to [rows * cols] empty titles. *)
Definition title_annotations (a : Args.t) (g : geometry) (st : build_state)
  : tres (list Annot.t) :=
  let subplot_titles :=
    if bool_decide (Args.subplot_titles a = [])
    then replicate (Z.to_nat (rows g) * Z.to_nat (cols g)) ""
    else Args.subplot_titles a in
  plot_title_annotations ←
    _build_subplot_title_annotations subplot_titles
      (as_nums <$> list_of_domains st) "top" 0;
  let annotations := plot_title_annotations in
  annotations ←
    (if bool_decide (Args.column_titles a = []) then mret annotations
     else
       pairs ← mapM (λ c : nat,
           domains_row ← (if bool_decide (0 < row_dir g)
                          then last_item (domains_grid st)
                          else item (domains_grid st) 0);
           item domains_row c)
         (seq 0 (Z.to_nat (cols g)));
       column_title_annotations ←
         _build_subplot_title_annotations (Args.column_titles a)
           (extended pairs) "top" 0;
       mret (annotations ++ column_title_annotations)%list);
  annotations ←
    (if bool_decide (Args.row_titles a = []) then mret annotations
     else
       let rows_iter :=
         if bool_decide (row_dir g < 0) then reverse (seq 0 (Z.to_nat (rows g)))
         else seq 0 (Z.to_nat (rows g)) in
       pairs ← mapM (λ r : nat,
           domains_row ← item (domains_grid st) r;
           last_item domains_row)
         rows_iter;
       column_title_annotations ←
         _build_subplot_title_annotations (Args.row_titles a)
           (extended pairs) "right" 0;
       mret (annotations ++ column_title_annotations)%list);
  annotations ←
    (if bool_decide (Args.x_title a = "") then mret annotations
     else
       let domains_list := [(NInt 0, NFloat (max_width g)); (NInt 0, NInt 1)] in
       column_title_annotations ←
         _build_subplot_title_annotations [Args.x_title a] domains_list
           "bottom" 30;
       mret (annotations ++ column_title_annotations)%list);
  (if bool_decide (Args.y_title a = "") then mret annotations
   else
     let domains_list := [(NInt 0, NInt 1); (NInt 0, NInt 1)] in
     column_title_annotations ←
       _build_subplot_title_annotations [Args.y_title a] domains_list
         "left" 40;
     mret (annotations ++ column_title_annotations)%list).

(** The edges a title can be put at. *)
Definition title_edges : list string := ["top"; "bottom"; "right"; "left"].

(** [sum(domain) / 2.0] for a domain of floats. *)
Definition centre (d : interval) : float := ((0 + d.1 + d.2) / 2)%float.

(** Where a title at the given edge sits, from the x domain and from the
    y domain of its subplot. *)
Definition pos_x (title_edge : string) (x_domain : interval) : float :=
  if bool_decide (title_edge = "right") then x_domain.2
  else if bool_decide (title_edge = "left") then x_domain.1
  else centre x_domain.

Definition pos_y (title_edge : string) (y_domain : interval) : float :=
  if bool_decide (title_edge = "top") then y_domain.2
  else if bool_decide (title_edge = "bottom") then y_domain.1
  else centre y_domain.

(** The text and the position of the title of the subplot [index], when
    the title is not empty and the list of domains has the two domains of
    that subplot. *)
Definition placed (title_edge : string) (list_of_domains : list interval)
    (index_title : nat * string) : option (string * num * num) :=
  let '(index, title) := index_title in
  if bool_decide (title = "") then None
  else
    x_domain ← list_of_domains !! (2 * index)%nat;
    y_domain ← list_of_domains !! (2 * index + 1)%nat;
    Some (title, NFloat (pos_x title_edge x_domain),
          NFloat (pos_y title_edge y_domain)).

(** The text and the position of an annotation. *)
Definition title_of (annot : Annot.t) : string * num * num :=
  (Annot.text annot, Annot.x annot, Annot.y annot).

(** The dictionaries of the cells of [specs] that are not [None]. *)
Definition subplots (specs : list (list (option loc))) : list loc :=
  omap id (concat specs).

(** The layout key of the axis of the cell [(r, c)] that the linking of
    the [x_or_y] axes works on: the cell holds an xy subplot whose span
    along the axis is 1. *)
Definition link_key (ds : list dict)
    (grid_ref : list (list (option ref_element))) (x_or_y : axis_letter)
    (r c : nat) : option string :=
  match ref_at grid_ref r c with
  | inr (Some ref) =>
      l ← spec ref;
      span ← deref ds l !! span_key x_or_y;
      if bool_decide (subplot_type ref = "xy") && py_eq span (VInt 1)
      then layout_keys ref !! layout_key_ind x_or_y
      else None
  | _ => None
  end.

(** The order in which the linking visits the rows. *)
Definition rows_iter {A} (grid_ref : list (list A)) (row_dir : Z) : list nat :=
  if bool_decide (row_dir < 0) then reverse (seq 0 (length grid_ref))
  else seq 0 (length grid_ref).

(** The keys of the axes of a column, and of a row, that the linking
    works on, in the order they are visited. *)
Definition column_keys (ds : list dict)
    (grid_ref : list (list (option ref_element))) (x_or_y : axis_letter)
    (row_dir : Z) (c : nat) : list string :=
  omap (λ r, link_key ds grid_ref x_or_y r c) (rows_iter grid_ref row_dir).

Definition row_keys (ds : list dict)
    (grid_ref : list (list (option ref_element))) (x_or_y : axis_letter)
    (cols : nat) (r : nat) : list string :=
  omap (λ c, link_key ds grid_ref x_or_y r c) (seq 0 cols).

(** From [layout] to [layout']: the axes at [keys] have been set to match
    [id], and nothing else has changed. *)
Definition matched (id : string) (remove_label : bool) (keys : list string)
    (layout layout' : layout_t) : Prop :=
  ∀ k,
    (k ∈ keys → ∃ a, layout !! k = Some (Axis a) ∧
       layout' !! k = Some (Axis (set_matches id remove_label a))) ∧
    (k ∉ keys → layout' !! k = layout !! k).

(** The layout and the table of [make_subplots(rows=1, cols=2)]. *)
Definition one_row_layout : layout_t :=
  {[ "xaxis1" := new_axis (0, 0.45)%float "y1";
     "yaxis1" := new_axis (0, 1)%float "x1";
     "xaxis2" := new_axis (0.55, 1)%float "y2";
     "yaxis2" := new_axis (0, 1)%float "x2" ]}.

Definition one_row_table : list (list (option ref_element)) :=
  [ [Some (xy_ref "1" "1" (Some 0%nat)); Some (xy_ref "2" "2" (Some 1%nat))] ].

(** From [layout] to [layout']: the axes at [keys] match [id], and
    nothing else has changed. *)
Definition linked (id : string) (keys : list string)
    (layout layout' : layout_t) : Prop :=
  ∀ k,
    (k ∈ keys → ∃ a, layout' !! k = Some (Axis a) ∧ matches a = Some id) ∧
    (k ∉ keys → layout' !! k = layout !! k).

(** The keys of the axes of the whole grid that the linking works on, in
    the order they are visited: column by column. *)
Definition grid_keys (ds : list dict)
    (grid_ref : list (list (option ref_element))) (x_or_y : axis_letter)
    (row_dir : Z) (cols : nat) : list string :=
  concat ((λ c, column_keys ds grid_ref x_or_y row_dir c) <$> seq 0 cols).

(** What a run of the loop that carries [first_axis_id] has done when it
    ends: the first axis it met is the one all later ones match. *)
Definition left_by (first first' : option string) (keys : list string)
    (layout layout' : layout_t) : Prop :=
  match first with
  | Some id => first' = Some id ∧ linked id keys layout layout'
  | None =>
      match keys with
      | [] => first' = None ∧ layout' = layout
      | k0 :: rest =>
          first' = Some (replace "axis" "" k0) ∧
          linked (replace "axis" "" k0) rest layout layout'
      end
  end.

(** * Properties *)

(** ** The state-and-exception monad *)

Lemma for_each_state {S X} (P : S → Prop) (xs : list X) (body : X → M S unit) s :
  P s →
  (∀ x s, x ∈ xs → P s → P (body x s).1) →
  P (for_each xs body s).1.
Proof.
  revert s. induction xs as [|x xs IH]; intros s Hs Hbody; [done|].
  simpl. unfold m_bind.
  pose proof (Hbody x s (list_elem_of_here _ _) Hs) as Hx.
  destruct (body x s) as [s' [e|[]]]; [done|].
  apply IH; [done|]. intros y t Hy. apply Hbody. by apply list_elem_of_further.
Qed.

Lemma for_fold_state {S X A} (P : S → Prop) (xs : list X) (a : A)
    (body : A → X → M S A) s :
  P s →
  (∀ a x s, x ∈ xs → P s → P (body a x s).1) →
  P (for_fold xs a body s).1.
Proof.
  revert a s. induction xs as [|x xs IH]; intros a s Hs Hbody; [done|].
  simpl. unfold m_bind.
  pose proof (Hbody a x s (list_elem_of_here _ _) Hs) as Hx.
  destruct (body a x s) as [s' [e|a']]; [done|].
  apply IH; [done|]. intros b y t Hy. apply Hbody. by apply list_elem_of_further.
Qed.

(** A loop that returns has run every iteration without raising; one
    that raises stopped in some iteration, with that exception. *)
Lemma for_each_raises {S X} (xs : list X) (body : X → M S unit) s s' e :
  for_each xs body s = (s', inl e) →
  ∃ x t, x ∈ xs ∧ (body x t).2 = inl e.
Proof.
  revert s. induction xs as [|x xs IH]; intros s; [done|].
  simpl. unfold m_bind. destruct (body x s) as [t [e'|[]]] eqn:Hx.
  - intros [= -> ->]. exists x, s. split; [left|]. by rewrite Hx.
  - intros H. destruct (IH _ H) as (y & u & Hy & Hu).
    exists y, u. split; [by right|done].
Qed.

(** ** Order on floats *)

Lemma float_ltb_leb (x y : float) :
  PrimFloat.ltb x y = true → PrimFloat.leb x y = true.
Proof.
  rewrite ltb_spec, leb_spec. unfold SFltb, SFleb.
  by destruct (SFcompare _ _) as [[]|].
Qed.

Lemma py_max_lower (x : float) : PrimFloat.leb 0 (py_max 0 x) = true.
Proof.
  unfold py_max. destruct (PrimFloat.ltb 0 x) eqn:H.
  - by apply float_ltb_leb.
  - reflexivity.
Qed.

Lemma py_min_upper (x : float) : PrimFloat.leb (py_min 1 x) 1 = true.
Proof.
  unfold py_min. destruct (PrimFloat.ltb x 1) eqn:H.
  - by apply float_ltb_leb.
  - reflexivity.
Qed.

(** ** The subplot factory *)

Lemma clamp_clamped d : clamped (clamp d).
Proof. split; [apply py_max_lower | apply py_min_upper]. Qed.

(** The three ways [_init_subplot] returns. *)
Lemma _init_subplot_inv layout t xd yd ids layout' ids' ref :
  _init_subplot layout t xd yd ids = inr (layout', ids', ref) →
  let ids0 := default _get_initial_max_subplot_ids ids in
  (∃ n m, t = VStr "xy" ∧ ids0 !! "xaxis" = Some n ∧ ids0 !! "yaxis" = Some m ∧
     layout' =
       <["yaxis" +:+ fmt (m + 1) :=
           Axis {| domain := clamp yd; anchor := "x" +:+ fmt (n + 1);
                   matches := None; showticklabels := None |}]>
       (<["xaxis" +:+ fmt (n + 1) :=
           Axis {| domain := clamp xd; anchor := "y" +:+ fmt (m + 1);
                   matches := None; showticklabels := None |}]> layout) ∧
     ids' = <["yaxis" := m + 1]> (<["xaxis" := n + 1]> ids0) ∧
     ref = {| subplot_type := "xy";
              layout_keys := ["xaxis" +:+ fmt (n + 1); "yaxis" +:+ fmt (m + 1)];
              trace_kwargs := <["yaxis" := KLabel ("y" +:+ fmt (m + 1))]>
                                {["xaxis" := KLabel ("x" +:+ fmt (n + 1))]};
              spec := None |}) ∨
  (∃ s n, t = VStr s ∧ s ∈ _subplot_types ∧ ids0 !! s = Some n ∧
     layout' = <[s +:+ fmt (n + 1) := Container (clamp xd) (clamp yd)]> layout ∧
     ids' = <["scene" := n + 1]> ids0 ∧
     ref = {| subplot_type := s;
              layout_keys := [s +:+ fmt (n + 1)];
              trace_kwargs :=
                {[(if bool_decide (s ∈ _subplot_prop_named_subplot)
                   then "subplot" else s) := KLabel (s +:+ fmt (n + 1))]};
              spec := None |}) ∨
  (t = VStr "domain" ∧ layout' = layout ∧ ids' = ids0 ∧
     ref = _init_subplot_domain (clamp xd) (clamp yd)).
Proof.
  intros H ids0. unfold _init_subplot in H. fold ids0 in H.
  destruct t as [| | | |s|]; try discriminate.
  repeat case_bool_decide; subst.
  - left. unfold _init_subplot_xy, counter in H. simpl in H.
    destruct (ids0 !! "xaxis") as [n|] eqn:Hn; [|discriminate].
    destruct (ids0 !! "yaxis") as [m|] eqn:Hm; [|discriminate].
    simpl in H. injection H as <- <- <-. by exists n, m.
  - right; left. unfold _init_subplot_single, counter in H. simpl in H.
    destruct (ids0 !! s) as [n|] eqn:Hn; [|discriminate].
    simpl in H. injection H as <- <- <-. by exists s, n.
  - right; right. by injection H as <- <- <-.
  - discriminate.
Qed.

Lemma _init_subplot_clamped layout t xd yd ids layout' ids' ref :
  _init_subplot layout t xd yd ids = inr (layout', ids', ref) →
  layout_clamped layout → layout_clamped layout'.
Proof.
  intros H Hl. apply _init_subplot_inv in H.
  destruct H as [(n & m & _ & _ & _ & -> & _)|[(s & n & _ & _ & _ & -> & _)|(_ & -> & _)]];
    [| |done].
  - repeat apply map_Forall_insert_2; [| |done];
      simpl; repeat constructor; apply clamp_clamped.
  - apply map_Forall_insert_2; [|done].
    simpl; repeat constructor; apply clamp_clamped.
Qed.

(** ** Scenarios *)

(** C6: [make_subplots(rows=2, cols=1)] creates exactly two xy subplots,
    bound by x1/y1 and x2/y2; the vertical spacing defaults to
    [0.3 / 2 = 0.15]; row 1, the top row, gets the y-domain [[0.575, 1.0]]
    and row 2 the y-domain [[0.0, 0.425]]. *)
Theorem scenario_two_stacked_rows :
  (vertical_spacing <$> validate_grid v4 (Args.grid 2 1)) = inr (0.3 / 2)%float ∧
  (0.3 / 2 = 0.15)%float ∧
  make_subplots v4 (Args.grid 2 1) empty_world =
    ({| dicts := [spec_with []; spec_with []];
        layouts := [ {[ "xaxis1" := new_axis (0, 1)%float "y1";
                        "yaxis1" := new_axis (0.575, 1.0)%float "x1";
                        "xaxis2" := new_axis (0, 1)%float "y2";
                        "yaxis2" := new_axis (0.0, 0.425)%float "x2" ]} ] |},
     inr {| fig_layout := 0;
            _grid_ref := [ [Some (xy_ref "1" "1" (Some 0%nat))];
                           [Some (xy_ref "2" "2" (Some 1%nat))] ] |}).
Proof.
  split; [|split].
  - vm_compute. reflexivity.
  - vm_compute. reflexivity.
  - vm_compute. reflexivity.
Qed.

(** C1, at a failing input: two polar cells in one row.  Both cells are
    given the identifier [polar1], and the layout keeps one entry, that of
    the second cell. *)
Theorem two_polar_cells_one_identifier :
  make_subplots v4
    (Args.make 1 2 (VBool false) (VBool false) (Some [[Some 0%nat; Some 1%nat]]) None)
    {| dicts := [ {["type" := VStr "polar"]}; {["type" := VStr "polar"]} ];
       layouts := [] |} =
    ({| dicts := [spec_with [("type", VStr "polar")];
                  spec_with [("type", VStr "polar")]];
        layouts := [ {[ "polar1" := Container (0.55, 1)%float (0, 1)%float ]} ] |},
     inr {| fig_layout := 0;
            _grid_ref := [ [Some (single_ref "polar" "subplot" "polar1" (Some 0%nat));
                            Some (single_ref "polar" "subplot" "polar1" (Some 1%nat))] ] |}).
Proof. vm_compute. reflexivity. Qed.

(** The counter of a single-container kind other than [scene] is read but
    never written: the new count goes to the [scene] counter. *)
Lemma _init_subplot_single_counter layout t xd yd ids layout' ids' ref :
  t ≠ "scene" →
  _init_subplot_single layout t xd yd (Some ids) = inr (layout', ids', ref) →
  ids' !! t = ids !! t ∧ ∃ n, ids !! t = Some n ∧ ids' !! "scene" = Some (n + 1).
Proof.
  intros Ht. unfold _init_subplot_single, counter. simpl.
  destruct (ids !! t) as [n|] eqn:Hn; [|done]. simpl.
  intros [= <- <- <-]. split.
  - by rewrite lookup_insert_ne.
  - exists n. split; [done|]. by rewrite lookup_insert_eq.
Qed.

(** C2, at a failing input: [shared_xaxes='columns'], the value the
    docstring and [_configure_shared_axes] use, is rejected. *)
Theorem shared_columns_is_rejected :
  (make_subplots v4 (Args.make 2 1 (VStr "columns") (VBool false) None None)
     empty_world).2 = inl (E_shared "shared_xaxes") ∧
  class_of (E_shared "shared_xaxes") = ValueError.
Proof. split; vm_compute; reflexivity. Qed.

(** ['cols'], which no branch of [_configure_shared_axes] tests for, is
    accepted and shares nothing. *)
Lemma shared_cols_is_accepted :
  make_subplots v4 (Args.make 2 1 (VStr "cols") (VBool false) None None) empty_world =
  make_subplots v4 (Args.grid 2 1) empty_world.
Proof. vm_compute. reflexivity. Qed.

(** ** Binding a trace *)

Lemma py_index_nonneg {A} (l : list A) (i : Z) :
  0 ≤ i → py_index l i = l !! Z.to_nat i.
Proof. intros. unfold py_index. by rewrite bool_decide_eq_true_2. Qed.

Lemma grid_cell_in_range {A} (grid_ref : list (list A)) (cols : nat) row col :
  rectangular cols grid_ref →
  1 ≤ row ≤ length grid_ref → 1 ≤ col ≤ cols →
  is_Some (grid_cell grid_ref row col).
Proof.
  intros Hrect Hrow Hcol. unfold grid_cell.
  destruct (lookup_lt_is_Some_2 grid_ref (Z.to_nat (row - 1))) as [r Hr]; [lia|].
  rewrite Hr. simpl. apply lookup_lt_is_Some_2.
  rewrite (proj1 (Forall_lookup _ _) Hrect _ _ Hr). lia.
Qed.

Lemma grid_cell_out_of_range {A} (grid_ref : list (list A)) (cols : nat) row col :
  rectangular cols grid_ref →
  1 ≤ row → 1 ≤ col → ¬ (row ≤ length grid_ref ∧ col ≤ cols) →
  grid_cell grid_ref row col = None.
Proof.
  intros Hrect Hrow Hcol Hout. unfold grid_cell.
  destruct (grid_ref !! Z.to_nat (row - 1)) as [r|] eqn:Hr; [|done].
  simpl. apply lookup_ge_None.
  rewrite (proj1 (Forall_lookup _ _) Hrect _ _ Hr).
  apply lookup_lt_Some in Hr. lia.
Qed.

(** C9: binding a trace to a cell.  On a table with [cols] cells per row,
    the call raises when [(row, col)] is outside the grid, when the cell is
    empty, and when the trace lacks a key of the cell's [trace_kwargs]; in
    these cases the trace is unchanged.  Otherwise it returns nothing and
    the trace carries every entry of [trace_kwargs]. *)
Theorem bind_trace (grid_ref : list (list (option ref_element))) (cols : nat)
    (row col : Z) (t : trace) :
  rectangular cols grid_ref →
  let out := _set_trace_grid_reference grid_ref row col t in
  (¬ (1 ≤ row ≤ length grid_ref ∧ 1 ≤ col ≤ cols) →
     ∃ e, out = (t, inl e) ∧ class_of e = Exception_) ∧
  (1 ≤ row ≤ length grid_ref → 1 ≤ col ≤ cols →
     match grid_cell grid_ref row col with
     | None => False
     | Some None => out = (t, inl E_bind_empty)
     | Some (Some ref) =>
         if bool_decide (dom (trace_kwargs ref) ⊆ valid_props t)
         then out = (trace_update (trace_kwargs ref) t, inr tt) ∧
              ∀ k v, trace_kwargs ref !! k = Some v → props out.1 !! k = Some v
         else out = (t, inl (E_bind_incompatible (trace_type t) (subplot_type ref)))
     end).
Proof.
  intros Hrect out. subst out. unfold _set_trace_grid_reference. split.
  - intros Hout.
    case_bool_decide as Hr; [by exists E_bind_row|].
    case_bool_decide as Hc; [by exists E_bind_col|].
    exists E_bind_pair. split; [|done].
    unfold m_bind, lift. rewrite !py_index_nonneg by lia.
    assert (grid_cell grid_ref row col = None) as Hnone.
    { apply (grid_cell_out_of_range _ cols); [done|lia|lia|lia]. }
    unfold grid_cell in Hnone.
    destruct (grid_ref !! Z.to_nat (row - 1)) as [r|]; simpl in *; [|done].
    rewrite py_index_nonneg by lia. by rewrite Hnone.
  - intros Hrow Hcol.
    rewrite !bool_decide_eq_false_2 by lia.
    destruct (grid_cell_in_range grid_ref cols row col) as [cell Hcell]; [done..|].
    rewrite Hcell. unfold grid_cell in Hcell.
    unfold m_bind, lift. rewrite py_index_nonneg by lia.
    destruct (grid_ref !! Z.to_nat (row - 1)) as [r|]; simpl in *; [|done].
    rewrite py_index_nonneg by lia. rewrite Hcell. simpl.
    destruct cell as [ref|]; [|done].
    unfold get, modify. case_bool_decide; [|done].
    split; [done|]. simpl. intros k v Hk.
    by apply lookup_union_Some_l.
Qed.

(** Scenario E: a pie trace, which has a [domain] but no [xaxis] or
    [yaxis], cannot be bound to an xy cell. *)
Lemma bind_trace_witness :
  rectangular 1 [[Some (xy_ref "1" "1" None)]] ∧
  _set_trace_grid_reference [[Some (xy_ref "1" "1" None)]] 1 1
    {| trace_type := "pie"; valid_props := {["domain"]}; props := ∅ |} =
  ({| trace_type := "pie"; valid_props := {["domain"]}; props := ∅ |},
   inl (E_bind_incompatible "pie" "xy")).
Proof.
  assert (rectangular 1 [[Some (xy_ref "1" "1" None)]]) as Hrect.
  { by repeat constructor. }
  split; [exact Hrect|].
  pose proof (bind_trace _ 1%nat 1 1
    {| trace_type := "pie"; valid_props := {["domain"]}; props := ∅ |} Hrect) as [_ H].
  simpl in H. apply H; lia.
Defined.

(** ** One iteration of the loops of [make_subplots] *)

(** How the body of the loop through specs ends on a cell with a spec:
    with an exception, before the layout, the counters or the table have
    been touched, or with the subplot created and recorded at [(r, c)]. *)
Lemma init_cell_inv ds g grid r c l st st' out :
  init_cell ds g grid (r, c, Some l) st = (st', out) →
  (∃ e, out = inl e ∧
     layout st' = layout st ∧ max_subplot_ids st' = max_subplot_ids st ∧
     grid_ref st' = grid_ref st ∧ insets_ref st' = insets_ref st ∧
     (cell_domains g grid r c (deref ds l) = inl e ∨
      ∃ xd yd, cell_domains g grid r c (deref ds l) = inr (xd, yd) ∧
        (field (deref ds l) "type" = inl e ∨
         ∃ t, field (deref ds l) "type" = inr t ∧
           _init_subplot (layout st) t xd yd (Some (max_subplot_ids st)) = inl e))) ∨
  (∃ xd yd t layout' ids' ref, out = inr tt ∧
     cell_domains g grid r c (deref ds l) = inr (xd, yd) ∧
     field (deref ds l) "type" = inr t ∧
     _init_subplot (layout st) t xd yd (Some (max_subplot_ids st)) =
       inr (layout', ids', ref) ∧
     layout st' = layout' ∧ max_subplot_ids st' = ids' ∧
     grid_ref st' = set_cell r c (Some (with_spec l ref)) (grid_ref st) ∧
     insets_ref st' = insets_ref st).
Proof.
  unfold init_cell, m_bind, lift, modify, get.
  destruct (cell_domains g grid r c (deref ds l)) as [e|[xd yd]] eqn:Hd.
  { intros [= <- <-]. left. exists e. eauto 10. }
  destruct (field (deref ds l) "type") as [e|t] eqn:Ht; simpl.
  { intros [= <- <-]. left. exists e. simpl. eauto 15. }
  destruct (_init_subplot _ _ _ _ _) as [e|[[layout' ids'] ref]] eqn:Hi.
  { intros [= <- <-]. left. exists e. simpl. eauto 15. }
  intros [= <- <-]. right. exists xd, yd, t, layout', ids', ref. simpl. eauto 10.
Qed.

Lemma init_cell_None ds g grid r c st :
  init_cell ds g grid (r, c, None) st = (st, inr tt).
Proof. reflexivity. Qed.

(** The same for the body of the loop through insets. *)
Lemma init_inset_inv ds g grid i l st st' out :
  init_inset ds g grid (i, l) st = (st', out) →
  (∃ e, out = inl e ∧
     layout st' = layout st ∧ max_subplot_ids st' = max_subplot_ids st ∧
     grid_ref st' = grid_ref st ∧ insets_ref st' = insets_ref st ∧
     (inset_domains g grid (deref ds l) = inl e ∨
      ∃ xd yd, inset_domains g grid (deref ds l) = inr (xd, yd) ∧
        (field (deref ds l) "type" = inl e ∨
         ∃ t, field (deref ds l) "type" = inr t ∧
           _init_subplot (layout st) t xd yd (Some (max_subplot_ids st)) = inl e))) ∨
  (∃ xd yd t layout' ids' ref, out = inr tt ∧
     inset_domains g grid (deref ds l) = inr (xd, yd) ∧
     field (deref ds l) "type" = inr t ∧
     _init_subplot (layout st) t xd yd (Some (max_subplot_ids st)) =
       inr (layout', ids', ref) ∧
     layout st' = layout' ∧ max_subplot_ids st' = ids' ∧
     grid_ref st' = grid_ref st ∧
     insets_ref st' = <[i := Some ref]> (insets_ref st)).
Proof.
  unfold init_inset, m_bind, lift, modify, get.
  destruct (inset_domains g grid (deref ds l)) as [e|[xd yd]] eqn:Hd.
  { intros [= <- <-]. left. exists e. eauto 10. }
  destruct (field (deref ds l) "type") as [e|t] eqn:Ht; simpl.
  { intros [= <- <-]. left. exists e. simpl. eauto 15. }
  destruct (_init_subplot _ _ _ _ _) as [e|[[layout' ids'] ref]] eqn:Hi.
  { intros [= <- <-]. left. exists e. simpl. eauto 15. }
  intros [= <- <-]. right. exists xd, yd, t, layout', ids', ref. simpl. eauto 10.
Qed.

(** How one call of [update_axis_matches] ends: the layout is unchanged,
    or the axis named by an eligible entry has been set to match. *)
Lemma update_axis_matches_inv ds x_or_y first ref remove_label layout layout' out :
  update_axis_matches ds x_or_y first ref remove_label layout = (layout', out) →
  layout' = layout ∨
  ∃ ref' l v k a id,
    ref = Some ref' ∧ subplot_type ref' = "xy" ∧ spec ref' = Some l ∧
    deref ds l !! span_key x_or_y = Some v ∧ py_eq v (VInt 1) = true ∧
    layout_keys ref' !! layout_key_ind x_or_y = Some k ∧
    layout !! k = Some (Axis a) ∧ first = Some id ∧ out = inr (Some id) ∧
    layout' = <[k := Axis (set_matches id remove_label a)]> layout.
Proof.
  unfold update_axis_matches, m_bind, lift, modify, get, m_ret, field.
  destruct ref as [ref'|]; [|intros [= <- _]; by left].
  destruct (spec ref') as [l|] eqn:Hl; simpl; [|intros [= <- _]; by left].
  destruct (deref ds l !! span_key x_or_y) as [v|] eqn:Hv; simpl;
    [|intros [= <- _]; by left].
  case_bool_decide as Hxy; simpl; [|intros [= <- _]; by left].
  destruct (py_eq v (VInt 1)) eqn:Hone; [|intros [= <- _]; by left].
  destruct first as [id|].
  - destruct (layout_keys ref' !! layout_key_ind x_or_y) as [k|] eqn:Hk; simpl;
      [|intros [= <- _]; by left].
    destruct (layout !! k) as [[a|x y]|] eqn:Ha; simpl;
      try (intros [= <- _]; by left).
    intros [= <- <-]. right. exists ref', l, v, k, a, id. eauto 15.
  - destruct (layout_keys ref' !! layout_key_ind x_or_y); simpl;
      intros [= <- _]; by left.
Qed.

(** ** What the shared-axis pass may do to a layout *)

Section linker.
Context (P : layout_t → Prop) (ds : list dict)
  (grid_ref : list (list (option ref_element))) (x_or_y : axis_letter).

(** [P] survives setting the axis of an eligible entry of the table. *)
Hypothesis P_set_matches : ∀ layout r c ref l v k a id remove_label,
  P layout →
  ref_at grid_ref r c = inr (Some ref) →
  subplot_type ref = "xy" → spec ref = Some l →
  deref ds l !! span_key x_or_y = Some v → py_eq v (VInt 1) = true →
  layout_keys ref !! layout_key_ind x_or_y = Some k →
  layout !! k = Some (Axis a) →
  P (<[k := Axis (set_matches id remove_label a)]> layout).

Lemma linker_step first r c remove_label layout :
  P layout →
  P ((do ref <- lift (ref_at grid_ref r c);
      update_axis_matches ds x_or_y first ref remove_label) layout).1.
Proof.
  intros HP. unfold m_bind, lift.
  destruct (ref_at grid_ref r c) as [e|ref] eqn:Href; [done|].
  destruct (update_axis_matches _ _ _ _ _ _) as [layout' out] eqn:Hu.
  apply update_axis_matches_inv in Hu
    as [->|(ref' & l & v & k & a & id & -> & ? & ? & ? & ? & ? & ? & _ & _ & ->)];
    [done|].
  simpl. eapply P_set_matches; eauto.
Qed.

Lemma _configure_shared_axes_inv shared row_dir layout :
  P layout →
  P (_configure_shared_axes ds grid_ref x_or_y shared row_dir layout).1.
Proof.
  intros HP. unfold _configure_shared_axes.
  unfold m_bind at 1. unfold lift at 1.
  destruct (ncols grid_ref) as [e|cols]; [done|].
  destruct (py_eq shared (VStr "columns") || _);
    [|destruct (py_eq shared (VStr "rows") || _);
      [|destruct (py_eq shared (VStr "all")); [|done]]].
  - apply for_each_state; [done|]. intros c s _ Hs.
    unfold m_bind at 1.
    match goal with |- context [for_fold ?xs ?a ?body s] =>
      pose proof (for_fold_state P xs a body s Hs) as Hf;
      destruct (for_fold xs a body s) as [s' [e|o]] end;
      simpl in Hf |- *; apply Hf; intros; by apply linker_step.
  - apply for_each_state; [done|]. intros r s _ Hs.
    unfold m_bind at 1.
    match goal with |- context [for_fold ?xs ?a ?body s] =>
      pose proof (for_fold_state P xs a body s Hs) as Hf;
      destruct (for_fold xs a body s) as [s' [e|o]] end;
      simpl in Hf |- *; apply Hf; intros; by apply linker_step.
  - unfold m_bind at 1.
    match goal with |- context [for_fold ?xs ?a ?body layout] =>
      pose proof (for_fold_state P xs a body layout HP) as Hf;
      destruct (for_fold xs a body layout) as [s' [e|o]] end;
      simpl in Hf |- *; apply Hf; intros first c s _ Hs;
      (apply for_fold_state; [done|]); intros first' [ri r] s2 _ Hs2;
      by apply linker_step.
Qed.

End linker.

(** ** An induction principle for the construction of a figure *)

Section build_invariant.
Context (P : layout_t → gmap string Z → list (list (option ref_element)) →
             list (option ref_element) → Prop).
Context (ds : list dict) (g : geometry) (specs : list (list (option loc)))
  (insets : list loc).

(** [P] survives the creation of the subplot of a grid cell, *)
Hypothesis P_cell : ∀ layout ids gr ir t xd yd layout' ids' ref r c l,
  P layout ids gr ir →
  (r, c, Some l) ∈ cells specs →
  cell_domains g (grid_of g) r c (deref ds l) = inr (xd, yd) →
  field (deref ds l) "type" = inr t →
  _init_subplot layout t xd yd (Some ids) = inr (layout', ids', ref) →
  P layout' ids' (set_cell r c (Some (with_spec l ref)) gr) ir.

(** the creation of the subplot of an inset, *)
Hypothesis P_inset : ∀ layout ids gr ir t xd yd layout' ids' ref i l,
  P layout ids gr ir →
  insets !! i = Some l →
  field (deref ds l) "type" = inr t →
  _init_subplot layout t xd yd (Some ids) = inr (layout', ids', ref) →
  P layout' ids' gr (<[i := Some ref]> ir).

(** and an axis being set to match another one. *)
Hypothesis P_matches : ∀ layout ids gr ir k a id remove_label,
  P layout ids gr ir →
  layout !! k = Some (Axis a) →
  P (<[k := Axis (set_matches id remove_label a)]> layout) ids gr ir.

Let holds (st : build_state) : Prop :=
  P (layout st) (max_subplot_ids st) (grid_ref st) (insets_ref st).

Lemma cells_loop_inv st :
  holds st → holds (for_each (cells specs) (init_cell ds g (grid_of g)) st).1.
Proof.
  intros Hst. apply for_each_state; [done|].
  intros [[r c] [l|]] s Hin Hs; [|done].
  destruct (init_cell ds g (grid_of g) (r, c, Some l) s) as [s' out] eqn:Hc.
  apply init_cell_inv in Hc
    as [(e & _ & Hl & Hi & Hg & Hr & _)
       |(xd & yd & t & layout' & ids' & ref & _ & Hd & Ht & Hinit & Hl & Hi & Hg & Hr)];
    unfold holds; simpl; rewrite Hl, Hi, Hg, Hr; [done|].
  eapply P_cell; eauto.
Qed.

Lemma insets_loop_inv st :
  holds st → holds (for_each (imap pair insets) (init_inset ds g (grid_of g)) st).1.
Proof.
  intros Hst. apply for_each_state; [done|].
  intros [i l] s Hin Hs.
  apply list_elem_of_lookup in Hin as [j Hj].
  rewrite list_lookup_imap in Hj.
  destruct (insets !! j) as [l'|] eqn:Hl'; [|done]. injection Hj as <- <-.
  destruct (init_inset ds g (grid_of g) (j, l') s) as [s' out] eqn:Hc.
  apply init_inset_inv in Hc
    as [(e & _ & Hl & Hi & Hg & Hr & _)
       |(xd & yd & t & layout' & ids' & ref & _ & Hd & Ht & Hinit & Hl & Hi & Hg & Hr)];
    unfold holds; simpl; rewrite Hl, Hi, Hg, Hr; [done|].
  eapply P_inset; eauto.
Qed.

Lemma on_layout_linker_inv gr x_or_y shared row_dir st :
  holds st →
  holds (on_layout (_configure_shared_axes ds gr x_or_y shared row_dir) st).1.
Proof.
  intros Hst. unfold on_layout.
  pose proof (_configure_shared_axes_inv
    (λ layout, P layout (max_subplot_ids st) (grid_ref st) (insets_ref st))
    ds gr x_or_y) as Hl.
  destruct (_configure_shared_axes ds gr x_or_y shared row_dir (layout st))
    as [layout' out] eqn:Hc.
  unfold holds. simpl.
  specialize (Hl ltac:(intros; by eapply P_matches) shared row_dir (layout st) Hst).
  by rewrite Hc in Hl.
Qed.

(** The state [build] ends in, with or without an exception. *)
Lemma build_inv shared_xaxes shared_yaxes st :
  holds st →
  holds (build ds g specs insets shared_xaxes shared_yaxes st).1.
Proof.
  intros Hst. unfold build.
  unfold m_bind at 1.
  pose proof (cells_loop_inv st Hst) as H1.
  destruct (for_each (cells specs) _ st) as [s1 [e|[]]]; [done|]. simpl in H1.
  unfold m_bind at 1. unfold get at 1.
  unfold m_bind at 1.
  pose proof (on_layout_linker_inv (grid_ref s1) X shared_xaxes (row_dir g) s1 H1) as H2.
  destruct (on_layout _ s1) as [s2 [e|[]]]; [done|]. simpl in H2.
  unfold m_bind at 1.
  pose proof (on_layout_linker_inv (grid_ref s1) Y shared_yaxes (row_dir g) s2 H2) as H3.
  destruct (on_layout _ s2) as [s3 [e|[]]]; [done|]. simpl in H3.
  unfold m_bind at 1.
  pose proof (insets_loop_inv s3 H3) as H4.
  destruct (for_each (imap pair insets) _ s3) as [s4 [e|[]]]; [done|]. simpl in H4.
  unfold m_bind, get, lift. done.
Qed.

End build_invariant.

(** ** The phases of [make_subplots] *)

Lemma make_subplots_inv flags a w w' out :
  make_subplots flags a w = (w', out) →
  (∃ e, validate_grid flags a = inl e ∧ out = inl e ∧ w' = w) ∨
  (∃ g ds e, validate_grid flags a = inr g ∧
     normalize g a (dicts w) = (ds, inl e) ∧ out = inl e ∧
     w' = {| dicts := ds; layouts := layouts w |}) ∨
  (∃ g ds specs insets st r, validate_grid flags a = inr g ∧
     normalize g a (dicts w) = (ds, inr (specs, insets)) ∧
     build ds g specs insets (Args.shared_xaxes a) (Args.shared_yaxes a)
       (initial_state g insets) = (st, r) ∧
     w' = {| dicts := ds; layouts := (layouts w ++ [layout st])%list |} ∧
     out = match r with
           | inl e => inl e
           | inr _ => inr {| fig_layout := length (layouts w);
                             _grid_ref := grid_ref st |}
           end).
Proof.
  unfold make_subplots.
  destruct (validate_grid flags a) as [e|g]; [intros [= <- <-]; left; eauto|].
  destruct (normalize g a (dicts w)) as [ds [e|[specs insets]]] eqn:Hn.
  { intros [= <- <-]. right; left. eauto 10. }
  destruct (build _ _ _ _ _ _ _) as [st r] eqn:Hb.
  intros H. right; right. exists g, ds, specs, insets, st, r.
  destruct r; injection H as <- <-; eauto 10.
Qed.

(** When the call returns a figure, the figure's layout is the layout
    [build] ended with, and its table is the table [build] ended with. *)
Lemma make_subplots_returns flags a w w' fig :
  make_subplots flags a w = (w', inr fig) →
  ∃ g ds specs insets st,
    validate_grid flags a = inr g ∧
    normalize g a (dicts w) = (ds, inr (specs, insets)) ∧
    build ds g specs insets (Args.shared_xaxes a) (Args.shared_yaxes a)
      (initial_state g insets) = (st, inr tt) ∧
    dicts w' = ds ∧
    layouts w' !! fig_layout fig = Some (layout st) ∧
    _grid_ref fig = grid_ref st.
Proof.
  intros H. apply make_subplots_inv in H
    as [(e & _ & ? & _)|[(g & ds & e & _ & _ & ? & _)
       |(g & ds & specs & insets & st & r & Hv & Hn & Hb & -> & Hout)]];
    [done|done|].
  destruct r as [e|[]]; [done|]. injection Hout as ->.
  exists g, ds, specs, insets, st. simpl.
  repeat split; try done.
  rewrite lookup_app_r by done. by rewrite Nat.sub_diag.
Qed.

(** ** Clamping of domains *)

(** Every layout key [_init_subplot] reports is registered, with domains
    that start at 0 or above and end at 1 or below; so does the domain a
    [domain] subplot hands to its traces. *)
Theorem _init_subplot_registers_clamped layout t xd yd ids layout' ids' ref :
  _init_subplot layout t xd yd ids = inr (layout', ids', ref) →
  (∀ k, k ∈ layout_keys ref →
     ∃ o, layout' !! k = Some o ∧ Forall clamped (obj_domains o)) ∧
  (∀ x y, trace_kwargs ref !! "domain" = Some (KDomain x y) →
     clamped x ∧ clamped y).
Proof.
  intros H. apply _init_subplot_inv in H.
  destruct H as [(n & m & _ & _ & _ & -> & _ & ->)
                |[(s & n & _ & Hs & _ & -> & _ & ->)|(_ & -> & _ & ->)]]; simpl.
  - split.
    + intros k Hk. apply elem_of_cons in Hk as [->|Hk].
      * rewrite lookup_insert_ne by done. rewrite lookup_insert_eq.
        eexists; split; [done|]. repeat constructor; apply clamp_clamped.
      * apply list_elem_of_singleton in Hk as ->. rewrite lookup_insert_eq.
        eexists; split; [done|]. repeat constructor; apply clamp_clamped.
    + intros x y Hd. rewrite lookup_insert_ne in Hd by done.
      by rewrite lookup_singleton_ne in Hd.
  - split.
    + intros k Hk. apply list_elem_of_singleton in Hk as ->.
      rewrite lookup_insert_eq.
      eexists; split; [done|]. repeat constructor; apply clamp_clamped.
    + intros x y Hd. apply lookup_singleton_Some in Hd as [_ [=]].
  - split.
    + intros k Hk. by apply not_elem_of_nil in Hk.
    + intros x y Hd. rewrite lookup_singleton_eq in Hd.
      injection Hd as <- <-. split; apply clamp_clamped.
Qed.

Lemma _init_subplot_registers_clamped_witness :
  ∃ o, (<["polar1" := Container (clamp (-0.5, 1.5)%float) (clamp (0.25, 2)%float)]>
          (∅ : layout_t)) !! "polar1" = Some o ∧
       Forall clamped (obj_domains o).
Proof.
  refine (proj1 (_init_subplot_registers_clamped ∅ (VStr "polar")
    (-0.5, 1.5)%float (0.25, 2)%float None _ _ _ _) "polar1" _).
  - vm_compute. reflexivity.
  - simpl. by left.
Defined.

(** In every figure [make_subplots] returns, every axis and subplot entry
    of the layout has domains that start at 0 or above and end at 1 or
    below. *)
Theorem figure_domains_clamped flags a w w' fig layout k o :
  make_subplots flags a w = (w', inr fig) →
  layouts w' !! fig_layout fig = Some layout →
  layout !! k = Some o →
  Forall clamped (obj_domains o).
Proof.
  intros H Hl Hk.
  apply make_subplots_returns in H
    as (g & ds & specs & insets & st & _ & _ & Hb & _ & Hl' & _).
  rewrite Hl' in Hl. injection Hl as <-.
  pose proof (build_inv (λ layout _ _ _, layout_clamped layout)
    ds g specs insets) as Hinv.
  simpl in Hinv. replace st with (build ds g specs insets (Args.shared_xaxes a)
    (Args.shared_yaxes a) (initial_state g insets)).1 in Hk by (by rewrite Hb).
  refine (Hinv _ _ _ _ _ (initial_state g insets) _ k o Hk).
  - intros. by eapply _init_subplot_clamped.
  - intros. by eapply _init_subplot_clamped.
  - intros layout0 _ _ _ k0 a0 id rl Hc Ha.
    apply map_Forall_insert_2; [|done].
    apply (Hc k0 _ Ha).
  - apply map_Forall_empty.
Qed.

Lemma figure_domains_clamped_witness :
  Forall clamped (obj_domains (new_axis (0.575, 1.0)%float "x1")).
Proof.
  apply (figure_domains_clamped v4 (Args.grid 2 1) empty_world
           two_rows_world two_rows_figure two_rows_layout "yaxis1").
  - vm_compute. reflexivity.
  - reflexivity.
  - vm_compute. reflexivity.
Defined.

(** ** What the shared-axis pass changes *)

(** An entry of the layout that [_configure_shared_axes] has changed is
    the x-axis (for ['x']) or the y-axis (for ['y']) of an xy entry of the
    table whose [colspan] (for ['x']) or [rowspan] (for ['y']) equals 1.
    This holds of the layout the pass leaves behind whether it returns or
    raises. *)
Theorem linker_changes_only_unit_span_axes ds grid_ref x_or_y shared row_dir
    layout k :
  (_configure_shared_axes ds grid_ref x_or_y shared row_dir layout).1 !! k ≠
    layout !! k →
  ∃ r c ref l v,
    ref_at grid_ref r c = inr (Some ref) ∧
    subplot_type ref = "xy" ∧ spec ref = Some l ∧
    deref ds l !! span_key x_or_y = Some v ∧ py_eq v (VInt 1) = true ∧
    layout_keys ref !! layout_key_ind x_or_y = Some k.
Proof.
  revert k. apply (_configure_shared_axes_inv (λ cur, ∀ k,
    cur !! k ≠ layout !! k → ∃ r c ref l v,
      ref_at grid_ref r c = inr (Some ref) ∧
      subplot_type ref = "xy" ∧ spec ref = Some l ∧
      deref ds l !! span_key x_or_y = Some v ∧ py_eq v (VInt 1) = true ∧
      layout_keys ref !! layout_key_ind x_or_y = Some k)); [|done].
  intros cur r c ref l v k0 a id rl Hcur Href Hxy Hspec Hv Hone Hk0 _ k Hk.
  destruct (decide (k = k0)) as [->|Hne].
  - exists r, c, ref, l, v. eauto 10.
  - rewrite lookup_insert_ne in Hk by done. by apply Hcur.
Qed.

(** The pass neither adds nor removes an entry of the layout, leaves every
    subplot container as it is, and keeps the domain and the anchor of
    every axis: only [matches] and [showticklabels] are ever set. *)
Theorem linker_keeps_domains_and_anchors ds grid_ref x_or_y shared row_dir
    layout k :
  match layout !! k,
        (_configure_shared_axes ds grid_ref x_or_y shared row_dir layout).1 !! k with
  | Some (Axis a), Some (Axis a') => domain a' = domain a ∧ anchor a' = anchor a
  | Some (Container x y), Some o' => o' = Container x y
  | None, None => True
  | _, _ => False
  end.
Proof.
  revert k. apply (_configure_shared_axes_inv (λ cur, ∀ k,
    match layout !! k, cur !! k with
    | Some (Axis a), Some (Axis a') => domain a' = domain a ∧ anchor a' = anchor a
    | Some (Container x y), Some o' => o' = Container x y
    | None, None => True
    | _, _ => False
    end)).
  - intros cur r c ref l v k0 a id rl Hcur _ _ _ _ _ _ Ha k.
    destruct (decide (k = k0)) as [->|Hne].
    + rewrite lookup_insert_eq. specialize (Hcur k0). rewrite Ha in Hcur.
      destruct (layout !! k0) as [[a0|x y]|]; [done|done|done].
    + rewrite lookup_insert_ne by done. apply Hcur.
  - intros k. by destruct (layout !! k) as [[a|x y]|].
Qed.

Lemma linker_changes_only_unit_span_axes_witness :
  ∃ r c ref l v,
    ref_at (_grid_ref two_rows_figure) r c = inr (Some ref) ∧
    subplot_type ref = "xy" ∧ spec ref = Some l ∧
    deref (dicts two_rows_world) l !! span_key X = Some v ∧
    py_eq v (VInt 1) = true ∧
    layout_keys ref !! layout_key_ind X = Some "xaxis1".
Proof.
  apply (linker_changes_only_unit_span_axes (dicts two_rows_world)
           (_grid_ref two_rows_figure) X (VBool true) (-1) two_rows_layout).
  vm_compute. discriminate.
Defined.

(** ** Loops that establish a fact for each element *)

(** If every iteration keeps the invariant [I], establishes [Q x] for its
    own element [x] when it returns, and keeps the [Q y] established
    before, then a loop that returns has established [Q] for every
    element. *)
Lemma for_each_post {S X} (I : S → Prop) (Q : X → S → Prop) (xs : list X)
    (body : X → M S unit) s s' :
  (∀ x s, x ∈ xs → I s → I (body x s).1) →
  (∀ x s, x ∈ xs → I s → (body x s).2 = inr tt → Q x (body x s).1) →
  (∀ x y s, x ∈ xs → y ∈ xs → I s → Q y s → Q y (body x s).1) →
  I s →
  for_each xs body s = (s', inr tt) →
  I s' ∧ ∀ x, x ∈ xs → Q x s'.
Proof.
  intros HI HQ Hstable.
  assert (∀ ys s s', (∀ y, y ∈ ys → y ∈ xs) → I s →
    for_each ys body s = (s', inr tt) →
    I s' ∧ (∀ y, y ∈ xs → Q y s → Q y s') ∧ ∀ y, y ∈ ys → Q y s') as Hgen.
  { clear s s'. induction ys as [|y ys IH]; intros s s' Hsub Hs.
    - intros [= <-]. split; [done|]. split; [done|]. intros y Hy.
      by apply not_elem_of_nil in Hy.
    - simpl. unfold m_bind.
      assert (y ∈ xs) as Hy by (apply Hsub; left).
      pose proof (HI y s Hy Hs) as HI1. pose proof (HQ y s Hy Hs) as HQ1.
      pose proof (λ z, Hstable y z s Hy) as Hst1.
      destruct (body y s) as [s1 [e|[]]]; [done|]. simpl in *.
      intros Hrest.
      destruct (IH s1 s' (λ z Hz, Hsub z (list_elem_of_further _ _ _ Hz)) HI1 Hrest)
        as (HI' & Hkeep & Hall).
      split; [done|]. split.
      + intros z Hz Hq. apply Hkeep; [done|]. by apply Hst1.
      + intros z Hz. apply elem_of_cons in Hz as [->|Hz]; [|by apply Hall].
        apply Hkeep; [done|]. by apply HQ1. }
  intros Hs Hrun. destruct (Hgen xs s s' (λ _ H, H) Hs Hrun) as (? & _ & ?).
  done.
Qed.

Lemma for_each_raises_inv {S X} (I : S → Prop) (xs : list X)
    (body : X → M S unit) s s' e :
  I s →
  (∀ x s, x ∈ xs → I s → I (body x s).1) →
  for_each xs body s = (s', inl e) →
  ∃ x t, x ∈ xs ∧ I t ∧ body x t = (s', inl e).
Proof.
  revert s. induction xs as [|x xs IH]; intros s Hs HI; [done|].
  simpl. unfold m_bind. destruct (body x s) as [t [e'|[]]] eqn:Hx.
  - intros [= -> ->]. exists x, s. split; [left|]. done.
  - intros H. pose proof (HI x s (list_elem_of_here _ _) Hs) as Ht.
    rewrite Hx in Ht.
    destruct (IH t Ht (λ y u Hy, HI y u (list_elem_of_further _ _ _ Hy)) H)
      as (y & u & Hy & Hu & Hbody).
    exists y, u. split; [by right|done].
Qed.

Lemma for_each_ext {S X} (xs : list X) (body body' : X → M S unit) s :
  (∀ x s, body x s = body' x s) → for_each xs body s = for_each xs body' s.
Proof.
  intros Hext. revert s. induction xs as [|x xs IH]; intros s; [done|].
  simpl. unfold m_bind. rewrite Hext. destruct (body' x s) as [t [e|[]]]; [done|].
  apply IH.
Qed.

Lemma for_each_app {S X} (xs ys : list X) (body : X → M S unit) s :
  for_each (xs ++ ys) body s = (run for_each xs body; for_each ys body) s.
Proof.
  revert s. induction xs as [|x xs IH]; intros s; [done|].
  simpl. unfold m_bind. destruct (body x s) as [t [e|[]]]; [done|].
  rewrite IH. by unfold m_bind.
Qed.

(** Two nested loops visit the elements in the order of the flattened
    list. *)
Lemma for_each_concat {S X} (xss : list (list X)) (body : X → M S unit) s :
  for_each xss (λ xs, for_each xs body) s = for_each (concat xss) body s.
Proof.
  revert s. induction xss as [|xs xss IH]; intros s; [done|].
  simpl. rewrite for_each_app. unfold m_bind.
  destruct (for_each xs body s) as [t [e|[]]]; [done|]. apply IH.
Qed.

Lemma for_each_fmap {S X Y} (f : X → Y) (xs : list X) (body : Y → M S unit) s :
  for_each (f <$> xs) body s = for_each xs (λ x, body (f x)) s.
Proof.
  revert s. induction xs as [|x xs IH]; intros s; [done|].
  simpl. unfold m_bind. destruct (body (f x) s) as [t [e|[]]]; [done|]. apply IH.
Qed.

(** ** In-place updates of dictionaries *)

Lemma deref_insert ds l l' d :
  deref (<[l := d]> ds) l' =
  if bool_decide (l = l' ∧ (l < length ds)%nat) then d else deref ds l'.
Proof.
  unfold deref. case_bool_decide as H.
  - destruct H as [-> H]. by rewrite list_lookup_insert_eq.
  - destruct (decide (l = l')) as [->|Hne].
    + rewrite list_insert_ge; [done|]. apply Nat.nlt_ge. naive_solver.
    + by rewrite list_lookup_insert_ne.
Qed.

Lemma deref_lookup ds l d : ds !! l = Some d → deref ds l = d.
Proof. unfold deref. by intros ->. Qed.

Section update_at.
Context (f : dict → dict) (ok : dict → bool) (e : error).
Context (items : list (option loc)) (ds : list dict).

Hypothesis f_idemp : ∀ d, f (f d) = f d.
Hypothesis ok_f : ∀ d, ok (f d) = ok d.

(** At any time, each dictionary is the initial one, or [f] of it. *)
Let inv (s : list dict) : Prop :=
  length s = length ds ∧
  ∀ l, s !! l = ds !! l ∨ (Some l ∈ items ∧ s !! l = f <$> ds !! l).

Lemma update_value (s : list dict) l d :
  s !! l = Some d →
  s !! l = ds !! l ∨ (Some l ∈ items ∧ s !! l = f <$> ds !! l) →
  Some (f d) = f <$> ds !! l.
Proof.
  intros Hd [H|[_ H]]; rewrite Hd in H; destruct (ds !! l) as [d0|];
    simplify_eq/=; [done|by rewrite f_idemp].
Qed.

Lemma update_at_inv item s :
  item ∈ items → inv s → inv (update_at f ok e item s).1.
Proof.
  intros Hin [Hlen Hs]. unfold update_at.
  destruct item as [l|]; [|done].
  destruct (ok (deref s l)); [|done]. simpl. split.
  - by rewrite length_insert.
  - intros l'. destruct (decide (l = l')) as [<-|Hne].
    + destruct (s !! l) as [d|] eqn:Hd.
      * rewrite list_lookup_insert_eq by (by eapply lookup_lt_Some).
        right. split; [done|]. rewrite (deref_lookup _ _ _ Hd).
        exact (update_value s l d Hd (Hs l)).
      * rewrite list_insert_ge by (by apply lookup_ge_None).
        rewrite Hd. left. destruct (Hs l) as [H|[_ H]]; rewrite Hd in H; [done|].
        by destruct (ds !! l).
    + rewrite list_lookup_insert_ne by done. apply Hs.
Qed.

Lemma inv_ok s l : inv s → ok (deref s l) = ok (deref ds l).
Proof.
  intros [_ Hs]. unfold deref.
  destruct (Hs l) as [->|[_ ->]]; [done|].
  destruct (ds !! l); simpl; [apply ok_f|done].
Qed.

(** The dictionaries that are not in the list are never touched, and no
    dictionary is created or dropped. *)
Lemma update_loop_frame :
  let s' := (for_each items (update_at f ok e) ds).1 in
  length s' = length ds ∧ ∀ l, Some l ∉ items → s' !! l = ds !! l.
Proof.
  assert (inv (for_each items (update_at f ok e) ds).1) as [Hlen Hs].
  { apply for_each_state.
    - split; [done|]. by left.
    - intros. by apply update_at_inv. }
  split; [done|]. intros l Hl. destruct (Hs l) as [H|[H _]]; done.
Qed.

(** A loop that returns has replaced each listed dictionary by [f] of
    it, and each of them passed the check. *)
Lemma update_loop_returns s' :
  for_each items (update_at f ok e) ds = (s', inr tt) →
  ∀ l, Some l ∈ items →
    s' !! l = f <$> ds !! l ∧ ok (deref ds l) = true.
Proof.
  intros Hrun.
  destruct (for_each_post inv
    (λ item s, ∀ l, item = Some l →
       s !! l = f <$> ds !! l ∧ ok (deref ds l) = true)
    items (update_at f ok e) ds s') as [_ H]; try done.
  - intros. by apply update_at_inv.
  - intros item s Hin Hinv Hret l ->. unfold update_at in *.
    rewrite <- (inv_ok s l Hinv).
    destruct (ok (deref s l)) eqn:Hok; [|done]. split; [|done]. simpl.
    destruct Hinv as [Hlen Hs].
    destruct (s !! l) as [d|] eqn:Hd.
    + rewrite list_lookup_insert_eq by (by eapply lookup_lt_Some).
      rewrite (deref_lookup _ _ _ Hd). exact (update_value s l d Hd (Hs l)).
    + rewrite list_insert_ge by (by apply lookup_ge_None). rewrite Hd.
      destruct (Hs l) as [H|[_ H]]; rewrite Hd in H; rewrite <- H; [|done].
      by destruct (ds !! l).
  - intros x y s Hx Hy Hinv Hq l ->. destruct (Hq l eq_refl) as [Hl Hok].
    split; [|done]. unfold update_at.
    destruct x as [l'|]; [|done].
    destruct (ok (deref s l')); [|done]. simpl.
    destruct (decide (l' = l)) as [->|Hne].
    + destruct (s !! l) as [d|] eqn:Hd.
      * rewrite list_lookup_insert_eq by (by eapply lookup_lt_Some).
        rewrite (deref_lookup _ _ _ Hd).
        apply (update_value s l d Hd). right. split; [done|]. by rewrite Hd.
      * rewrite list_insert_ge by (by apply lookup_ge_None). by rewrite Hd.
    + by rewrite list_lookup_insert_ne.
  - split; [done|]. by left.
  - intros l Hl. by apply (H (Some l)).
Qed.

(** A loop that raises met a listed dictionary that fails the check. *)
Lemma update_loop_raises s' e' :
  for_each items (update_at f ok e) ds = (s', inl e') →
  e' = e ∧ ∃ l, Some l ∈ items ∧ ok (deref ds l) = false.
Proof.
  intros Hrun.
  destruct (for_each_raises_inv inv items (update_at f ok e) ds s' e')
    as (item & t & Hin & Hinv & Hbody); try done.
  - split; [done|]. by left.
  - intros. by apply update_at_inv.
  - unfold update_at in Hbody. destruct item as [l|]; [|done].
    destruct (ok (deref t l)) eqn:Hok; [done|]. injection Hbody as _ <-.
    split; [done|]. exists l. split; [done|]. by rewrite <- (inv_ok t l Hinv).
Qed.

End update_at.

(** ** Normalisation of dictionaries, as in-place updates *)

Lemma insert_deref_id ds l : <[l := deref ds l]> ds = ds.
Proof.
  unfold deref. destruct (ds !! l) as [d|] eqn:Hd; simpl.
  - by apply list_insert_id.
  - apply list_insert_ge. by apply lookup_ge_None.
Qed.

Lemma convert_is_3d_update item ds :
  convert_is_3d item ds = update_at converted (λ _, true) E_type item ds.
Proof.
  unfold convert_is_3d, update_at, modify, converted.
  destruct item as [l|]; [|done]. f_equal.
  case_bool_decide as Hsize.
  - apply map_size_empty_inv in Hsize. rewrite Hsize, lookup_empty.
    rewrite <- Hsize. by rewrite insert_deref_id.
  - destruct (deref ds l !! "is_3d") as [v|]; [done|].
    by rewrite insert_deref_id.
Qed.

Lemma _checks_update name defaults item ds :
  _checks name defaults item ds =
  update_at (filled defaults) (keys_ok defaults) (E_invalid_key name) item ds.
Proof. reflexivity. Qed.

Lemma converted_no_is_3d d : converted d !! "is_3d" = None.
Proof.
  unfold converted. destruct (d !! "is_3d") as [v|] eqn:Hv; [|done].
  destruct (truthy v).
  - rewrite lookup_insert_ne by done. apply lookup_delete_eq.
  - apply lookup_delete_eq.
Qed.

Lemma converted_idemp d : converted (converted d) = converted d.
Proof. unfold converted at 1. by rewrite converted_no_is_3d. Qed.

(** [setdefault] never overwrites: the dictionary keeps its entries and
    takes the defaults for the keys it lacks. *)
Lemma filled_union defaults d : filled defaults d = d ∪ list_to_map defaults.
Proof.
  unfold filled. revert d. induction defaults as [|[k v] defaults IH]; intros d.
  - simpl. by rewrite (right_id_L ∅ (∪)).
  - simpl. rewrite IH. unfold setdefault. simpl. apply map_eq. intros i.
    rewrite !lookup_union.
    destruct (decide (k = i)) as [->|Hne].
    + rewrite lookup_insert_eq. destruct (d !! i) as [x|] eqn:Hd.
      * rewrite Hd. simpl. by destruct (list_to_map defaults !! i).
      * rewrite lookup_insert_eq. simpl.
        by destruct (list_to_map defaults !! i).
    + rewrite lookup_insert_ne by done.
      destruct (d !! k); [done|]. by rewrite lookup_insert_ne.
Qed.

Lemma filled_idemp defaults d : filled defaults (filled defaults d) = filled defaults d.
Proof.
  rewrite !filled_union. rewrite <- (assoc_L (∪)). by rewrite (idemp_L (∪)).
Qed.

Lemma filled_dom defaults d :
  dom (filled defaults d) = dom d ∪ keys_of defaults.
Proof.
  rewrite filled_union, dom_union_L. unfold keys_of.
  by rewrite dom_list_to_map_L.
Qed.

Lemma keys_ok_filled defaults d :
  keys_ok defaults (filled defaults d) = keys_ok defaults d.
Proof.
  unfold keys_ok. rewrite filled_dom. unfold keys_of.
  apply bool_decide_ext. set_solver.
Qed.

(** With a [specs] argument of the right shape, normalisation is two
    passes of in-place updates over the cells, row by row. *)
Lemma normalize_specs_given g specs ds :
  specs_shape_ok g specs = true →
  normalize_specs g (Some specs) ds =
  (run for_each (concat specs) (update_at converted (λ _, true) E_type);
   run for_each (concat specs)
         (update_at (filled spec_defaults) (keys_ok spec_defaults)
            (E_invalid_key "specs"));
   m_ret specs) ds.
Proof.
  intros Hshape. unfold normalize_specs, specs_shape_ok in *. rewrite Hshape.
  unfold m_bind at 1. unfold m_ret at 1.
  unfold m_bind at 1 3.
  rewrite for_each_concat.
  rewrite (for_each_ext _ convert_is_3d (update_at converted (λ _, true) E_type))
    by apply convert_is_3d_update.
  destruct (for_each _ _ ds) as [ds1 [e|[]]]; [done|].
  unfold m_bind. unfold _check_keys_and_fill.
  rewrite for_each_fmap. rewrite for_each_concat. done.
Qed.

Lemma normalize_specs_bad_shape g specs ds :
  specs_shape_ok g specs = false →
  normalize_specs g (Some specs) ds = (ds, inl E_specs_shape).
Proof.
  intros Hshape. unfold normalize_specs, specs_shape_ok in *. by rewrite Hshape.
Qed.

Lemma converted_lookup_ne d k :
  k ≠ "type" → k ≠ "is_3d" → converted d !! k = d !! k.
Proof.
  intros Ht Hi. unfold converted. destruct (d !! "is_3d") as [v|]; [|done].
  destruct (truthy v).
  - rewrite lookup_insert_ne by done. by rewrite lookup_delete_ne.
  - by rewrite lookup_delete_ne.
Qed.

Lemma converted_type d :
  converted d !! "type" =
  match d !! "is_3d" with
  | Some v => if truthy v then Some (VStr "scene") else d !! "type"
  | None => d !! "type"
  end.
Proof.
  unfold converted. destruct (d !! "is_3d") as [v|]; [|done].
  destruct (truthy v).
  - by rewrite lookup_insert_eq.
  - by rewrite lookup_delete_ne.
Qed.

Lemma converted_dom d (K : gset string) :
  "type" ∈ K → (dom (converted d) ⊆ K ↔ dom d ⊆ K ∪ {["is_3d"]}).
Proof.
  intros HK. unfold converted. destruct (d !! "is_3d") as [v|] eqn:Hv.
  - assert ("is_3d" ∈ dom d) by (apply elem_of_dom; eauto).
    destruct (truthy v).
    + rewrite dom_insert_L, dom_delete_L. clear Hv.
      split; intros Hsub k Hk.
      * destruct (decide (k = "is_3d")) as [->|]; [set_solver|].
        apply elem_of_union_l. apply Hsub. set_solver.
      * apply elem_of_union in Hk as [Hk|Hk]; [set_solver|].
        apply elem_of_difference in Hk as [Hk Hn].
        specialize (Hsub k Hk). set_solver.
    + rewrite dom_delete_L. clear Hv.
      split; intros Hsub k Hk.
      * destruct (decide (k = "is_3d")) as [->|]; [set_solver|].
        apply elem_of_union_l. apply Hsub. set_solver.
      * apply elem_of_difference in Hk as [Hk Hn].
        specialize (Hsub k Hk). set_solver.
  - assert ("is_3d" ∉ dom d) by (by apply not_elem_of_dom). clear Hv.
    split; intros Hsub k Hk.
    + apply elem_of_union_l. by apply Hsub.
    + specialize (Hsub k Hk). apply elem_of_union in Hsub as [?|Hs]; [done|].
      by apply elem_of_singleton in Hs as ->.
Qed.

Lemma deref_fmap (f : dict → dict) ds ds' l :
  f ∅ = ∅ → ds' !! l = f <$> ds !! l → deref ds' l = f (deref ds l).
Proof. unfold deref. intros Hf ->. by destruct (ds !! l). Qed.

Lemma type_is_spec_key : "type" ∈ keys_of spec_defaults.
Proof. vm_compute. set_solver. Qed.

(** The two passes over a [specs] argument of the right shape. *)
Lemma normalize_specs_passes g specs ds ds' out :
  specs_shape_ok g specs = true →
  normalize_specs g (Some specs) ds = (ds', out) →
  ∃ ds1 out1,
    for_each (concat specs) (update_at converted (λ _, true) E_type) ds =
      (ds1, out1) ∧
    match out1 with
    | inl e => ds' = ds1 ∧ out = inl e
    | inr _ =>
        ∃ out2,
          for_each (concat specs)
            (update_at (filled spec_defaults) (keys_ok spec_defaults)
               (E_invalid_key "specs")) ds1 = (ds', out2) ∧
          out = match out2 with inl e => inl e | inr _ => inr specs end
    end.
Proof.
  intros Hshape. rewrite normalize_specs_given by done.
  unfold m_bind, m_ret.
  destruct (for_each _ _ ds) as [ds1 [e|[]]] eqn:H1.
  - intros [= <- <-]. exists ds1, (inl e). done.
  - destruct (for_each _ _ ds1) as [ds2 [e|[]]] eqn:H2;
      intros [= <- <-]; exists ds1, (inr tt); split; try done;
      eexists; split; done.
Qed.

(** [normalize_specs] updates the caller's dictionaries in place.  When
    it returns, each dictionary [d] held by a cell of [specs] has become
    a dictionary with exactly the seven spec keys: the entries of [d] are
    kept, the missing ones take their defaults, [is_3d] is gone, and
    [type] is ['scene'] when [is_3d] was true. *)
Theorem normalize_specs_in_place g specs ds ds' specs' l d :
  normalize_specs g (Some specs) ds = (ds', inr specs') →
  Some l ∈ concat specs →
  ds !! l = Some d →
  specs' = specs ∧
  ∃ d', ds' !! l = Some d' ∧
    dom d' = keys_of spec_defaults ∧
    (∀ k v, k ≠ "type" → k ≠ "is_3d" → d !! k = Some v → d' !! k = Some v) ∧
    (∀ k v, k ≠ "type" → (k, v) ∈ spec_defaults → d !! k = None →
       d' !! k = Some v) ∧
    d' !! "type" =
      Some (match d !! "is_3d" with
            | Some v =>
                if truthy v then VStr "scene" else default (VStr "xy") (d !! "type")
            | None => default (VStr "xy") (d !! "type")
            end).
Proof.
  intros Hrun Hl Hd.
  destruct (specs_shape_ok g specs) eqn:Hshape;
    [|by rewrite normalize_specs_bad_shape in Hrun].
  apply normalize_specs_passes in Hrun as (ds1 & out1 & H1 & Hrest); [|done].
  destruct out1 as [e|[]]; [by destruct Hrest|].
  destruct Hrest as (out2 & H2 & Hout).
  destruct out2 as [e|[]]; [done|]. injection Hout as Heq. subst specs'.
  split; [done|].
  destruct (update_loop_returns converted (λ _, true) E_type (concat specs) ds
              converted_idemp (λ _, eq_refl) ds1 H1 l Hl) as [Hds1 _].
  destruct (update_loop_returns (filled spec_defaults) (keys_ok spec_defaults)
              (E_invalid_key "specs") (concat specs) ds1
              (filled_idemp _) (keys_ok_filled _) ds' H2 l Hl) as [Hds' Hok].
  rewrite Hd in Hds1. simpl in Hds1. rewrite Hds1 in Hds'. simpl in Hds'.
  rewrite (deref_lookup _ _ _ Hds1) in Hok.
  exists (filled spec_defaults (converted d)). split; [done|].
  unfold keys_ok in Hok. apply bool_decide_eq_true_1 in Hok.
  split; [|split; [|split]].
  - rewrite filled_dom. unfold keys_of. set_solver.
  - intros k v Ht Hi Hk. rewrite filled_union.
    apply lookup_union_Some_l. by rewrite converted_lookup_ne.
  - intros k v Ht Hin Hk. rewrite filled_union.
    assert (k ≠ "is_3d") as Hi.
    { intros ->. unfold spec_defaults in Hin.
      repeat (apply elem_of_cons in Hin as [[=]|Hin]).
      by apply not_elem_of_nil in Hin. }
    rewrite lookup_union_r by (by rewrite converted_lookup_ne).
    unfold spec_defaults in Hin.
    repeat (apply elem_of_cons in Hin as [[= -> ->]|Hin]); try done.
    by apply not_elem_of_nil in Hin.
  - rewrite filled_union, lookup_union, converted_type.
    destruct (d !! "is_3d") as [v|]; [destruct (truthy v); [done|]|];
      by destruct (d !! "type").
Qed.

Lemma normalize_specs_in_place_witness :
  [[Some 0%nat]] = [[Some 0%nat]] ∧
  ∃ d', [spec_with [("type", VStr "scene"); ("l", VFloat 0.25)]] !! 0%nat = Some d' ∧
    dom d' = keys_of spec_defaults ∧
    (∀ k v, k ≠ "type" → k ≠ "is_3d" →
       ({["is_3d" := VBool true; "l" := VFloat 0.25]} : dict) !! k = Some v →
       d' !! k = Some v) ∧
    (∀ k v, k ≠ "type" → (k, v) ∈ spec_defaults →
       ({["is_3d" := VBool true; "l" := VFloat 0.25]} : dict) !! k = None →
       d' !! k = Some v) ∧
    d' !! "type" =
      Some (match ({["is_3d" := VBool true; "l" := VFloat 0.25]} : dict) !! "is_3d" with
            | Some v =>
                if truthy v then VStr "scene"
                else default (VStr "xy")
                       (({["is_3d" := VBool true; "l" := VFloat 0.25]} : dict) !! "type")
            | None =>
                default (VStr "xy")
                  (({["is_3d" := VBool true; "l" := VFloat 0.25]} : dict) !! "type")
            end).
Proof.
  apply (normalize_specs_in_place one_cell [[Some 0%nat]]
           [ {["is_3d" := VBool true; "l" := VFloat 0.25]} ]
           [spec_with [("type", VStr "scene"); ("l", VFloat 0.25)]]
           [[Some 0%nat]] 0%nat).
  - vm_compute. reflexivity.
  - simpl. left.
  - reflexivity.
Defined.

(** Whether it returns or raises, [normalize_specs] creates and drops no
    dictionary when [specs] is given, and leaves alone every dictionary
    that no cell of [specs] holds. *)
Theorem normalize_specs_frame g specs ds l :
  Some l ∉ concat specs →
  length (normalize_specs g (Some specs) ds).1 = length ds ∧
  (normalize_specs g (Some specs) ds).1 !! l = ds !! l.
Proof.
  intros Hl.
  destruct (specs_shape_ok g specs) eqn:Hshape;
    [|by rewrite normalize_specs_bad_shape].
  destruct (normalize_specs g (Some specs) ds) as [ds' out] eqn:Hrun.
  apply normalize_specs_passes in Hrun as (ds1 & out1 & H1 & Hrest); [|done].
  destruct (update_loop_frame converted (λ _, true) E_type (concat specs) ds
              converted_idemp) as [Hlen1 Hfr1].
  rewrite H1 in Hlen1, Hfr1. simpl in Hlen1, Hfr1.
  destruct out1 as [e|[]].
  - destruct Hrest as [-> _]. simpl. auto.
  - destruct Hrest as (out2 & H2 & _).
    destruct (update_loop_frame (filled spec_defaults) (keys_ok spec_defaults)
                (E_invalid_key "specs") (concat specs) ds1
                (filled_idemp _)) as [Hlen2 Hfr2].
    rewrite H2 in Hlen2, Hfr2. simpl in *.
    split; [congruence|]. rewrite Hfr2 by done. by apply Hfr1.
Qed.

Lemma normalize_specs_frame_witness :
  length (normalize_specs one_cell (Some [[Some 0%nat]])
            [ {["is_3d" := VBool true]}; {["is_3d" := VBool true]} ]).1 = 2%nat ∧
  (normalize_specs one_cell (Some [[Some 0%nat]])
     [ {["is_3d" := VBool true]}; {["is_3d" := VBool true]} ]).1 !! 1%nat =
  Some {["is_3d" := VBool true]}.
Proof.
  apply (normalize_specs_frame one_cell [[Some 0%nat]]
           [ {["is_3d" := VBool true]}; {["is_3d" := VBool true]} ] 1%nat).
  simpl. intros H. apply list_elem_of_singleton in H. discriminate.
Defined.

(** When [normalize_specs] raises on a given [specs]: for a wrong shape,
    before any dictionary is touched; and for an invalid key, when some
    dictionary of [specs] has a key that is neither a spec key nor
    [is_3d].  It returns exactly when neither is the case. *)
Theorem normalize_specs_raises g specs ds :
  match normalize_specs g (Some specs) ds with
  | (ds', inl e) =>
      (e = E_specs_shape ∧ specs_shape_ok g specs = false ∧ ds' = ds) ∨
      (e = E_invalid_key "specs" ∧ specs_shape_ok g specs = true ∧
       ∃ l, Some l ∈ concat specs ∧
         ¬ dom (deref ds l) ⊆ keys_of spec_defaults ∪ {["is_3d"]})
  | (ds', inr specs') =>
      specs_shape_ok g specs = true ∧
      ∀ l, Some l ∈ concat specs →
        dom (deref ds l) ⊆ keys_of spec_defaults ∪ {["is_3d"]}
  end.
Proof.
  destruct (specs_shape_ok g specs) eqn:Hshape;
    [|rewrite normalize_specs_bad_shape by done; left; done].
  destruct (normalize_specs g (Some specs) ds) as [ds' out] eqn:Hrun.
  apply normalize_specs_passes in Hrun as (ds1 & out1 & H1 & Hrest); [|done].
  destruct out1 as [e|[]].
  { apply update_loop_raises in H1 as [_ (l & _ & ?)];
      [done|apply converted_idemp|done]. }
  pose proof (update_loop_returns converted (λ _, true) E_type (concat specs) ds
                converted_idemp (λ _, eq_refl) ds1 H1) as Hds1.
  assert (∀ l, Some l ∈ concat specs →
    keys_ok spec_defaults (deref ds1 l) = true ↔
    dom (deref ds l) ⊆ keys_of spec_defaults ∪ {["is_3d"]}) as Hkeys.
  { intros l Hl. destruct (Hds1 l Hl) as [Hl1 _].
    rewrite (deref_fmap converted ds ds1 l) by done.
    unfold keys_ok. rewrite bool_decide_eq_true.
    apply converted_dom, type_is_spec_key. }
  destruct Hrest as (out2 & H2 & ->). destruct out2 as [e|[]].
  - right. apply update_loop_raises in H2 as [-> (l & Hl & Hbad)];
      [|apply filled_idemp|apply keys_ok_filled].
    split; [done|]. split; [done|]. exists l. split; [done|].
    rewrite <- Hkeys by done. by rewrite Hbad.
  - split; [done|]. intros l Hl. apply Hkeys; [done|].
    by destruct (update_loop_returns (filled spec_defaults) (keys_ok spec_defaults)
                   (E_invalid_key "specs") (concat specs) ds1
                   (filled_idemp _) (keys_ok_filled _) ds' H2 l Hl).
Qed.

(** ** [_check_keys_and_fill] *)

Lemma _check_keys_and_fill_items name arg defaults ds :
  _check_keys_and_fill name arg defaults ds =
  for_each (arg_items arg)
    (update_at (filled defaults) (keys_ok defaults) (E_invalid_key name)) ds.
Proof.
  unfold _check_keys_and_fill, arg_items. rewrite <- for_each_concat.
  rewrite for_each_fmap. apply for_each_ext. intros [row|l] s; [done|].
  simpl. unfold _checks, update_at, m_bind, m_ret, filled, keys_ok.
  by destruct (bool_decide _).
Qed.

(** [_check_keys_and_fill] raises, with the "invalid key" error, exactly
    when one of the dictionaries it is given has a key outside the
    defaults.  When it returns, each of these dictionaries has kept its
    entries and taken the defaults for the keys it lacked; in both cases
    the other dictionaries are as they were. *)
Theorem _check_keys_and_fill_spec name arg defaults ds :
  let out := _check_keys_and_fill name arg defaults ds in
  length out.1 = length ds ∧
  (∀ l, Some l ∉ arg_items arg → out.1 !! l = ds !! l) ∧
  match out.2 with
  | inl e =>
      e = E_invalid_key name ∧
      ∃ l, Some l ∈ arg_items arg ∧ ¬ dom (deref ds l) ⊆ keys_of defaults
  | inr _ =>
      ∀ l, Some l ∈ arg_items arg →
        dom (deref ds l) ⊆ keys_of defaults ∧
        out.1 !! l = (λ d, d ∪ list_to_map defaults) <$> ds !! l
  end.
Proof.
  intros out. subst out. rewrite _check_keys_and_fill_items.
  destruct (update_loop_frame (filled defaults) (keys_ok defaults)
              (E_invalid_key name) (arg_items arg) ds (filled_idemp _))
    as [Hlen Hfr].
  split; [done|]. split; [done|].
  destruct (for_each _ _ ds) as [ds' [e|[]]] eqn:Hrun; simpl.
  - apply update_loop_raises in Hrun as [-> (l & Hl & Hbad)];
      [|apply filled_idemp|apply keys_ok_filled].
    split; [done|]. exists l. split; [done|].
    unfold keys_ok in Hbad. by apply bool_decide_eq_false_1 in Hbad.
  - intros l Hl.
    destruct (update_loop_returns (filled defaults) (keys_ok defaults)
                (E_invalid_key name) (arg_items arg) ds
                (filled_idemp _) (keys_ok_filled _) ds' Hrun l Hl) as [Hds' Hok].
    split.
    + unfold keys_ok in Hok. by apply bool_decide_eq_true_1 in Hok.
    + rewrite Hds'. destruct (ds !! l); [|done]. simpl. by rewrite filled_union.
Qed.

(** ** Which exceptions a computation can raise *)

Lemma for_each_error {S X} (Q : error → Prop) (xs : list X)
    (body : X → M S unit) s e :
  (∀ x s e, x ∈ xs → (body x s).2 = inl e → Q e) →
  (for_each xs body s).2 = inl e → Q e.
Proof.
  intros Hbody Hrun.
  destruct (for_each xs body s) as [s' out] eqn:Hfor. simpl in Hrun. subst out.
  apply for_each_raises in Hfor as (x & t & Hx & Ht). eauto.
Qed.


Lemma mapM_error {A B} (Q : error → Prop) (f : A → res B) (l : list A) e :
  (∀ x e, x ∈ l → f x = inl e → Q e) →
  mapM f l = inl e → Q e.
Proof.
  induction l as [|x l IH]; intros Hf; [done|].
  simpl. unfold mbind, res_bind. destruct (f x) as [e'|y] eqn:Hx.
  - intros [= ->]. apply (Hf x); [left|done].
  - destruct (mapM f l) as [e'|k] eqn:Hl; [|done].
    intros [= ->]. apply IH; [|done]. intros z e0 Hz. apply Hf. by right.
Qed.

Lemma mapM_res_length {A B} (f : A → res B) (l : list A) k :
  mapM f l = inr k → length k = length l.
Proof.
  revert k. induction l as [|x l IH]; intros k.
  - by intros [= <-].
  - simpl. unfold mbind, res_bind. destruct (f x) as [e'|y]; [done|].
    destruct (mapM f l) as [e'|k']; [done|]. intros [= <-]. simpl.
    by rewrite (IH k').
Qed.

(** Case analysis on a computation in [res] that is known to raise or
    to return. *)
Ltac res_cases H :=
  unfold mbind, res_bind, mret, res_ret, raise, or_raise in H;
  repeat (case_match; simplify_eq/=; try done).

(** ** The geometry a validated call fixes *)

Lemma sizes_length e total n given l :
  0 ≤ n → sizes e total n given = inr l → length l = Z.to_nat n.
Proof.
  intros Hn. unfold sizes. destruct given as [ws|].
  - case_bool_decide as Hlen; [|done]. intros H.
    apply mapM_res_length in H. lia.
  - intros [= <-]. by rewrite length_replicate.
Qed.

Lemma sizes_error e0 total n given e :
  sizes e0 total n given = inl e → e = e0 ∨ e = E_zero_division.
Proof.
  unfold sizes. destruct given as [ws|]; [|done].
  case_bool_decide as Hlen; [|intros [= <-]; by left].
  apply (mapM_error (λ e, e = e0 ∨ e = E_zero_division)).
  intros w e1 _ Hw. unfold py_div in Hw. res_cases Hw. by right.
Qed.


Lemma validate_grid_inv flags a g :
  validate_grid flags a = inr g →
  "v4_subplots" ∈ flags ∧
  rows g = Args.rows a ∧ cols g = Args.cols a ∧ 0 < rows g ∧ 0 < cols g ∧
  (Args.start_cell a = "bottom-left" ∧ row_dir g = 1 ∨
   Args.start_cell a = "top-left" ∧ row_dir g = -1) ∧
  length (widths g) = Z.to_nat (cols g) ∧
  length (heights g) = Z.to_nat (rows g).
Proof.
  unfold validate_grid.
  case_bool_decide as Hflag; [|done]. simpl.
  case_bool_decide as Hrows; [done|].
  case_bool_decide as Hcols; [done|].
  assert (∃ rd, (if bool_decide (Args.start_cell a = "bottom-left") then mret 1
                 else if bool_decide (Args.start_cell a = "top-left") then mret (-1)
                 else raise E_start_cell) = (inr rd : res Z) ∧
    (Args.start_cell a = "bottom-left" ∧ rd = 1 ∨
     Args.start_cell a = "top-left" ∧ rd = -1) ∨
    (if bool_decide (Args.start_cell a = "bottom-left") then mret 1
     else if bool_decide (Args.start_cell a = "top-left") then mret (-1)
     else raise E_start_cell) = (inl E_start_cell : res Z)) as Hdir.
  { destruct (decide (Args.start_cell a = "bottom-left")) as [Hb|Hb].
    - rewrite bool_decide_eq_true_2 by done. exists 1. left. eauto.
    - rewrite bool_decide_eq_false_2 by done.
      destruct (decide (Args.start_cell a = "top-left")) as [Ht|Ht].
      + rewrite bool_decide_eq_true_2 by done. exists (-1). left. eauto.
      + rewrite bool_decide_eq_false_2 by done. exists 0. by right. }
  destruct Hdir as (rd & [(-> & Hdir)| ->]); [|done]. simpl.
  match goal with |- context [sizes E_column_widths ?t ?n ?gv] =>
    destruct (sizes E_column_widths t n gv) as [e|ws] eqn:Hws end; [done|].
  simpl.
  match goal with |- context [sizes E_row_heights ?t ?n ?gv] =>
    destruct (sizes E_row_heights t n gv) as [e|hs] eqn:Hhs end; [done|].
  simpl. intros [= <-]. simpl.
  apply sizes_length in Hws; [|lia]. apply sizes_length in Hhs; [|lia].
  repeat split; try done; try lia.
  destruct (_ && _); by rewrite ?length_reverse.
Qed.

(** What a call that passes the validation of its grid arguments has
    fixed: the future flag is set, there is at least one row and one
    column, rows run upwards for ['bottom-left'] and downwards for
    ['top-left'], and there is one width per column and one height per
    row. *)
Theorem validate_grid_returns flags a g :
  validate_grid flags a = inr g →
  "v4_subplots" ∈ flags ∧
  rows g = Args.rows a ∧ cols g = Args.cols a ∧ 0 < rows g ∧ 0 < cols g ∧
  (Args.start_cell a = "bottom-left" ∧ row_dir g = 1 ∨
   Args.start_cell a = "top-left" ∧ row_dir g = -1) ∧
  length (widths g) = Z.to_nat (cols g) ∧
  length (heights g) = Z.to_nat (rows g).
Proof. exact (validate_grid_inv flags a g). Qed.

Lemma validate_grid_returns_witness :
  "v4_subplots" ∈ v4 ∧
  rows one_cell = Args.rows (Args.grid 1 1) ∧
  cols one_cell = Args.cols (Args.grid 1 1) ∧
  0 < rows one_cell ∧ 0 < cols one_cell ∧
  (Args.start_cell (Args.grid 1 1) = "bottom-left" ∧ row_dir one_cell = 1 ∨
   Args.start_cell (Args.grid 1 1) = "top-left" ∧ row_dir one_cell = -1) ∧
  length (widths one_cell) = Z.to_nat (cols one_cell) ∧
  length (heights one_cell) = Z.to_nat (rows one_cell).
Proof.
  apply (validate_grid_returns v4 (Args.grid 1 1) one_cell).
  vm_compute. reflexivity.
Defined.



(** ** Two-dimensional lists *)

Lemma elem_of_concat {A} (ls : list (list A)) (x : A) :
  x ∈ concat ls ↔ ∃ l, l ∈ ls ∧ x ∈ l.
Proof.
  rewrite list_elem_of_In, in_concat. split.
  - intros (l & Hl & Hx). exists l. by rewrite !list_elem_of_In.
  - intros (l & Hl & Hx). exists l. by rewrite <- !list_elem_of_In.
Qed.

(** The loop through specs visits [(r, c, spec)] exactly when
    [specs[r][c]] is [spec]. *)
Lemma elem_of_cells {A} (specs : list (list A)) r c x :
  (r, c, x) ∈ cells specs ↔ cell_at specs r c = Some x.
Proof.
  unfold cells, cell_at. rewrite elem_of_concat. split.
  - intros (l & Hl & Hx).
    apply elem_of_lookup_imap in Hl as (i & row & -> & Hrow).
    apply elem_of_lookup_imap in Hx as (j & y & [= -> -> ->] & Hy).
    by rewrite Hrow.
  - intros H. destruct (specs !! r) as [row|] eqn:Hrow; [|done]. simpl in H.
    exists (imap (λ c spec, (r, c, spec)) row). split.
    + by apply (elem_of_lookup_imap_2 (λ r spec_row,
        imap (λ c spec, (r, c, spec)) spec_row)).
    + by apply (elem_of_lookup_imap_2 (λ c spec, (r, c, spec))).
Qed.

Lemma set_cell_length {A} r c (x : A) m : length (set_cell r c x m) = length m.
Proof. apply length_alter. Qed.

Lemma set_cell_rectangular {A} n r c (x : A) m :
  rectangular n m → rectangular n (set_cell r c x m).
Proof.
  unfold rectangular, set_cell. rewrite !Forall_lookup. intros Hm i row.
  rewrite list_lookup_alter. destruct (decide (r = i)) as [->|]; [|apply Hm].
  destruct (m !! i) as [row'|] eqn:Hrow; [|done]. intros [= <-].
  rewrite length_insert. by apply (Hm i).
Qed.

Lemma cell_at_set_cell {A} r c (x : A) m r' c' :
  cell_at (set_cell r c x m) r' c' =
  if bool_decide (r = r' ∧ c = c' ∧ is_Some (cell_at m r c)) then Some x
  else cell_at m r' c'.
Proof.
  unfold cell_at, set_cell. rewrite list_lookup_alter.
  destruct (decide (r = r')) as [<-|Hr].
  - destruct (m !! r) as [row|] eqn:Hrow; simpl.
    + rewrite list_lookup_insert.
      destruct (decide (c = c' ∧ (c < length row)%nat)) as [[<- Hc]|Hc].
      * rewrite bool_decide_eq_true_2; [done|].
        repeat split; try done. by apply lookup_lt_is_Some_2.
      * rewrite bool_decide_eq_false_2; [done|].
        intros (_ & <- & Hsome). apply Hc. split; [done|].
        by apply lookup_lt_is_Some_1.
    + rewrite bool_decide_eq_false_2; [done|]. by intros (_ & _ & []).
  - rewrite bool_decide_eq_false_2; [done|]. naive_solver.
Qed.

Lemma cell_at_in_range {A} (m : list (list A)) n r c :
  rectangular n m → (r < length m)%nat → (c < n)%nat → is_Some (cell_at m r c).
Proof.
  intros Hrect Hr Hc. unfold cell_at.
  destruct (lookup_lt_is_Some_2 m r Hr) as [row Hrow]. rewrite Hrow. simpl.
  apply lookup_lt_is_Some_2.
  by rewrite (proj1 (Forall_lookup _ _) Hrect _ _ Hrow).
Qed.

Lemma cell_at_Some_range {A} (m : list (list A)) n r c x :
  rectangular n m → cell_at m r c = Some x → (r < length m)%nat ∧ (c < n)%nat.
Proof.
  intros Hrect. unfold cell_at.
  destruct (m !! r) as [row|] eqn:Hrow; [|done]. simpl. intros Hc.
  split; [by eapply lookup_lt_Some|].
  rewrite <- (proj1 (Forall_lookup _ _) Hrect _ _ Hrow). by eapply lookup_lt_Some.
Qed.

Lemma replicate_rectangular {A} nr nc (x : A) :
  rectangular nc (replicate nr (replicate nc x)).
Proof.
  apply Forall_forall. intros row Hrow.
  apply elem_of_replicate in Hrow as [-> _]. apply length_replicate.
Qed.

Lemma cell_at_replicate {A} nr nc (x y : A) r c :
  cell_at (replicate nr (replicate nc x)) r c = Some y → y = x.
Proof.
  unfold cell_at. destruct (replicate nr _ !! r) as [row|] eqn:Hrow; [|done].
  apply lookup_replicate in Hrow as [-> _]. simpl.
  intros Hc. by apply lookup_replicate in Hc as [-> _].
Qed.

(** ** The phases of a construction that returns *)

Lemma on_layout_inv {A} (m : M layout_t A) st st' out :
  on_layout m st = (st', out) →
  m (layout st) = (layout st', out) ∧
  max_subplot_ids st' = max_subplot_ids st ∧ grid_ref st' = grid_ref st ∧
  insets_ref st' = insets_ref st.
Proof.
  unfold on_layout. destruct (m (layout st)) as [layout' r].
  by intros [= <- <-].
Qed.

Lemma insets_loop_grid_ref ds g insets st :
  grid_ref (for_each (imap pair insets) (init_inset ds g (grid_of g)) st).1 =
  grid_ref st.
Proof.
  apply (for_each_state (λ s, grid_ref s = grid_ref st)); [done|].
  intros [i l] s _ Hs.
  destruct (init_inset ds g (grid_of g) (i, l) s) as [s' out] eqn:Hc.
  apply init_inset_inv in Hc
    as [(e & _ & _ & _ & Hg & _)|(? & ? & ? & ? & ? & ? & _ & _ & _ & _ & _ & _ & Hg & _)];
    simpl; congruence.
Qed.

Lemma build_returns ds g specs insets sx sy st0 st :
  build ds g specs insets sx sy st0 = (st, inr tt) →
  ∃ s1 s2 s3,
    for_each (cells specs) (init_cell ds g (grid_of g)) st0 = (s1, inr tt) ∧
    on_layout (_configure_shared_axes ds (grid_ref s1) X sx (row_dir g)) s1 =
      (s2, inr tt) ∧
    on_layout (_configure_shared_axes ds (grid_ref s1) Y sy (row_dir g)) s2 =
      (s3, inr tt) ∧
    for_each (imap pair insets) (init_inset ds g (grid_of g)) s3 = (st, inr tt) ∧
    _build_grid_str ds (grid_ref st) insets = inr tt ∧
    grid_ref st = grid_ref s1.
Proof.
  unfold build. unfold m_bind at 1.
  destruct (for_each (cells specs) _ st0) as [s1 [e|[]]] eqn:H1; [done|].
  unfold m_bind at 1. unfold get at 1. unfold m_bind at 1.
  destruct (on_layout _ s1) as [s2 [e|[]]] eqn:H2; [done|].
  unfold m_bind at 1.
  destruct (on_layout _ s2) as [s3 [e|[]]] eqn:H3; [done|].
  unfold m_bind at 1.
  destruct (for_each (imap pair insets) _ s3) as [s4 [e|[]]] eqn:H4; [done|].
  unfold m_bind, get, lift.
  destruct (_build_grid_str ds (grid_ref s4) insets) as [e|[]] eqn:H5; [done|].
  intros [= <-]. exists s1, s2, s3. repeat split; try done.
  pose proof (insets_loop_grid_ref ds g insets s3) as Hg. rewrite H4 in Hg.
  apply on_layout_inv in H2 as (_ & _ & Hg2 & _).
  apply on_layout_inv in H3 as (_ & _ & Hg3 & _).
  simpl in Hg. congruence.
Qed.

(** ** The spec grid a validated call works on *)

Lemma specs_shape_ok_dims g specs :
  specs_shape_ok g specs = true →
  length specs = Z.to_nat (rows g) ∧ rectangular (Z.to_nat (cols g)) specs.
Proof.
  unfold specs_shape_ok. rewrite !andb_true_iff.
  intros [[_ Hrows] Hcols]. apply bool_decide_eq_true_1 in Hrows.
  split; [lia|]. apply Forall_forall. intros row Hrow.
  rewrite forallb_forall in Hcols. apply list_elem_of_In in Hrow.
  specialize (Hcols row Hrow). apply bool_decide_eq_true_1 in Hcols. lia.
Qed.

Lemma normalize_specs_dims g specs ds ds' specs' :
  normalize_specs g specs ds = (ds', inr specs') →
  length specs' = Z.to_nat (rows g) ∧ rectangular (Z.to_nat (cols g)) specs'.
Proof.
  destruct specs as [specs|].
  - intros Hrun. destruct (specs_shape_ok g specs) eqn:Hshape;
      [|by rewrite normalize_specs_bad_shape in Hrun].
    rewrite normalize_specs_given in Hrun by done.
    unfold m_bind, m_ret in Hrun.
    destruct (for_each _ _ ds) as [ds1 [e|[]]]; [done|].
    destruct (for_each _ _ ds1) as [ds2 [e|[]]]; [done|].
    injection Hrun as _ <-. by apply specs_shape_ok_dims.
  - unfold normalize_specs, fresh_specs. unfold m_bind at 1.
    unfold m_bind, m_ret.
    destruct (for_each _ _ _) as [ds1 [e|[]]]; [done|].
    destruct (_check_keys_and_fill _ _ _ ds1) as [ds2 [e|[]]]; [done|].
    intros [= _ <-]. split.
    + by rewrite length_fmap, length_seq.
    + apply Forall_forall. intros row Hrow.
      apply list_elem_of_fmap in Hrow as (r & -> & _).
      by rewrite length_fmap, length_seq.
Qed.

Lemma normalize_inv g a ds ds' specs insets :
  normalize g a ds = (ds', inr (specs, insets)) →
  ∃ ds1,
    normalize_specs g (Args.specs a) ds = (ds1, inr specs) ∧
    normalize_insets (Args.insets a) ds1 = (ds', inr insets) ∧
    validate_shared (Args.shared_xaxes a) (Args.shared_yaxes a) = inr tt.
Proof.
  unfold normalize, m_bind, lift, m_ret.
  destruct (normalize_specs g (Args.specs a) ds) as [ds1 [e|specs0]]; [done|].
  destruct (normalize_insets (Args.insets a) ds1) as [ds2 [e|insets0]] eqn:Hi;
    [done|].
  destruct (validate_shared _ _) as [e|[]]; [done|].
  intros [= <- <- <-]. by exists ds1.
Qed.

Lemma normalize_specs_given_returns g specs ds ds' specs' :
  normalize_specs g (Some specs) ds = (ds', inr specs') →
  specs' = specs ∧ specs_shape_ok g specs = true.
Proof.
  intros Hrun. destruct (specs_shape_ok g specs) eqn:Hshape;
    [|by rewrite normalize_specs_bad_shape in Hrun].
  apply normalize_specs_passes in Hrun as (ds1 & out1 & _ & Hrest); [|done].
  destruct out1 as [e|[]]; [by destruct Hrest|].
  destruct Hrest as (out2 & _ & Hout). destruct out2 as [e|[]]; [done|].
  by injection Hout as <-.
Qed.

(** ** The grid reference table *)

Section table.
Context (ds : list dict) (g : geometry) (specs : list (list (option loc)))
  (insets : list loc) (shared_xaxes shared_yaxes : pyval).
Context (st : build_state).

Hypothesis specs_rows : length specs = Z.to_nat (rows g).
Hypothesis specs_cols : rectangular (Z.to_nat (cols g)) specs.

Lemma table_dims :
  let st' := (build ds g specs insets shared_xaxes shared_yaxes
                (initial_state g insets)).1 in
  length (grid_ref st') = Z.to_nat (rows g) ∧
  rectangular (Z.to_nat (cols g)) (grid_ref st').
Proof.
  apply (build_inv (λ _ _ gr _,
    length gr = Z.to_nat (rows g) ∧ rectangular (Z.to_nat (cols g)) gr)
    ds g specs insets); try done.
  - intros ?????????? r c l [Hlen Hrect] _ _ _ _.
    rewrite set_cell_length. split; [done|]. by apply set_cell_rectangular.
  - simpl. split; [apply length_replicate|apply replicate_rectangular].
Qed.

Lemma table_entries_have_specs r c ref :
  let st' := (build ds g specs insets shared_xaxes shared_yaxes
                (initial_state g insets)).1 in
  cell_at (grid_ref st') r c = Some (Some ref) →
  ∃ l, cell_at specs r c = Some (Some l) ∧ spec ref = Some l.
Proof.
  revert r c ref.
  apply (build_inv (λ _ _ gr _, ∀ r c ref,
    cell_at gr r c = Some (Some ref) →
    ∃ l, cell_at specs r c = Some (Some l) ∧ spec ref = Some l)
    ds g specs insets); try done.
  - intros layout ids gr ir t xd yd layout' ids' ref0 r0 c0 l0 Hgr Hin _ _ _ r c ref.
    rewrite cell_at_set_cell. case_bool_decide as Hpos; [|apply Hgr].
    destruct Hpos as (<- & <- & _). intros [= <-].
    exists l0. split; [|done]. by apply elem_of_cells.
  - simpl. intros r c ref Hc. by apply cell_at_replicate in Hc.
Qed.

Lemma cells_loop_fills s0 s1 r c l :
  length (grid_ref s0) = Z.to_nat (rows g) →
  rectangular (Z.to_nat (cols g)) (grid_ref s0) →
  for_each (cells specs) (init_cell ds g (grid_of g)) s0 = (s1, inr tt) →
  cell_at specs r c = Some (Some l) →
  ∃ ref, cell_at (grid_ref s1) r c = Some (Some ref).
Proof.
  intros Hlen Hrect Hrun Hcell.
  destruct (for_each_post
    (λ s, length (grid_ref s) = Z.to_nat (rows g) ∧
          rectangular (Z.to_nat (cols g)) (grid_ref s))
    (λ cell s, ∀ r c l, cell = (r, c, Some l) →
       ∃ ref, cell_at (grid_ref s) r c = Some (Some ref))
    (cells specs) (init_cell ds g (grid_of g)) s0 s1) as [_ H]; try done.
  - intros [[r0 c0] [l0|]] s _ [Hl Hr]; [|done].
    destruct (init_cell _ _ _ _ s) as [s' out] eqn:Hc.
    apply init_cell_inv in Hc
      as [(e & _ & _ & _ & Hg & _)
         |(? & ? & ? & ? & ? & ? & _ & _ & _ & _ & _ & _ & Hg & _)];
      simpl; rewrite Hg; [done|].
    rewrite set_cell_length. split; [done|]. by apply set_cell_rectangular.
  - intros [[r0 c0] [l0|]] s Hin [Hl Hr] Hret r' c' l' [= -> -> ->].
    destruct (init_cell _ _ _ _ s) as [s' out] eqn:Hc. simpl in *. subst out.
    apply init_cell_inv in Hc
      as [(e & ? & _)|(? & ? & ? & ? & ? & ref & _ & _ & _ & _ & _ & _ & Hg & _)];
      [done|].
    rewrite Hg, cell_at_set_cell. eexists. rewrite bool_decide_eq_true_2; [done|].
    repeat split; try done.
    apply elem_of_cells in Hin.
    destruct (cell_at_Some_range _ _ _ _ _ specs_cols Hin).
    eapply cell_at_in_range; [done|lia|done].
  - intros [[r0 c0] [l0|]] y s _ _ [Hl Hr] Hq r' c' l' ->;
      [|exact (Hq r' c' l' eq_refl)].
    destruct (Hq r' c' l' eq_refl) as [ref Href].
    destruct (init_cell _ _ _ _ s) as [s' out] eqn:Hc.
    apply init_cell_inv in Hc
      as [(e & _ & _ & _ & Hg & _)
         |(? & ? & ? & ? & ? & ref' & _ & _ & _ & _ & _ & _ & Hg & _)];
      simpl; rewrite Hg; [eauto|].
    rewrite cell_at_set_cell. case_bool_decide; eauto.
  - refine (H (r, c, Some l) _ r c l eq_refl). by apply elem_of_cells.
Qed.

(** The table [build] returns mirrors the spec grid. *)
Lemma table_mirrors_specs st' r c :
  build ds g specs insets shared_xaxes shared_yaxes (initial_state g insets) =
    (st', inr tt) →
  match cell_at specs r c with
  | Some (Some l) =>
      ∃ ref, cell_at (grid_ref st') r c = Some (Some ref) ∧ spec ref = Some l
  | Some None => cell_at (grid_ref st') r c = Some None
  | None => cell_at (grid_ref st') r c = None
  end.
Proof.
  intros Hb. pose proof table_dims as [Hlen Hrect].
  pose proof (table_entries_have_specs r c) as Hent.
  rewrite Hb in Hlen, Hrect, Hent. simpl in Hlen, Hrect, Hent.
  apply build_returns in Hb as (s1 & s2 & s3 & H1 & _ & _ & _ & _ & Hg).
  destruct (cell_at specs r c) as [[l|]|] eqn:Hc.
  - destruct (cells_loop_fills (initial_state g insets) s1 r c l) as [ref Href];
      try done.
    { apply length_replicate. } { apply replicate_rectangular. }
    rewrite <- Hg in Href. exists ref. split; [done|].
    destruct (Hent ref Href) as (l' & Hl' & ?). congruence.
  - destruct (cell_at_Some_range _ _ _ _ _ specs_cols Hc) as [Hr Hcc].
    destruct (cell_at_in_range (grid_ref st') _ r c Hrect) as [[ref|] Href];
      [lia|done| |done].
    destruct (Hent ref Href) as (l' & Hl' & _). congruence.
  - destruct (cell_at (grid_ref st') r c) as [x|] eqn:Hx; [|done].
    destruct (cell_at_Some_range _ _ _ _ _ Hrect Hx) as [Hr Hcc].
    destruct (cell_at_in_range specs _ r c specs_cols) as [y Hy]; [lia|done|].
    congruence.
Qed.

End table.

Lemma normalize_specs_fresh_returns g ds ds' specs' :
  normalize_specs g None ds = (ds', inr specs') →
  specs' = (λ r, (λ c, Some (length ds + r * Z.to_nat (cols g) + c)%nat) <$>
                   seq 0 (Z.to_nat (cols g))) <$> seq 0 (Z.to_nat (rows g)).
Proof.
  unfold normalize_specs, fresh_specs. unfold m_bind at 1.
  unfold m_bind, m_ret.
  destruct (for_each _ _ _) as [ds1 [e|[]]]; [done|].
  destruct (_check_keys_and_fill _ _ _ ds1) as [ds2 [e|[]]]; [done|].
  by intros [= _ <-].
Qed.

(** The table of a returned figure mirrors the [specs] argument: it has
    a reference element, recording the cell's own dictionary, exactly
    where [specs] has a dictionary, [None] exactly where [specs] has
    [None], and no cell outside the grid. *)
Theorem table_mirrors_given_specs flags a w w' fig specs r c :
  make_subplots flags a w = (w', inr fig) →
  Args.specs a = Some specs →
  match cell_at specs r c with
  | Some (Some l) =>
      ∃ ref, cell_at (_grid_ref fig) r c = Some (Some ref) ∧ spec ref = Some l
  | Some None => cell_at (_grid_ref fig) r c = Some None
  | None => cell_at (_grid_ref fig) r c = None
  end.
Proof.
  intros Hrun Hspecs.
  apply make_subplots_returns in Hrun
    as (g & ds & specs' & insets & st & _ & Hn & Hb & _ & _ & ->).
  apply normalize_inv in Hn as (ds1 & Hns & _ & _).
  rewrite Hspecs in Hns.
  apply normalize_specs_given_returns in Hns as [-> Hshape].
  apply specs_shape_ok_dims in Hshape as [Hrows Hcols].
  by eapply table_mirrors_specs.
Qed.

Lemma table_mirrors_given_specs_witness :
  ∃ ref, cell_at [[Some (xy_ref "1" "1" (Some 1%nat)); None]] 0 0 = Some (Some ref) ∧
         spec ref = Some 1%nat.
Proof.
  apply (table_mirrors_given_specs v4
    (Args.make 1 2 (VBool false) (VBool false) (Some [[Some 1%nat; None]]) None)
    {| dicts := [∅; ∅]; layouts := [] |}
    {| dicts := [∅; spec_with []];
       layouts := [ {[ "xaxis1" := new_axis (0, 0.45)%float "y1";
                       "yaxis1" := new_axis (0, 1)%float "x1" ]} ] |}
    {| fig_layout := 0;
       _grid_ref := [[Some (xy_ref "1" "1" (Some 1%nat)); None]] |}
    [[Some 1%nat; None]] 0%nat 0%nat).
  - vm_compute. reflexivity.
  - reflexivity.
Defined.

(** Without a [specs] argument, the table of a returned figure has a
    reference element in each of its [rows] x [cols] cells, and the
    element of cell [(r, c)] records a dictionary the call has created:
    the one at the address [r * cols + c] past the caller's. *)
Theorem table_of_default_specs flags a w w' fig r c :
  make_subplots flags a w = (w', inr fig) →
  Args.specs a = None →
  (r < Z.to_nat (Args.rows a))%nat → (c < Z.to_nat (Args.cols a))%nat →
  length (_grid_ref fig) = Z.to_nat (Args.rows a) ∧
  rectangular (Z.to_nat (Args.cols a)) (_grid_ref fig) ∧
  ∃ ref, cell_at (_grid_ref fig) r c = Some (Some ref) ∧
         spec ref = Some (length (dicts w) + r * Z.to_nat (Args.cols a) + c)%nat.
Proof.
  intros Hrun Hspecs Hr Hc.
  apply make_subplots_returns in Hrun
    as (g & ds & specs' & insets & st & Hv & Hn & Hb & _ & _ & ->).
  apply validate_grid_inv in Hv as (_ & Hrg & Hcg & _).
  rewrite <- Hrg in Hr |- *. rewrite <- Hcg in Hc |- *.
  apply normalize_inv in Hn as (ds1 & Hns & _ & _).
  rewrite Hspecs in Hns.
  pose proof (normalize_specs_dims _ _ _ _ _ Hns) as [Hrows Hcols].
  apply normalize_specs_fresh_returns in Hns.
  pose proof (table_dims ds g specs' insets (Args.shared_xaxes a)
                (Args.shared_yaxes a)) as [Hlen Hrect].
  rewrite Hb in Hlen, Hrect. simpl in Hlen, Hrect.
  split; [done|]. split; [done|].
  pose proof (table_mirrors_specs ds g specs' insets (Args.shared_xaxes a)
                (Args.shared_yaxes a) Hrows Hcols st r c Hb) as Hm.
  assert (cell_at specs' r c =
    Some (Some (length (dicts w) + r * Z.to_nat (cols g) + c)%nat)) as Hcell.
  { subst specs'. unfold cell_at. rewrite list_lookup_fmap.
    rewrite lookup_seq_lt by done. simpl. rewrite list_lookup_fmap.
    by rewrite lookup_seq_lt. }
  by rewrite Hcell in Hm.
Qed.

Lemma table_of_default_specs_witness :
  length (_grid_ref two_rows_figure) = Z.to_nat (Args.rows (Args.grid 2 1)) ∧
  rectangular (Z.to_nat (Args.cols (Args.grid 2 1))) (_grid_ref two_rows_figure) ∧
  ∃ ref, cell_at (_grid_ref two_rows_figure) 1 0 = Some (Some ref) ∧
         spec ref = Some (length (dicts empty_world) +
                          1 * Z.to_nat (Args.cols (Args.grid 2 1)) + 0)%nat.
Proof.
  apply (table_of_default_specs v4 (Args.grid 2 1) empty_world two_rows_world
           two_rows_figure 1%nat 0%nat).
  - vm_compute. reflexivity.
  - reflexivity.
  - simpl. lia.
  - simpl. lia.
Defined.

(** ** Looking a cell up *)

Lemma ref_registered_mono layout layout' ref :
  (∀ k, is_Some (layout !! k) → is_Some (layout' !! k)) →
  ref_registered layout ref → ref_registered layout' ref.
Proof.
  intros Hmono. unfold ref_registered.
  destruct (layout_keys ref) as [|kx [|ky [|]]]; [done| | |done].
  - intros [? ?]. eauto.
  - intros (? & ? & ?). eauto.
Qed.

Lemma _init_subplot_grows layout t xd yd ids layout' ids' ref k :
  _init_subplot layout t xd yd ids = inr (layout', ids', ref) →
  is_Some (layout !! k) → is_Some (layout' !! k).
Proof.
  intros H Hk. apply _init_subplot_inv in H.
  destruct H as [(n & m & _ & _ & _ & -> & _)
                |[(s & n & _ & _ & _ & -> & _)|(_ & -> & _)]]; [| |done].
  - rewrite !lookup_insert_is_Some'. auto.
  - rewrite lookup_insert_is_Some'. auto.
Qed.

Lemma _init_subplot_ref_registered layout t xd yd ids layout' ids' ref :
  _init_subplot layout t xd yd ids = inr (layout', ids', ref) →
  ref_registered layout' ref.
Proof.
  intros H. apply _init_subplot_inv in H.
  destruct H as [(n & m & _ & _ & _ & -> & _ & ->)
                |[(s & n & _ & _ & _ & -> & _ & ->)|(_ & -> & _ & ->)]];
    unfold ref_registered; simpl.
  - rewrite !lookup_insert_is_Some'. split; [auto|]. split; [auto|].
    exists (n + 1), (m + 1). split; [done|]. split; [done|].
    unfold singletonM, map_singleton. by apply insert_insert_ne.
  - rewrite lookup_insert_is_Some'. split; [auto|]. eauto.
  - eauto.
Qed.

(** Every reference element of the table [build] ends with has its
    layout keys registered. *)
Lemma table_registered ds g specs insets shared_xaxes shared_yaxes r c ref :
  let st' := (build ds g specs insets shared_xaxes shared_yaxes
                (initial_state g insets)).1 in
  cell_at (grid_ref st') r c = Some (Some ref) →
  ref_registered (layout st') ref.
Proof.
  revert r c ref.
  apply (build_inv (λ layout _ gr _, ∀ r c ref,
    cell_at gr r c = Some (Some ref) → ref_registered layout ref)
    ds g specs insets).
  - intros layout ids gr ir t xd yd layout' ids' ref0 r0 c0 l0 Hgr _ _ _ Hinit r c ref.
    rewrite cell_at_set_cell. case_bool_decide as Hpos.
    + intros [= <-]. by apply _init_subplot_ref_registered in Hinit.
    + intros Href. eapply ref_registered_mono; [|by eapply Hgr].
      intros k. by eapply _init_subplot_grows.
  - intros layout ids gr ir t xd yd layout' ids' ref0 i l Hgr _ _ Hinit r c ref Href.
    eapply ref_registered_mono; [|by eapply Hgr].
    intros k. by eapply _init_subplot_grows.
  - intros layout ids gr ir k a id rl Hgr Ha r c ref Href.
    eapply ref_registered_mono; [|by eapply Hgr].
    intros k'. rewrite lookup_insert_is_Some'. auto.
  - simpl. intros r c ref Hc. by apply cell_at_replicate in Hc.
Qed.

Lemma handle_of_registered layout ref :
  ref_registered layout ref →
  ∃ h, handle_of layout ref = inr h ∧
    match h with
    | SubplotDomain x y =>
        layout_keys ref = [] ∧ trace_kwargs ref = {["domain" := KDomain x y]}
    | SubplotSingle o =>
        ∃ k key, layout_keys ref = [k] ∧ layout !! k = Some o ∧
          trace_kwargs ref = {[key := KLabel k]}
    | SubplotXY ox oy =>
        ∃ n m, layout_keys ref = ["xaxis" +:+ fmt n; "yaxis" +:+ fmt m] ∧
          layout !! ("xaxis" +:+ fmt n) = Some ox ∧
          layout !! ("yaxis" +:+ fmt m) = Some oy ∧
          trace_kwargs ref = {["xaxis" := KLabel ("x" +:+ fmt n);
                               "yaxis" := KLabel ("y" +:+ fmt m)]}
    end.
Proof.
  unfold ref_registered, handle_of.
  destruct (layout_keys ref) as [|kx [|ky [|]]]; [| | |done].
  - intros (x & y & ->). exists (SubplotDomain x y).
    by rewrite lookup_singleton_eq.
  - intros ([o Ho] & key & Hkw). exists (SubplotSingle o). rewrite Ho. simpl.
    split; [done|]. eauto.
  - intros ([ox Hox] & [oy Hoy] & n & m & -> & -> & Hkw).
    exists (SubplotXY ox oy). rewrite Hox, Hoy. simpl. split; [done|].
    exists n, m. eauto.
Qed.

(** Round trip: in a figure [make_subplots] has returned, the lookup of
    a cell in range returns [None] for an empty cell, and for a cell
    with a subplot a handle of the shape that the cell's [layout_keys]
    announce: the domain of the cell's [trace_kwargs], the layout object
    named by the single key, or the pair of axis objects [xaxis<n>],
    [yaxis<m>] where the cell's [trace_kwargs] are [x<n>] and [y<m>]. *)
Theorem lookup_round_trip flags a w w' fig layout row col :
  make_subplots flags a w = (w', inr fig) →
  layouts w' !! fig_layout fig = Some layout →
  1 ≤ row ≤ Args.rows a → 1 ≤ col ≤ Args.cols a →
  match grid_cell (_grid_ref fig) row col with
  | None => False
  | Some None => _get_grid_subplot flags w' fig row col = inr None
  | Some (Some ref) =>
      ∃ h, _get_grid_subplot flags w' fig row col = inr (Some h) ∧
        match h with
        | SubplotDomain x y =>
            layout_keys ref = [] ∧ trace_kwargs ref = {["domain" := KDomain x y]}
        | SubplotSingle o =>
            ∃ k key, layout_keys ref = [k] ∧ layout !! k = Some o ∧
              trace_kwargs ref = {[key := KLabel k]}
        | SubplotXY ox oy =>
            ∃ n m, layout_keys ref = ["xaxis" +:+ fmt n; "yaxis" +:+ fmt m] ∧
              layout !! ("xaxis" +:+ fmt n) = Some ox ∧
              layout !! ("yaxis" +:+ fmt m) = Some oy ∧
              trace_kwargs ref = {["xaxis" := KLabel ("x" +:+ fmt n);
                                   "yaxis" := KLabel ("y" +:+ fmt m)]}
        end
  end.
Proof.
  intros Hrun Hlayout Hrow Hcol.
  apply make_subplots_returns in Hrun
    as (g & ds & specs & insets & st & Hv & Hn & Hb & _ & Hl & Hgr).
  rewrite Hl in Hlayout. injection Hlayout as <-.
  apply validate_grid_inv in Hv as (Hflag & Hrg & Hcg & _).
  pose proof (table_dims ds g specs insets (Args.shared_xaxes a)
                (Args.shared_yaxes a)) as [Hlen Hrect].
  pose proof (table_registered ds g specs insets (Args.shared_xaxes a)
                (Args.shared_yaxes a) (Z.to_nat (row - 1)) (Z.to_nat (col - 1)))
    as Hreg.
  rewrite Hb in Hlen, Hrect, Hreg. simpl in Hlen, Hrect, Hreg.
  rewrite <- Hgr in Hlen, Hrect, Hreg.
  destruct (grid_cell_in_range (_grid_ref fig) (Z.to_nat (cols g)) row col)
    as [cell Hcell]; [done|lia|lia|].
  rewrite Hcell. unfold _get_grid_subplot.
  rewrite bool_decide_eq_true_2 by done. simpl.
  assert (ncols (_grid_ref fig) = inr (Z.to_nat (cols g))) as ->.
  { unfold ncols. destruct (_grid_ref fig) as [|row0 rest] eqn:Hfig.
    - simpl in Hlen. lia.
    - simpl. by rewrite (Forall_inv Hrect). }
  rewrite !bool_decide_eq_false_2 by lia. simpl.
  unfold grid_cell in Hcell. rewrite Hcell. rewrite Hl. simpl.
  destruct cell as [ref|]; [|done].
  destruct (handle_of_registered (layout st) ref) as (h & -> & Hh).
  { by apply Hreg. }
  exists h. done.
Qed.

Lemma lookup_round_trip_witness :
  ∃ h, _get_grid_subplot v4 two_rows_world two_rows_figure 2 1 = inr (Some h) ∧
    match h with
    | SubplotDomain x y =>
        layout_keys (xy_ref "2" "2" (Some 1%nat)) = [] ∧
        trace_kwargs (xy_ref "2" "2" (Some 1%nat)) = {["domain" := KDomain x y]}
    | SubplotSingle o =>
        ∃ k key, layout_keys (xy_ref "2" "2" (Some 1%nat)) = [k] ∧
          two_rows_layout !! k = Some o ∧
          trace_kwargs (xy_ref "2" "2" (Some 1%nat)) = {[key := KLabel k]}
    | SubplotXY ox oy =>
        ∃ n m, layout_keys (xy_ref "2" "2" (Some 1%nat)) =
                 ["xaxis" +:+ fmt n; "yaxis" +:+ fmt m] ∧
          two_rows_layout !! ("xaxis" +:+ fmt n) = Some ox ∧
          two_rows_layout !! ("yaxis" +:+ fmt m) = Some oy ∧
          trace_kwargs (xy_ref "2" "2" (Some 1%nat)) =
            {["xaxis" := KLabel ("x" +:+ fmt n);
              "yaxis" := KLabel ("y" +:+ fmt m)]}
    end.
Proof.
  apply (lookup_round_trip v4 (Args.grid 2 1) empty_world two_rows_world
           two_rows_figure two_rows_layout 2 1).
  - vm_compute. reflexivity.
  - reflexivity.
  - simpl. lia.
  - simpl. lia.
Defined.

Lemma handle_of_error layout ref e :
  handle_of layout ref = inl e → e ≠ E_lookup_row ∧ e ≠ E_lookup_col.
Proof.
  unfold handle_of. intros H. res_cases H.
Qed.

(** For any figure with a non-empty rectangular table, the lookup raises
    the row error exactly when [row] is outside [1..rows], and the column
    error exactly when [row] is inside and [col] is outside [1..cols]. *)
Theorem lookup_out_of_range flags w fig cols row col :
  "v4_subplots" ∈ flags →
  _grid_ref fig ≠ [] →
  rectangular cols (_grid_ref fig) →
  (_get_grid_subplot flags w fig row col = inl E_lookup_row ↔
     ¬ (1 ≤ row ≤ length (_grid_ref fig))) ∧
  (_get_grid_subplot flags w fig row col = inl E_lookup_col ↔
     1 ≤ row ≤ length (_grid_ref fig) ∧ ¬ (1 ≤ col ≤ cols)).
Proof.
  intros Hflag Hne Hrect. unfold _get_grid_subplot.
  rewrite bool_decide_eq_true_2 by done. simpl.
  assert (ncols (_grid_ref fig) = inr cols) as ->.
  { unfold ncols. destruct (_grid_ref fig) as [|row0 rest]; [done|].
    simpl. by rewrite (Forall_inv Hrect). }
  destruct (decide (row < 1)) as [Hr1|Hr1];
    [rewrite (bool_decide_eq_true_2 _ Hr1); simpl; split; split;
       [lia|done|done|lia]|].
  rewrite (bool_decide_eq_false_2 _ Hr1). simpl.
  destruct (decide (length (_grid_ref fig) < row)) as [Hr2|Hr2];
    [rewrite (bool_decide_eq_true_2 _ Hr2); simpl; split; split;
       [lia|done|done|lia]|].
  rewrite (bool_decide_eq_false_2 _ Hr2).
  destruct (decide (col < 1)) as [Hc1|Hc1];
    [rewrite (bool_decide_eq_true_2 _ Hc1); simpl; split; split;
       [done|lia|lia|done]|].
  rewrite (bool_decide_eq_false_2 _ Hc1). simpl.
  destruct (decide (cols < col)) as [Hc2|Hc2];
    [rewrite (bool_decide_eq_true_2 _ Hc2); simpl; split; split;
       [done|lia|lia|done]|].
  rewrite (bool_decide_eq_false_2 _ Hc2).
  destruct (grid_cell_in_range (_grid_ref fig) cols row col) as [cell Hcell];
    [done|lia|lia|].
  unfold grid_cell in Hcell. rewrite Hcell.
  destruct cell as [ref|]; [|split; split; (done || lia)].
  destruct (handle_of _ ref) as [e|h] eqn:Hh; simpl;
    [|split; split; (done || lia)].
  apply handle_of_error in Hh as [? ?].
  split; split; try lia; intros [= ->]; done.
Qed.

Lemma lookup_out_of_range_witness :
  (_get_grid_subplot v4 two_rows_world two_rows_figure 3 1 = inl E_lookup_row ↔
     ¬ (1 ≤ 3 ≤ length (_grid_ref two_rows_figure))) ∧
  (_get_grid_subplot v4 two_rows_world two_rows_figure 3 1 = inl E_lookup_col ↔
     1 ≤ 3 ≤ length (_grid_ref two_rows_figure) ∧ ¬ (1 ≤ 1 ≤ 1%nat)).
Proof.
  apply (lookup_out_of_range v4 two_rows_world two_rows_figure 1%nat 3 1).
  - unfold v4. by left.
  - discriminate.
  - by repeat constructor.
Defined.

(** ** Identifiers of xy subplots *)

Lemma xy_numbered_counters ids ids' gr :
  (∀ n, ids !! "xaxis" = Some n → ∃ n', ids' !! "xaxis" = Some n' ∧ n ≤ n') →
  (∀ m, ids !! "yaxis" = Some m → ∃ m', ids' !! "yaxis" = Some m' ∧ m ≤ m') →
  xy_numbered ids gr → xy_numbered ids' gr.
Proof.
  intros Hx Hy (n & m & Hn & Hm & ix & iy & H).
  destruct (Hx n Hn) as (n' & Hn' & ?). destruct (Hy m Hm) as (m' & Hm' & ?).
  exists n', m'. split; [done|]. split; [done|]. exists ix, iy.
  intros r c ref Href Hxy. destruct (H r c ref Href Hxy) as (? & ? & ? & ?).
  split; [lia|]. split; [lia|]. by split.
Qed.

Lemma xy_numbered_other ids gr r c ref :
  subplot_type ref ≠ "xy" →
  xy_numbered ids gr → xy_numbered ids (set_cell r c (Some ref) gr).
Proof.
  intros Hny (n & m & Hn & Hm & ix & iy & H).
  exists n, m. split; [done|]. split; [done|]. exists ix, iy.
  intros r1 c1 ref1. rewrite cell_at_set_cell.
  case_bool_decide as Hpos; [by intros [= <-]|].
  intros Href Hxy. destruct (H r1 c1 ref1 Href Hxy) as (? & ? & ? & Hd).
  split; [done|]. split; [done|]. split; [done|].
  intros r2 c2 ref2 Hne. rewrite cell_at_set_cell.
  case_bool_decide; [by intros [= <-]|]. by apply Hd.
Qed.

Lemma xy_numbered_new ids gr r c ref n m :
  ids !! "xaxis" = Some n → ids !! "yaxis" = Some m →
  layout_keys ref = ["xaxis" +:+ fmt (n + 1); "yaxis" +:+ fmt (m + 1)] →
  xy_numbered ids gr →
  xy_numbered (<["yaxis" := m + 1]> (<["xaxis" := n + 1]> ids))
    (set_cell r c (Some ref) gr).
Proof.
  intros Hn Hm Hkeys (n0 & m0 & Hn0 & Hm0 & ix & iy & H).
  assert (n0 = n) as -> by congruence. assert (m0 = m) as -> by congruence.
  destruct (decide (is_Some (cell_at gr r c))) as [Hin|Hout].
  - exists (n + 1), (m + 1).
    split; [by rewrite lookup_insert_ne, lookup_insert_eq|].
    split; [by rewrite lookup_insert_eq|].
    exists (λ r' c', if bool_decide (r = r' ∧ c = c') then n + 1 else ix r' c'),
           (λ r' c', if bool_decide (r = r' ∧ c = c') then m + 1 else iy r' c').
    cbv beta. intros r1 c1 ref1. rewrite cell_at_set_cell.
    destruct (decide (r = r1 ∧ c = c1)) as [[<- <-]|Hne1].
    + rewrite (bool_decide_eq_true_2 (r = r ∧ c = c ∧ _)) by done.
      rewrite !(bool_decide_eq_true_2 (r = r ∧ c = c)) by done.
      intros [= <-] _.
      split; [lia|]. split; [lia|]. split; [done|].
      intros r2 c2 ref2 Hne2. rewrite cell_at_set_cell.
      rewrite (bool_decide_eq_false_2 (r = r2 ∧ c = c2 ∧ _)) by naive_solver.
      rewrite !(bool_decide_eq_false_2 (r = r2 ∧ c = c2)) by naive_solver.
      intros Href2 Hxy2. destruct (H r2 c2 ref2 Href2 Hxy2) as (? & ? & _).
      lia.
    + rewrite (bool_decide_eq_false_2 (r = r1 ∧ c = c1 ∧ _)) by naive_solver.
      rewrite !(bool_decide_eq_false_2 (r = r1 ∧ c = c1)) by done.
      intros Href1 Hxy1. destruct (H r1 c1 ref1 Href1 Hxy1) as (? & ? & ? & Hd).
      split; [lia|]. split; [lia|]. split; [done|].
      intros r2 c2 ref2 Hne2. rewrite cell_at_set_cell.
      destruct (decide (r = r2 ∧ c = c2)) as [[<- <-]|Hne3].
      * rewrite !(bool_decide_eq_true_2 (r = r ∧ c = c)) by done.
        intros _ _. lia.
      * rewrite (bool_decide_eq_false_2 (r = r2 ∧ c = c2 ∧ _)) by naive_solver.
        rewrite !(bool_decide_eq_false_2 (r = r2 ∧ c = c2)) by done.
        intros Href2 Hxy2. by destruct (Hd r2 c2 ref2 Hne2 Href2 Hxy2).
  - assert (set_cell r c (Some ref) gr = gr) as ->.
    { apply list_eq. intros i. apply option_eq. intros row.
      unfold set_cell. rewrite list_lookup_alter.
      destruct (decide (r = i)) as [<-|]; [|done].
      unfold cell_at in Hout. destruct (gr !! r) as [row0|] eqn:Hrow; [|done].
      simpl in *. rewrite list_insert_ge; [done|].
      apply Nat.nlt_ge. intros Hlt. apply Hout. by apply lookup_lt_is_Some_2. }
    eapply xy_numbered_counters; [| |by exists n, m; eauto].
    + intros ? ?. simplify_eq. exists (n + 1).
      rewrite lookup_insert_ne, lookup_insert_eq by done. split; [done|lia].
    + intros ? ?. simplify_eq. exists (m + 1).
      rewrite lookup_insert_eq. split; [done|lia].
Qed.

Lemma counters_grow layout t xd yd ids layout' ids' ref k n :
  _init_subplot layout t xd yd (Some ids) = inr (layout', ids', ref) →
  k = "xaxis" ∨ k = "yaxis" →
  ids !! k = Some n → ∃ n', ids' !! k = Some n' ∧ n ≤ n'.
Proof.
  intros H Hk Hn. apply _init_subplot_inv in H. simpl in H.
  destruct H as [(n0 & m0 & _ & Hn0 & Hm0 & _ & -> & _)
                |[(s & n0 & _ & _ & _ & _ & -> & _)|(_ & _ & -> & _)]].
  - destruct Hk as [-> | ->].
    + rewrite lookup_insert_ne, lookup_insert_eq by done.
      eexists. split; [done|]. simplify_eq. lia.
    + rewrite lookup_insert_eq. eexists. split; [done|]. simplify_eq. lia.
  - exists n. split; [|lia]. by destruct Hk as [-> | ->]; rewrite lookup_insert_ne.
  - exists n. split; [done|lia].
Qed.

Lemma table_xy_numbered ds g specs insets shared_xaxes shared_yaxes :
  let st' := (build ds g specs insets shared_xaxes shared_yaxes
                (initial_state g insets)).1 in
  xy_numbered (max_subplot_ids st') (grid_ref st').
Proof.
  apply (build_inv (λ _ ids gr _, xy_numbered ids gr) ds g specs insets).
  - intros layout ids gr ir t xd yd layout' ids' ref r c l Hnum _ _ _ Hinit.
    pose proof Hinit as Hinv. apply _init_subplot_inv in Hinv. simpl in Hinv.
    destruct Hinv as [(n & m & _ & Hn & Hm & _ & -> & ->)
                     |[(s & n & _ & Hs & _ & _ & _ & ->)|(_ & _ & _ & ->)]].
    + by apply xy_numbered_new.
    + apply xy_numbered_other.
      { simpl. intros ->. unfold _subplot_types in Hs.
        repeat (apply elem_of_cons in Hs as [[=]|Hs]).
        by apply not_elem_of_nil in Hs. }
      eapply xy_numbered_counters; [| |done]; intros; eapply counters_grow; eauto.
    + apply xy_numbered_other; [done|].
      eapply xy_numbered_counters; [| |done]; intros; eapply counters_grow; eauto.
  - intros layout ids gr ir t xd yd layout' ids' ref i l Hnum _ _ Hinit.
    eapply xy_numbered_counters; [| |done]; intros; eapply counters_grow; eauto.
  - done.
  - exists 0, 0. split; [done|]. split; [done|]. exists (λ _ _, 0), (λ _ _, 0).
    simpl. intros r c ref Hc. by apply cell_at_replicate in Hc.
Qed.

(** In a figure [make_subplots] has returned, two different cells that
    hold xy subplots share no layout key: the x-axes and the y-axes of
    the grid are numbered apart. *)
Theorem xy_cells_share_no_layout_key flags a w w' fig r c r' c' ref ref' k :
  make_subplots flags a w = (w', inr fig) →
  cell_at (_grid_ref fig) r c = Some (Some ref) →
  cell_at (_grid_ref fig) r' c' = Some (Some ref') →
  (r, c) ≠ (r', c') →
  subplot_type ref = "xy" → subplot_type ref' = "xy" →
  k ∈ layout_keys ref → k ∉ layout_keys ref'.
Proof.
  intros Hrun Href Href' Hne Hxy Hxy' Hk Hk'.
  apply make_subplots_returns in Hrun
    as (g & ds & specs & insets & st & _ & _ & Hb & _ & _ & Hgr).
  pose proof (table_xy_numbered ds g specs insets (Args.shared_xaxes a)
                (Args.shared_yaxes a)) as Hnum.
  rewrite Hb in Hnum. simpl in Hnum. rewrite <- Hgr in Hnum.
  destruct Hnum as (n & m & _ & _ & ix & iy & H).
  destruct (H r c ref Href Hxy) as (_ & _ & Hkeys & Hd).
  destruct (H r' c' ref' Href' Hxy') as (_ & _ & Hkeys' & _).
  destruct (Hd r' c' ref' Hne Href' Hxy') as [Hix Hiy].
  rewrite Hkeys in Hk. rewrite Hkeys' in Hk'.
  apply elem_of_cons in Hk as [->|Hk];
    [|apply list_elem_of_singleton in Hk as ->];
    (apply elem_of_cons in Hk' as [Hk'|Hk'];
      [|apply list_elem_of_singleton in Hk']);
    simpl in Hk'; simplify_eq.
Qed.

Lemma xy_cells_share_no_layout_key_witness :
  "xaxis1" ∉ layout_keys (xy_ref "2" "2" (Some 1%nat)).
Proof.
  apply (xy_cells_share_no_layout_key v4 (Args.grid 2 1) empty_world
           two_rows_world two_rows_figure 0%nat 0%nat 1%nat 0%nat
           (xy_ref "1" "1" (Some 0%nat)) (xy_ref "2" "2" (Some 1%nat))).
  - vm_compute. reflexivity.
  - reflexivity.
  - reflexivity.
  - discriminate.
  - reflexivity.
  - reflexivity.
  - simpl. left.
Defined.

(** ** Indexing within the grid *)








(** ** No span error outside the loop through specs *)




Lemma validate_grid_not_span flags a e :
  validate_grid flags a = inl e → is_span_error e = false.
Proof.
  unfold validate_grid.
  case_bool_decide; [|by intros [= <-]]. simpl.
  case_bool_decide; [by intros [= <-]|].
  case_bool_decide; [by intros [= <-]|].
  destruct (bool_decide (Args.start_cell a = "bottom-left"));
    [|destruct (bool_decide (Args.start_cell a = "top-left"));
      [|by intros [= <-]]].
  all: simpl.
  all: match goal with |- context [sizes E_column_widths ?t ?n ?gv] =>
         destruct (sizes E_column_widths t n gv) as [e'|ws] eqn:Hws end;
    [intros [= <-]; by apply sizes_error in Hws as [-> | ->]|].
  all: simpl.
  all: match goal with |- context [sizes E_row_heights ?t ?n ?gv] =>
         destruct (sizes E_row_heights t n gv) as [e'|hs] eqn:Hhs end; [|done].
  all: intros [= <-]; by apply sizes_error in Hhs as [-> | ->].
Qed.




Lemma _check_keys_and_fill_error name arg defaults ds e :
  (_check_keys_and_fill name arg defaults ds).2 = inl e → e = E_invalid_key name.
Proof.
  rewrite _check_keys_and_fill_items.
  apply (for_each_error (λ e, e = E_invalid_key name)).
  intros [l|] s e0 _; unfold update_at; [|done].
  destruct (keys_ok defaults (deref s l)); [done|]. by intros [= <-].
Qed.

Lemma normalize_not_span g a ds ds' e :
  normalize g a ds = (ds', inl e) → is_span_error e = false.
Proof.
  unfold normalize. unfold m_bind at 1.
  destruct (normalize_specs g (Args.specs a) ds) as [ds1 [e1|specs]] eqn:Hs.
  { intros [= _ Heq]. subst e1. revert Hs. unfold normalize_specs.
    unfold m_bind at 1.
    set (start := match Args.specs a with Some _ => _ | None => _ end).
    destruct (start ds) as [ds0 [e0|specs0]] eqn:H0.
    { intros [= _ Heq]. subst e0 start.
      destruct (Args.specs a) as [specs|]; [|done].
      revert H0. case_match; [done|]. by intros [= _ <-]. }
    clear start H0. unfold m_bind at 1.
    destruct (for_each specs0 _ ds0) as [ds2 [e2|[]]] eqn:H2.
    { intros [= _ Heq]. subst e2.
      assert ((for_each specs0 (λ row, for_each row convert_is_3d) ds0).2 = inl e)
        as He by (by rewrite H2).
      revert He. apply (for_each_error (λ e, is_span_error e = false)).
      intros row s e0 _. apply (for_each_error (λ e, is_span_error e = false)).
      by intros [l|] s0 e3 _. }
    unfold m_bind, m_ret.
    destruct (_check_keys_and_fill _ _ _ ds2) as [ds3 [e3|[]]] eqn:H3; [|done].
    intros [= _ Heq]. subst e3.
    assert ((_check_keys_and_fill "specs" (Row <$> specs0) spec_defaults ds2).2
              = inl e) as He by (by rewrite H3).
    by apply _check_keys_and_fill_error in He as ->. }
  unfold m_bind at 1.
  destruct (normalize_insets (Args.insets a) ds1) as [ds2 [e2|insets]] eqn:Hi.
  { intros [= _ Heq]. subst e2. revert Hi. unfold normalize_insets.
    destruct (default [] (Args.insets a)) as [|inset insets]; [done|].
    unfold m_bind at 1.
    destruct (for_each (inset :: insets) _ ds1) as [ds3 [e3|[]]] eqn:H3.
    { intros [= _ Heq]. subst e3.
      assert ((for_each (inset :: insets)
                 (λ inset, convert_is_3d (Some inset)) ds1).2 = inl e)
        as He by (by rewrite H3).
      revert He. apply (for_each_error (λ e, is_span_error e = false)).
      by intros l s e0 _. }
    unfold m_bind, m_ret.
    destruct (_check_keys_and_fill _ _ _ ds3) as [ds4 [e4|[]]] eqn:H4; [|done].
    intros [= _ Heq]. subst e4.
    assert ((_check_keys_and_fill "insets" (Item <$> inset :: insets)
               inset_defaults ds3).2 = inl e) as He by (by rewrite H4).
    by apply _check_keys_and_fill_error in He as ->. }
  unfold m_bind, lift, m_ret. unfold validate_shared.
  intros H. res_cases H.
Qed.

(** ** Span errors *)












(** ** Title annotations *)

Lemma every_other_spec {A} (l : list A) :
  (∀ i, every_other l !! i = l !! (2 * i)%nat) ∧
  (∀ x i, every_other (x :: l) !! i = (x :: l) !! (2 * i)%nat).
Proof.
  induction l as [|y l [IH1 IH2]].
  - split; [done|]. by intros x [|i].
  - split; [apply IH2|].
    intros x [|i]; [done|]. simpl.
    replace (i + S (i + 0))%nat with (S (2 * i)) by lia. simpl. apply IH1.
Qed.

Lemma every_other_lookup {A} (l : list A) i :
  every_other l !! i = l !! (2 * i)%nat.
Proof. apply every_other_spec. Qed.

Lemma every_other_drop_lookup {A} (l : list A) i :
  every_other (drop 1 l) !! i = l !! (2 * i + 1)%nat.
Proof.
  rewrite every_other_lookup, lookup_drop. f_equal. lia.
Qed.

Lemma mapM_tres_fmap {A B} (f : A → tres B) (g : A → B) l :
  (∀ x, x ∈ l → f x = inr (g x)) → mapM f l = inr (g <$> l).
Proof.
  induction l as [|x l IH]; intros Hf; [done|].
  simpl. rewrite (Hf x) by left. simpl.
  rewrite IH; [done|]. intros y Hy. apply Hf. by right.
Qed.

Lemma middle_floats d : middle (as_nums d) = inr (NFloat (centre d)).
Proof. reflexivity. Qed.

Lemma every_other_fmap {A B} (f : A → B) (l : list A) :
  every_other (f <$> l) = f <$> every_other l.
Proof.
  apply list_eq. intros i.
  by rewrite list_lookup_fmap, !every_other_lookup, list_lookup_fmap.
Qed.

Lemma mapM_middle (l : list interval) :
  mapM middle (as_nums <$> l) = inr ((λ d, NFloat (centre d)) <$> l).
Proof.
  induction l as [|d l IH]; [done|].
  rewrite fmap_cons. cbn [mapM]. rewrite middle_floats, IH. done.
Qed.

Lemma titles_loop (body : nat * string → tres (option Annot.t))
    (place : nat * string → option (string * num * num)) l :
  (∀ x, x ∈ l → ∃ o, body x = inr o ∧ title_of <$> o = place x) →
  ∃ out, mapM body l = inr out ∧ title_of <$> omap id out = omap place l.
Proof.
  induction l as [|x l IH]; intros Hbody; [by exists []|].
  destruct (Hbody x) as (o & Ho & Hplace); [left|].
  destruct IH as (out & Hout & Hrest).
  { intros y Hy. apply Hbody. by right. }
  exists (o :: out). cbn [mapM]. rewrite Ho, Hout.
  split; [done|].
  change (omap place (x :: l))
    with (match place x with Some y => y :: omap place l | None => omap place l end).
  rewrite <- Hplace, <- Hrest. by destruct o.
Qed.

Lemma title_body (mk : num → num → Annot.t) (px py : list num) edge doms
    (fx fy : interval → num) i t :
  (∀ x y, title_of (mk x y) = (t, x, y)) →
  (∀ i, px !! i = fx <$> doms !! (2 * i)%nat) →
  (∀ i, py !! i = fy <$> doms !! (2 * i + 1)%nat) →
  (∀ d, fx d = NFloat (pos_x edge d)) →
  (∀ d, fy d = NFloat (pos_y edge d)) →
  ∃ o,
    (if bool_decide (t = "") || bool_decide (length py ≤ i)%nat
     then mret None
     else y ← item py i; x ← item px i; mret (Some (mk x y)))
      = (inr o : tres (option Annot.t)) ∧
    title_of <$> o = placed edge doms (i, t).
Proof.
  intros Hmk Hpx Hpy Hfx Hfy. unfold placed.
  case_bool_decide as Ht; [by exists None|]. simpl.
  destruct (py !! i) as [y|] eqn:Hy.
  - rewrite bool_decide_eq_false_2
      by (apply Nat.lt_nge; by eapply lookup_lt_Some).
    unfold item. rewrite Hy, Hpx. rewrite Hpy in Hy.
    destruct (doms !! (2 * i + 1)%nat) as [yd|] eqn:Hyd; [|done].
    injection Hy as <-.
    destruct (lookup_lt_is_Some_2 doms (2 * i)) as [xd Hxd].
    { apply lookup_lt_Some in Hyd. lia. }
    rewrite Hxd. simpl. eexists. split; [done|].
    change (i + (i + 0))%nat with (2 * i)%nat. rewrite Hxd, Hyd. simpl.
    by rewrite Hmk, Hfx, Hfy.
  - rewrite bool_decide_eq_true_2 by (by apply lookup_ge_None).
    exists None. split; [done|]. rewrite Hpy in Hy.
    change (i + (i + 0))%nat with (2 * i)%nat.
    destruct (doms !! (2 * i + 1)%nat); [done|].
    by destruct (doms !! (2 * i)%nat).
Qed.

Lemma annotations_of titles doms edge offset :
  edge ∈ title_edges →
  ∃ anns,
    _build_subplot_title_annotations titles (as_nums <$> doms) edge offset
      = inr anns ∧
    title_of <$> anns = omap (placed edge doms) (imap pair titles).
Proof.
  intros Hedge. unfold _build_subplot_title_annotations.
  rewrite <- fmap_drop, !every_other_fmap.
  assert (∀ i, (fst <$> (as_nums <$> every_other doms)) !! i
               = (λ d, NFloat d.1) <$> doms !! (2 * i)%nat) as Hx1.
  { intros i. by rewrite !list_lookup_fmap, every_other_lookup, <- option_fmap_compose. }
  assert (∀ i, (snd <$> (as_nums <$> every_other doms)) !! i
               = (λ d, NFloat d.2) <$> doms !! (2 * i)%nat) as Hx2.
  { intros i. by rewrite !list_lookup_fmap, every_other_lookup, <- option_fmap_compose. }
  assert (∀ i, ((λ d, NFloat (centre d)) <$> every_other doms) !! i
               = (λ d, NFloat (centre d)) <$> doms !! (2 * i)%nat) as Hxc.
  { intros i. by rewrite !list_lookup_fmap, every_other_lookup. }
  assert (∀ i, (fst <$> (as_nums <$> every_other (drop 1 doms))) !! i
               = (λ d, NFloat d.1) <$> doms !! (2 * i + 1)%nat) as Hy1.
  { intros i. by rewrite !list_lookup_fmap, every_other_drop_lookup,
                <- option_fmap_compose. }
  assert (∀ i, (snd <$> (as_nums <$> every_other (drop 1 doms))) !! i
               = (λ d, NFloat d.2) <$> doms !! (2 * i + 1)%nat) as Hy2.
  { intros i. by rewrite !list_lookup_fmap, every_other_drop_lookup,
                <- option_fmap_compose. }
  assert (∀ i, ((λ d, NFloat (centre d)) <$> every_other (drop 1 doms)) !! i
               = (λ d, NFloat (centre d)) <$> doms !! (2 * i + 1)%nat) as Hyc.
  { intros i. by rewrite !list_lookup_fmap, every_other_drop_lookup. }
  rewrite !mapM_middle.
  unfold title_edges in Hedge.
  repeat (apply elem_of_cons in Hedge as [->|Hedge]);
    [..|by apply not_elem_of_nil in Hedge]; simpl.
  all: match goal with |- context [mapM ?body (imap pair ?ts)] =>
         match goal with |- context [placed ?edge ?ds] =>
           destruct (titles_loop body (placed edge ds) (imap pair ts))
             as (out & Hout & Hrest)
         end
       end;
    [intros [i t] _; eapply title_body; [done|try done..]; by intros []
    |rewrite Hout; by exists (omap id out)].
Qed.

Lemma filter_titles edge doms titles k :
  (λ p : string * num * num, p.1.1) <$>
    omap (placed edge doms) (imap (λ i, pair (k + i)%nat) titles) =
  filter (λ t, t ≠ "") (take (length doms / 2 - k) titles).
Proof.
  revert k. induction titles as [|t titles IH]; intros k.
  { by rewrite take_nil. }
  rewrite imap_cons.
  assert (imap ((λ i, pair (k + i)%nat) ∘ S) titles
          = imap (λ i, pair (S k + i)%nat) titles) as ->.
  { apply imap_ext. intros i x _. simpl. f_equal. lia. }
  change (omap ?f (?x :: ?l))
    with (match f x with Some y => y :: omap f l | None => omap f l end).
  specialize (IH (S k)).
  destruct (decide (k < length doms / 2)%nat) as [Hk|Hk].
  - replace (length doms / 2 - k)%nat with (S (length doms / 2 - S k)) by lia.
    assert (2 * k + 1 < length doms)%nat as Hlt.
    { pose proof (Nat.div_mod_eq (length doms) 2).
      pose proof (Nat.mod_upper_bound (length doms) 2). lia. }
    destruct (lookup_lt_is_Some_2 doms (2 * k + 1)) as [yd Hyd]; [done|].
    destruct (lookup_lt_is_Some_2 doms (2 * k)) as [xd Hxd]; [lia|].
    unfold placed at 1. replace (k + 0)%nat with k by lia.
    rewrite Hxd, Hyd. simpl.
    case_bool_decide as Ht.
    + rewrite filter_cons_False by naive_solver. apply IH.
    + rewrite filter_cons_True by done. simpl. f_equal. apply IH.
  - replace (length doms / 2 - k)%nat with 0%nat in * by lia.
    replace (length doms / 2 - S k)%nat with 0%nat in IH by lia.
    rewrite take_0 in *.
    assert (placed edge doms ((k + 0)%nat, t) = None) as ->; [|done].
    unfold placed. case_bool_decide; [done|].
    replace (k + 0)%nat with k by lia.
    assert (doms !! (2 * k + 1)%nat = None) as ->.
    { apply lookup_ge_None.
      pose proof (Nat.div_mod_eq (length doms) 2).
      pose proof (Nat.mod_upper_bound (length doms) 2). lia. }
    by destruct (doms !! (2 * k)%nat).
Qed.

Lemma annotation_texts titles doms edge offset :
  edge ∈ title_edges →
  ∃ anns,
    _build_subplot_title_annotations titles (as_nums <$> doms) edge offset
      = inr anns ∧
    Annot.text <$> anns = filter (λ t, t ≠ "") (take (length doms / 2) titles).
Proof.
  intros Hedge.
  destruct (annotations_of titles doms edge offset Hedge) as (anns & Hrun & Hplaced).
  exists anns. split; [done|].
  pose proof (filter_titles edge doms titles 0) as Hf.
  rewrite Nat.sub_0_r in Hf. rewrite <- Hf.
  assert (imap (λ i, pair (0 + i)%nat) titles = imap pair titles) as ->
    by (by apply imap_ext).
  rewrite <- Hplaced, <- list_fmap_compose. done.
Qed.

Lemma invalid_edge titles doms edge offset :
  edge ∉ title_edges →
  _build_subplot_title_annotations titles doms edge offset
    = inl (E_annotation_edge edge).
Proof.
  intros Hedge. unfold _build_subplot_title_annotations, title_edges in *.
  repeat (rewrite bool_decide_eq_false_2; [|intros ->; apply Hedge; set_solver]).
  done.
Qed.

(** ** The domains the titles are put at *)

Lemma init_cell_domains ds g grid r c l st st' out :
  init_cell ds g grid (r, c, Some l) st = (st', out) →
  (domains_grid st' = domains_grid st ∧
   list_of_domains st' = list_of_domains st ∧ ∃ e, out = inl e) ∨
  (∃ xd yd,
     domains_grid st' = set_cell r c (Some (xd, yd)) (domains_grid st) ∧
     list_of_domains st' = (list_of_domains st ++ [xd; yd])%list).
Proof.
  unfold init_cell, m_bind, lift, modify, get.
  destruct (cell_domains g grid r c (deref ds l)) as [e|[xd yd]] eqn:Hd.
  { intros [= <- <-]. left. eauto. }
  intros H. right. exists xd, yd. revert H.
  destruct (field (deref ds l) "type") as [e|t] eqn:Ht; simpl.
  { by intros [= <- <-]. }
  destruct (_init_subplot _ _ _ _ _) as [e|[[layout' ids'] ref]] eqn:Hi.
  { by intros [= <- <-]. }
  by intros [= <- <-].
Qed.

Lemma init_inset_domains ds g grid i l st st' out :
  init_inset ds g grid (i, l) st = (st', out) →
  domains_grid st' = domains_grid st ∧
  ((list_of_domains st' = list_of_domains st ∧ ∃ e, out = inl e) ∨
   ∃ xd yd, list_of_domains st' = (list_of_domains st ++ [xd; yd])%list).
Proof.
  unfold init_inset, m_bind, lift, modify, get.
  destruct (inset_domains g grid (deref ds l)) as [e|[xd yd]] eqn:Hd.
  { intros [= <- <-]. split; [done|]. left. eauto. }
  intros H. enough (domains_grid st' = domains_grid st ∧
    list_of_domains st' = (list_of_domains st ++ [xd; yd])%list) as [? ?]
    by eauto.
  revert H.
  destruct (field (deref ds l) "type") as [e|t] eqn:Ht; simpl.
  { by intros [= <- <-]. }
  destruct (_init_subplot _ _ _ _ _) as [e|[[layout' ids'] ref]] eqn:Hi.
  { by intros [= <- <-]. }
  by intros [= <- <-].
Qed.

Lemma on_layout_domains {A} (m : M layout_t A) st :
  domains_grid (on_layout m st).1 = domains_grid st ∧
  list_of_domains (on_layout m st).1 = list_of_domains st.
Proof. unfold on_layout. by destruct (m (layout st)). Qed.

(** A property of the build state that every step of [build] keeps
    holds of the state [build] leaves, whether it returns or raises. *)
Lemma build_state_inv (P : build_state → Prop) ds g specs insets sx sy st0 :
  (∀ cell s, P s → P (init_cell ds g (grid_of g) cell s).1) →
  (∀ A (m : M layout_t A) s, P s → P (on_layout m s).1) →
  (∀ inset s, P s → P (init_inset ds g (grid_of g) inset s).1) →
  P st0 → P (build ds g specs insets sx sy st0).1.
Proof.
  intros Hcell Hlayout Hinset H0.
  unfold build. unfold m_bind at 1.
  pose proof (for_each_state P (cells specs) (init_cell ds g (grid_of g)) st0 H0)
    as H1.
  destruct (for_each (cells specs) _ st0) as [s1 [e|[]]];
    simpl in H1; [by apply H1; auto|].
  assert (P s1) as Hs1 by (apply H1; auto). clear H1.
  unfold m_bind at 1. unfold get at 1. unfold m_bind at 1.
  match goal with |- context [on_layout ?m s1] =>
    pose proof (Hlayout _ m s1 Hs1) as H2;
    destruct (on_layout m s1) as [s2 [e|[]]] end; [done|].
  unfold m_bind at 1.
  match goal with |- context [on_layout ?m s2] =>
    pose proof (Hlayout _ m s2 H2) as H3;
    destruct (on_layout m s2) as [s3 [e|[]]] end; [done|].
  unfold m_bind at 1.
  pose proof (for_each_state P (imap pair insets)
                (init_inset ds g (grid_of g)) s3 H3) as H4.
  destruct (for_each (imap pair insets) _ s3) as [s4 [e|[]]];
    simpl in H4; [by apply H4; auto|].
  unfold m_bind, get, lift. simpl. apply H4; auto.
Qed.

Lemma build_domains_grid ds g specs insets sx sy :
  let st := (build ds g specs insets sx sy (initial_state g insets)).1 in
  length (domains_grid st) = Z.to_nat (rows g) ∧
  rectangular (Z.to_nat (cols g)) (domains_grid st).
Proof.
  apply (build_state_inv (λ s, length (domains_grid s) = Z.to_nat (rows g) ∧
                               rectangular (Z.to_nat (cols g)) (domains_grid s))).
  - intros [[r c] [l|]] s [Hlen Hrect]; [|done].
    destruct (init_cell ds g (grid_of g) (r, c, Some l) s) as [s' out] eqn:Hc.
    simpl.
    apply init_cell_domains in Hc as [(-> & _)|(xd & yd & -> & _)]; [done|].
    rewrite set_cell_length. split; [done|]. by apply set_cell_rectangular.
  - intros A m s Hs. by rewrite (proj1 (on_layout_domains m s)).
  - intros [i l] s Hs.
    destruct (init_inset ds g (grid_of g) (i, l) s) as [s' out] eqn:Hc.
    simpl. by apply init_inset_domains in Hc as [-> _].
  - simpl. rewrite length_replicate. split; [done|]. apply replicate_rectangular.
Qed.

Lemma mapM_tres_returns {A B} (f : A → tres B) l :
  (∀ x, x ∈ l → ∃ y, f x = inr y) → ∃ ys, mapM f l = inr ys.
Proof.
  induction l as [|x l IH]; intros Hf; [by exists []|].
  destruct (Hf x) as [y Hy]; [left|].
  destruct IH as [ys Hys]; [intros z Hz; apply Hf; by right|].
  exists (y :: ys). cbn [mapM]. by rewrite Hy, Hys.
Qed.

Lemma extended_as_nums pairs : ∃ doms, extended pairs = as_nums <$> doms.
Proof.
  induction pairs as [|[[xd yd]|] pairs [doms IH]].
  - by exists [].
  - exists (xd :: yd :: doms).
    change (extended (Some (xd, yd) :: pairs))
      with (as_nums xd :: as_nums yd :: extended pairs).
    by rewrite IH.
  - exists doms. by rewrite <- IH.
Qed.

Lemma item_returns {A} (l : list A) i :
  (i < length l)%nat → ∃ x, item l i = inr x ∧ x ∈ l.
Proof.
  intros Hi. destruct (lookup_lt_is_Some_2 l i Hi) as [x Hx].
  exists x. unfold item. rewrite Hx. split; [done|].
  by eapply list_elem_of_lookup_2.
Qed.

Lemma last_item_returns {A} (l : list A) :
  (0 < length l)%nat → ∃ x, last_item l = inr x ∧ x ∈ l.
Proof.
  intros Hl. unfold last_item, py_index.
  rewrite bool_decide_eq_false_2 by lia.
  rewrite bool_decide_eq_true_2 by lia.
  destruct (lookup_lt_is_Some_2 l (Z.to_nat (Z.of_nat (length l) + -1)))
    as [x Hx]; [lia|].
  exists x. rewrite Hx. split; [done|]. by eapply list_elem_of_lookup_2.
Qed.

Lemma for_each_count {St X} (f : St → nat) (w : X → nat) (xs : list X)
    (body : X → M St unit) s s' :
  (∀ x t t', x ∈ xs → body x t = (t', inr tt) → f t' = (f t + w x)%nat) →
  for_each xs body s = (s', inr tt) →
  f s' = (f s + sum_list_with w xs)%nat.
Proof.
  revert s. induction xs as [|x xs IH]; intros s Hbody.
  { intros [= <-]. simpl. lia. }
  simpl. unfold m_bind.
  destruct (body x s) as [t [e|[]]] eqn:Hx; [done|].
  intros Hrest. apply IH in Hrest.
  - rewrite Hrest, (Hbody x s t); [|left|done].
    symmetry. apply Nat.add_assoc.
  - intros y u u' Hy. apply Hbody. by right.
Qed.

Lemma cells_specs {A} (specs : list (list A)) :
  (λ cell, cell.2) <$> cells specs = concat specs.
Proof.
  unfold cells.
  enough (∀ h : nat → nat,
    (λ cell : nat * nat * A, cell.2) <$>
      concat (imap (λ r spec_row, imap (λ c spec, (h r, c, spec)) spec_row) specs)
    = concat specs) as Hgen by apply (Hgen id).
  induction specs as [|row specs IH]; intros h; [done|].
  rewrite imap_cons. simpl. rewrite fmap_app. f_equal.
  - apply list_eq. intros i. rewrite list_lookup_fmap, list_lookup_imap.
    by destruct (row !! i).
  - apply (IH (h ∘ S)).
Qed.

Lemma sum_subplots (l : list (option loc)) :
  sum_list_with (λ spec, if spec is Some _ then 2 else 0)%nat l
  = (2 * length (omap id l))%nat.
Proof.
  induction l as [|[x|] l IH]; [done|..].
  - change (2 + sum_list_with (λ spec : option loc,
                                 if spec is Some _ then 2 else 0) l
            = 2 * S (length (omap id l)))%nat.
    rewrite IH. lia.
  - exact IH.
Qed.

Lemma cells_loop_domains ds g specs st st' :
  for_each (cells specs) (init_cell ds g (grid_of g)) st = (st', inr tt) →
  length (list_of_domains st') =
    (length (list_of_domains st) + 2 * length (subplots specs))%nat.
Proof.
  intros Hloop.
  apply (for_each_count (λ s, length (list_of_domains s))
           (λ cell, if cell.2 is Some _ then 2 else 0)%nat) in Hloop.
  - rewrite Hloop. clear Hloop. f_equal. unfold subplots.
    rewrite <- sum_subplots, <- cells_specs.
    induction (cells specs) as [|cell l IH]; [done|]. simpl. f_equal. exact IH.
  - intros [[r c] [l|]] t t' _ Hbody.
    + apply init_cell_domains in Hbody as [(_ & _ & e & ?)|(xd & yd & _ & ->)];
        [done|].
      rewrite length_app. simpl. lia.
    + injection Hbody as <-. simpl. lia.
Qed.

Lemma insets_loop_domains ds g insets st st' :
  for_each (imap pair insets) (init_inset ds g (grid_of g)) st = (st', inr tt) →
  length (list_of_domains st') =
    (length (list_of_domains st) + 2 * length insets)%nat.
Proof.
  intros Hloop.
  apply (for_each_count (λ s, length (list_of_domains s)) (λ _, 2%nat)) in Hloop.
  - rewrite Hloop. clear Hloop. f_equal.
    replace (length insets) with (length (imap pair insets))
      by apply length_imap.
    induction (imap pair insets) as [|x l IH]; simpl in *; lia.
  - intros [i l] t t' _ Hbody.
    apply init_inset_domains in Hbody as [_ [(_ & e & ?)|(xd & yd & ->)]];
      [done|].
    rewrite length_app. simpl. lia.
Qed.

Lemma build_list_of_domains ds g specs insets sx sy st :
  build ds g specs insets sx sy (initial_state g insets) = (st, inr tt) →
  length (list_of_domains st) =
    (2 * (length (subplots specs) + length insets))%nat.
Proof.
  intros Hb.
  apply build_returns in Hb as (s1 & s2 & s3 & H1 & H2 & H3 & H4 & _).
  apply cells_loop_domains in H1. apply insets_loop_domains in H4.
  apply (f_equal fst) in H2, H3. simpl in H2, H3.
  pose proof (on_layout_domains
    (_configure_shared_axes ds (grid_ref s1) X sx (row_dir g)) s1) as [_ Hl2].
  pose proof (on_layout_domains
    (_configure_shared_axes ds (grid_ref s1) Y sy (row_dir g)) s2) as [_ Hl3].
  rewrite H2 in Hl2. rewrite H3 in Hl3. simpl in H1.
  rewrite H4, Hl3, Hl2, H1. lia.
Qed.

(** Called with domains of floats, [_build_subplot_title_annotations]
    returns when the edge is one of ['top'], ['bottom'], ['right'] and
    ['left'], whatever the titles and however many domains there are (also
    an odd number of them, or fewer than the titles need); for any other
    edge it raises the [ValueError] of the invalid edge.  It never raises
    an [IndexError]. *)
Theorem title_annotations_outcome titles (doms : list interval) edge offset :
  match _build_subplot_title_annotations titles (as_nums <$> doms) edge offset with
  | inr _ => edge ∈ title_edges
  | inl e => (edge ∉ title_edges) ∧ e = E_annotation_edge edge
  end.
Proof.
  destruct (decide (edge ∈ title_edges)) as [Hedge|Hedge].
  - destruct (annotations_of titles doms edge offset Hedge) as (anns & -> & _).
    done.
  - by rewrite invalid_edge.
Qed.

(** The title at index [i] is put at the subplot whose x and y domains
    are the entries [2 i] and [2 i + 1] of the list of domains: the
    annotations that [_build_subplot_title_annotations] returns are, in
    the order of the titles, those of the titles that are not empty and
    have both domains, each with its title as text and at the position
    its edge gives (the middle of the x domain and an end of the y domain
    for ['top'] and ['bottom'], an end of the x domain and the middle of
    the y domain for ['right'] and ['left']). *)
Theorem titles_are_placed titles (doms : list interval) edge offset :
  edge ∈ title_edges →
  ∃ anns,
    _build_subplot_title_annotations titles (as_nums <$> doms) edge offset
      = inr anns ∧
    title_of <$> anns = omap (placed edge doms) (imap pair titles).
Proof. apply annotations_of. Qed.

Lemma titles_are_placed_witness :
  ∃ anns,
    _build_subplot_title_annotations ["A"; ""; "B"; "C"]
      (as_nums <$> [(0, 0.45); (0.625, 1); (0.55, 1); (0.625, 1);
                    (0, 0.45); (0, 0.375)]%float) "top" 0
      = inr anns ∧
    title_of <$> anns =
      omap (placed "top" [(0, 0.45); (0.625, 1); (0.55, 1); (0.625, 1);
                          (0, 0.45); (0, 0.375)]%float)
        (imap pair ["A"; ""; "B"; "C"]).
Proof.
  apply (titles_are_placed ["A"; ""; "B"; "C"]
           [(0, 0.45); (0.625, 1); (0.55, 1); (0.625, 1);
            (0, 0.45); (0, 0.375)]%float "top" 0).
  unfold title_edges. left.
Defined.

(** The texts of the annotations are the titles that are not empty among
    the first [len(list_of_domains) // 2] titles, in their order: a title
    beyond the pairs of domains is dropped without an error, and an empty
    title is skipped but still takes the place of its subplot. *)
Theorem titles_beyond_the_domains_are_dropped titles (doms : list interval)
    edge offset :
  edge ∈ title_edges →
  ∃ anns,
    _build_subplot_title_annotations titles (as_nums <$> doms) edge offset
      = inr anns ∧
    Annot.text <$> anns = filter (λ t, t ≠ "") (take (length doms / 2) titles).
Proof. apply annotation_texts. Qed.

Lemma titles_beyond_the_domains_are_dropped_witness :
  ∃ anns,
    _build_subplot_title_annotations ["A"; ""; "B"; "C"]
      (as_nums <$> [(0, 0.45); (0.625, 1); (0.55, 1); (0.625, 1);
                    (0, 0.45)]%float) "right" 0
      = inr anns ∧
    Annot.text <$> anns =
      filter (λ t, t ≠ "")
        (take (length [(0, 0.45); (0.625, 1); (0.55, 1); (0.625, 1);
                       (0, 0.45)]%float / 2) ["A"; ""; "B"; "C"]).
Proof.
  apply (titles_beyond_the_domains_are_dropped ["A"; ""; "B"; "C"]
           [(0, 0.45); (0.625, 1); (0.55, 1); (0.625, 1); (0, 0.45)]%float
           "right" 0).
  unfold title_edges. do 2 right. left.
Defined.

(** After the grid arguments have passed their validation, the title
    annotations of [make_subplots] (subplot, column and row titles, x and
    y title) are computed without an exception from the state the
    building of the figure leaves: every [domains_grid[-1][c]],
    [domains_grid[0][c]] and [domains_grid[r][-1]] is in range, and
    every edge passed is a valid one. *)
Theorem make_subplots_titles_return flags a g ds specs insets sx sy :
  validate_grid flags a = inr g →
  ∃ anns,
    title_annotations a g
      (build ds g specs insets sx sy (initial_state g insets)).1 = inr anns.
Proof.
  intros Hv.
  apply validate_grid_inv in Hv as (_ & _ & _ & Hrows & Hcols & _).
  destruct (build_domains_grid ds g specs insets sx sy) as [Hlen Hrect].
  simpl in Hlen, Hrect.
  set (st := (build ds g specs insets sx sy (initial_state g insets)).1) in *.
  assert (∀ edge pairs titles anns0, edge ∈ title_edges → ∃ anns,
            (column_title_annotations ←
               _build_subplot_title_annotations titles (extended pairs) edge 0;
             mret (anns0 ++ column_title_annotations)%list)
            = (inr anns : tres (list Annot.t))) as Hext.
  { intros edge pairs titles anns0 Hedge.
    destruct (extended_as_nums pairs) as [doms ->].
    destruct (annotations_of titles doms edge 0 Hedge) as (anns & -> & _).
    by eexists. }
  assert (∀ row, row ∈ domains_grid st → length row = Z.to_nat (cols g))
    as Hrow.
  { intros row. revert row. by apply Forall_forall. }
  unfold title_annotations. cbv zeta.
  match goal with
  | |- context [_build_subplot_title_annotations ?titles
                  (as_nums <$> list_of_domains st) "top" 0] =>
      destruct (annotations_of titles (list_of_domains st) "top" 0)
        as (anns1 & -> & _); [set_solver|]
  end.
  cbn [mbind tres_bind].
  match goal with |- ∃ anns, ?m ≫= _ = _ =>
    assert (∃ x, m = inr x) as [anns2 ->] end.
  { case_bool_decide; [by eexists|].
    match goal with |- context [mapM ?f ?l] =>
      destruct (mapM_tres_returns f l) as [pairs ->] end; [|by apply Hext; set_solver].
    intros c Hc. apply elem_of_seq in Hc.
    assert (∃ row, (if bool_decide (0 < row_dir g)
                    then last_item (domains_grid st)
                    else item (domains_grid st) 0) = inr row
                   ∧ row ∈ domains_grid st) as (row & -> & Hin).
    { case_bool_decide; [apply last_item_returns|apply item_returns]; lia. }
    cbn [mbind tres_bind].
    destruct (item_returns row c) as (p & -> & _); [|by eexists].
    rewrite (Hrow row Hin). lia. }
  cbn [mbind tres_bind].
  match goal with |- ∃ anns, ?m ≫= _ = _ =>
    assert (∃ x, m = inr x) as [anns3 ->] end.
  { case_bool_decide; [by eexists|].
    match goal with |- context [mapM ?f ?l] =>
      destruct (mapM_tres_returns f l) as [pairs ->] end; [|by apply Hext; set_solver].
    intros r Hr.
    assert (r < Z.to_nat (rows g))%nat as Hlt.
    { case_bool_decide; [rewrite elem_of_reverse in Hr|];
        apply elem_of_seq in Hr; lia. }
    destruct (item_returns (domains_grid st) r) as (row & -> & Hin); [lia|].
    cbn [mbind tres_bind].
    destruct (last_item_returns row) as (p & -> & _); [|by eexists].
    rewrite (Hrow row Hin). lia. }
  cbn [mbind tres_bind].
  match goal with |- ∃ anns, ?m ≫= _ = _ =>
    assert (∃ x, m = inr x) as [anns4 ->] end.
  { case_bool_decide as Hx; [by eexists|].
    unfold _build_subplot_title_annotations. simpl.
    rewrite bool_decide_eq_false_2 by done. simpl. by eexists. }
  cbn [mbind tres_bind].
  case_bool_decide as Hy; [by eexists|].
  unfold _build_subplot_title_annotations. simpl.
  rewrite bool_decide_eq_false_2 by done. simpl. by eexists.
Qed.

Lemma make_subplots_titles_return_witness :
  ∃ anns,
    title_annotations (Args.grid 1 1) one_cell
      (build [spec_with []] one_cell [[Some 0%nat]] [] (VBool false)
         (VBool false) (initial_state one_cell [])).1 = inr anns.
Proof.
  apply (make_subplots_titles_return v4 (Args.grid 1 1) one_cell
           [spec_with []] [[Some 0%nat]] [] (VBool false) (VBool false)).
  vm_compute. reflexivity.
Defined.

(** When the figure has been built, [subplot_titles] is matched against
    the subplots in the order they were created: the cells of [specs]
    that are not [None], row by row, and then the insets.  The subplot
    title annotations carry the titles that are not empty among the first
    so many, and titles beyond the number of subplots are dropped. *)
Theorem subplot_titles_follow_the_subplots ds g specs insets sx sy st titles :
  build ds g specs insets sx sy (initial_state g insets) = (st, inr tt) →
  ∃ anns,
    _build_subplot_title_annotations titles (as_nums <$> list_of_domains st)
      "top" 0 = inr anns ∧
    Annot.text <$> anns =
      filter (λ t, t ≠ "")
        (take (length (subplots specs) + length insets) titles).
Proof.
  intros Hb. apply build_list_of_domains in Hb.
  destruct (annotation_texts titles (list_of_domains st) "top" 0)
    as (anns & Hrun & Htexts); [set_solver|].
  exists anns. split; [done|]. rewrite Htexts, Hb.
  by rewrite (Nat.mul_comm 2), Nat.div_mul.
Qed.

Lemma subplot_titles_follow_the_subplots_witness :
  ∃ anns,
    _build_subplot_title_annotations ["A"; "B"]
      (as_nums <$> list_of_domains
         (build [spec_with []] one_cell [[Some 0%nat]] [] (VBool false)
            (VBool false) (initial_state one_cell [])).1)
      "top" 0 = inr anns ∧
    Annot.text <$> anns =
      filter (λ t, t ≠ "")
        (take (length (subplots [[Some 0%nat]]) + length ([] : list loc))
           ["A"; "B"]).
Proof.
  apply (subplot_titles_follow_the_subplots [spec_with []] one_cell
           [[Some 0%nat]] [] (VBool false) (VBool false)
           (build [spec_with []] one_cell [[Some 0%nat]] [] (VBool false)
              (VBool false) (initial_state one_cell [])).1 ["A"; "B"]).
  vm_compute. reflexivity.
Defined.

(** ** Linked axes match the first one *)

Section links.
Context (ds : list dict) (grid_ref : list (list (option ref_element)))
  (x_or_y : axis_letter) (remove_label : bool).

Lemma link_step first r c layout layout' first' :
  (do ref <- lift (ref_at grid_ref r c);
   update_axis_matches ds x_or_y first ref remove_label) layout
    = (layout', inr first') →
  match link_key ds grid_ref x_or_y r c with
  | None => first' = first ∧ layout' = layout
  | Some k =>
      match first with
      | None => first' = Some (replace "axis" "" k) ∧ layout' = layout
      | Some id =>
          first' = Some id ∧
          ∃ a, layout !! k = Some (Axis a) ∧
            layout' = <[k := Axis (set_matches id remove_label a)]> layout
      end
  end.
Proof.
  unfold link_key, m_bind, lift.
  destruct (ref_at grid_ref r c) as [e|[ref|]]; [done| |by intros [= <- <-]].
  unfold update_axis_matches, m_bind, lift, modify, get, m_ret, field.
  destruct (spec ref) as [l|]; simpl; [|done].
  destruct (deref ds l !! span_key x_or_y) as [v|]; simpl; [|done].
  destruct (bool_decide (subplot_type ref = "xy") && py_eq v (VInt 1));
    [|by intros [= <- <-]].
  destruct (layout_keys ref !! layout_key_ind x_or_y) as [k|]; simpl.
  - destruct first as [id|]; [|by intros [= <- <-]].
    destruct (layout !! k) as [[a|x y]|]; simpl; try done.
    intros [= <- <-]. eauto.
  - by destruct first.
Qed.

Lemma matched_nil id layout : matched id remove_label [] layout layout.
Proof. intros k. split; [|done]. by intros ?%not_elem_of_nil. Qed.

Lemma matched_cons id k keys a layout layout' :
  layout !! k = Some (Axis a) →
  matched id remove_label keys
    (<[k := Axis (set_matches id remove_label a)]> layout) layout' →
  matched id remove_label (k :: keys) layout layout'.
Proof.
  intros Hk Hrest k'. destruct (Hrest k') as [Hin Hout]. split.
  - intros Hk'. destruct (decide (k' ∈ keys)) as [Hkeys|Hkeys].
    + destruct (Hin Hkeys) as (a' & Ha' & Hl').
      destruct (decide (k' = k)) as [->|Hne].
      * rewrite lookup_insert_eq in Ha'. injection Ha' as <-.
        exists a. split; [done|]. rewrite Hl'. by destruct remove_label.
      * rewrite lookup_insert_ne in Ha' by done. eauto.
    + apply elem_of_cons in Hk' as [->|?]; [|done].
      exists a. split; [done|]. rewrite Hout by done.
      by rewrite lookup_insert_eq.
  - intros Hk'. apply not_elem_of_cons in Hk' as [Hne Hkeys].
    rewrite Hout by done. by rewrite lookup_insert_ne.
Qed.

Context {X : Type} (pos : X → nat * nat).

Let step (first : option string) (x : X) : M layout_t (option string) :=
  do ref <- lift (ref_at grid_ref (pos x).1 (pos x).2);
  update_axis_matches ds x_or_y first ref remove_label.

Let keys (xs : list X) : list string :=
  omap (λ x, link_key ds grid_ref x_or_y (pos x).1 (pos x).2) xs.

Lemma link_fold_from id xs layout layout' first' :
  for_fold xs (Some id) step layout = (layout', inr first') →
  first' = Some id ∧ matched id remove_label (keys xs) layout layout'.
Proof.
  revert layout. induction xs as [|x xs IH]; intros layout.
  { intros [= <- <-]. split; [done|]. apply matched_nil. }
  simpl. unfold m_bind at 1.
  destruct (step (Some id) x layout) as [layout1 [e|first1]] eqn:Hstep; [done|].
  intros Hrest. apply link_step in Hstep. unfold keys.
  change (omap ?f (x :: xs))
    with (match f x with Some y => y :: omap f xs | None => omap f xs end).
  destruct (link_key ds grid_ref x_or_y (pos x).1 (pos x).2) as [k|].
  - destruct Hstep as (-> & a & Ha & ->).
    apply IH in Hrest as [-> Hrest]. split; [done|].
    by eapply matched_cons.
  - destruct Hstep as [-> ->]. by apply IH.
Qed.

Lemma link_fold xs layout layout' first' :
  for_fold xs None step layout = (layout', inr first') →
  match keys xs with
  | [] => layout' = layout
  | k0 :: rest => matched (replace "axis" "" k0) remove_label rest layout layout'
  end.
Proof.
  revert layout. induction xs as [|x xs IH]; intros layout.
  { by intros [= <- <-]. }
  simpl. unfold m_bind at 1.
  destruct (step None x layout) as [layout1 [e|first1]] eqn:Hstep; [done|].
  intros Hrest. apply link_step in Hstep. unfold keys.
  change (omap ?f (x :: xs))
    with (match f x with Some y => y :: omap f xs | None => omap f xs end).
  destruct (link_key ds grid_ref x_or_y (pos x).1 (pos x).2) as [k|].
  - destruct Hstep as [-> ->]. by apply link_fold_from in Hrest as [_ ?].
  - destruct Hstep as [-> ->]. by apply IH.
Qed.

End links.

Section groups.
Context (ds : list dict) (grid_ref : list (list (option ref_element)))
  (x_or_y : axis_letter) (remove_label : bool).
Context {X Y : Type} `{EqDecision Y} (xs : Y → list X) (pos : Y → X → nat * nat).

(** One group of cells whose axes are linked: a column or a row. *)
Let group (y : Y) : M layout_t unit :=
  do _ <- for_fold (xs y) None (λ first_axis_id x,
    do ref <- lift (ref_at grid_ref (pos y x).1 (pos y x).2);
    update_axis_matches ds x_or_y first_axis_id ref remove_label);
  m_ret tt.

Let keys (y : Y) : list string :=
  omap (λ x, link_key ds grid_ref x_or_y (pos y x).1 (pos y x).2) (xs y).

Lemma link_group y layout layout' :
  group y layout = (layout', inr tt) →
  match keys y with
  | [] => layout' = layout
  | k0 :: rest => matched (replace "axis" "" k0) remove_label rest layout layout'
  end.
Proof.
  unfold group, m_bind, m_ret.
  destruct (for_fold (xs y) None _ layout) as [layout1 [e|first]] eqn:Hfold;
    [done|].
  intros [= <-]. by apply link_fold in Hfold.
Qed.

Lemma link_groups_frame ys layout layout' k :
  for_each ys group layout = (layout', inr tt) →
  (∀ y, y ∈ ys → k ∉ keys y) →
  layout' !! k = layout !! k.
Proof.
  revert layout. induction ys as [|y ys IH]; intros layout.
  { by intros [= <-]. }
  simpl. unfold m_bind at 1.
  destruct (group y layout) as [layout1 [e|[]]] eqn:Hy; [done|].
  intros Hrest Hk. rewrite (IH layout1 Hrest).
  - apply link_group in Hy.
    pose proof (Hk y (list_elem_of_here _ _)) as Hky.
    destruct (keys y) as [|k0 rest]; [by subst|].
    apply Hy. by apply not_elem_of_cons in Hky as [_ ?].
  - intros y' Hy'. apply Hk. by right.
Qed.

Lemma link_groups ys layout layout' y k0 rest k :
  for_each ys group layout = (layout', inr tt) →
  (∀ y1 y2 k, y1 ∈ ys → y2 ∈ ys → k ∈ keys y1 → k ∈ keys y2 → y1 = y2) →
  y ∈ ys → keys y = k0 :: rest → k ∈ rest →
  ∃ a, layout' !! k = Some (Axis a) ∧
    matches a = Some (replace "axis" "" k0) ∧
    (remove_label = true → showticklabels a = Some false).
Proof.
  revert layout. induction ys as [|y' ys IH]; intros layout Hrun Hdisj Hy Hkeys Hk.
  { by apply not_elem_of_nil in Hy. }
  simpl in Hrun. unfold m_bind in Hrun.
  destruct (group y' layout) as [layout1 [e|[]]] eqn:Hy'; [done|].
  destruct (decide (y ∈ ys)) as [Hin|Hnotin].
  { apply (IH layout1); try done.
    intros y1 y2 k' H1 H2. apply Hdisj; by right. }
  apply elem_of_cons in Hy as [<-|?]; [|done].
  apply link_group in Hy'. rewrite Hkeys in Hy'.
  destruct (Hy' k) as [Hmatched _].
  destruct (Hmatched Hk) as (a & Ha & Ha1).
  exists (set_matches (replace "axis" "" k0) remove_label a).
  split; [|split; [done|by intros ->]].
  rewrite <- Ha1. apply (link_groups_frame ys layout1); [done|].
  intros y2 Hy2 Hk2. apply Hnotin.
  rewrite (Hdisj y y2 k); [done|by left|by right| |done].
  rewrite Hkeys. by right.
Qed.

End groups.

(** When the axes are shared within each column ([shared] is ['columns'],
    or [True] for the x axes) and [_configure_shared_axes] returns, then
    in every column every axis the linking works on, other than the
    first one in the order the rows are visited, matches that first one;
    for the x axes its tick labels are hidden too.  The keys of the linked
    axes of different columns are assumed to differ. *)
Theorem shared_columns_match_first ds grid_ref x_or_y shared row_dir
    layout layout' cols c k0 rest k :
  py_eq shared (VStr "columns") || (bool_decide (x_or_y = X) && is_True shared)
    = true →
  _configure_shared_axes ds grid_ref x_or_y shared row_dir layout
    = (layout', inr tt) →
  (∀ c1 c2 k,
     k ∈ column_keys ds grid_ref x_or_y row_dir c1 →
     k ∈ column_keys ds grid_ref x_or_y row_dir c2 → c1 = c2) →
  ncols grid_ref = inr cols → (c < cols)%nat →
  column_keys ds grid_ref x_or_y row_dir c = k0 :: rest →
  k ∈ rest →
  ∃ a, layout' !! k = Some (Axis a) ∧
    matches a = Some (replace "axis" "" k0) ∧
    (x_or_y = X → showticklabels a = Some false).
Proof.
  intros Hmode Hrun Hdisj Hcols Hc Hkeys Hk.
  unfold _configure_shared_axes in Hrun.
  unfold m_bind at 1 in Hrun. unfold lift at 1 in Hrun.
  rewrite Hcols, Hmode in Hrun.
  destruct (link_groups ds grid_ref x_or_y (bool_decide (x_or_y = X))
              (λ _, rows_iter grid_ref row_dir) (λ c r, (r, c))
              (seq 0 cols) layout layout' c k0 rest k)
    as (a & Ha & Hm & Hl); try done.
  - intros c1 c2 k' _ _ H1 H2. exact (Hdisj c1 c2 k' H1 H2).
  - apply elem_of_seq. lia.
  - exists a. split; [done|]. split; [done|].
    intros HX. apply Hl. by apply bool_decide_eq_true_2.
Qed.

Lemma shared_columns_match_first_witness :
  ∃ a, (_configure_shared_axes (dicts two_rows_world)
          (_grid_ref two_rows_figure) X (VBool true) (-1) two_rows_layout).1
         !! "xaxis1" = Some (Axis a) ∧
    matches a = Some (replace "axis" "" "xaxis2") ∧
    (X = X → showticklabels a = Some false).
Proof.
  apply (shared_columns_match_first (dicts two_rows_world)
           (_grid_ref two_rows_figure) X (VBool true) (-1) two_rows_layout
           _ 1%nat 0%nat "xaxis2" ["xaxis1"] "xaxis1").
  - reflexivity.
  - vm_compute. reflexivity.
  - intros [|c1] [|c2] k; try done; vm_compute;
      intros H1 H2; by apply not_elem_of_nil in H1 || apply not_elem_of_nil in H2.
  - reflexivity.
  - lia.
  - vm_compute. reflexivity.
  - left.
Defined.

(** When the axes are shared within each row ([shared] is ['rows'], or
    [True] for the y axes) and [_configure_shared_axes] returns, then in
    every row every axis the linking works on, other than the leftmost
    one, matches that leftmost one; for the y axes its tick labels are
    hidden too.  The keys of the linked axes of different rows are
    assumed to differ. *)
Theorem shared_rows_match_first ds grid_ref x_or_y shared row_dir
    layout layout' cols r k0 rest k :
  py_eq shared (VStr "columns") || (bool_decide (x_or_y = X) && is_True shared)
    = false →
  py_eq shared (VStr "rows") || (bool_decide (x_or_y = Y) && is_True shared)
    = true →
  _configure_shared_axes ds grid_ref x_or_y shared row_dir layout
    = (layout', inr tt) →
  ncols grid_ref = inr cols →
  (∀ r1 r2 k,
     k ∈ row_keys ds grid_ref x_or_y cols r1 →
     k ∈ row_keys ds grid_ref x_or_y cols r2 → r1 = r2) →
  (r < length grid_ref)%nat →
  row_keys ds grid_ref x_or_y cols r = k0 :: rest →
  k ∈ rest →
  ∃ a, layout' !! k = Some (Axis a) ∧
    matches a = Some (replace "axis" "" k0) ∧
    (x_or_y = Y → showticklabels a = Some false).
Proof.
  intros Hcolumns Hmode Hrun Hcols Hdisj Hr Hkeys Hk.
  unfold _configure_shared_axes in Hrun.
  unfold m_bind at 1 in Hrun. unfold lift at 1 in Hrun.
  rewrite Hcols, Hcolumns, Hmode in Hrun.
  destruct (link_groups ds grid_ref x_or_y (bool_decide (x_or_y = Y))
              (λ _, seq 0 cols) (λ r c, (r, c))
              (if bool_decide (row_dir < 0)
               then reverse (seq 0 (length grid_ref))
               else seq 0 (length grid_ref)) layout layout' r k0 rest k)
    as (a & Ha & Hm & Hl); try done.
  - intros r1 r2 k' _ _ H1 H2. exact (Hdisj r1 r2 k' H1 H2).
  - case_bool_decide; [rewrite elem_of_reverse|]; apply elem_of_seq; lia.
  - exists a. split; [done|]. split; [done|].
    intros HY. apply Hl. by apply bool_decide_eq_true_2.
Qed.

Lemma shared_rows_match_first_witness :
  ∃ a, (_configure_shared_axes (dicts two_rows_world) one_row_table Y
          (VBool true) (-1) one_row_layout).1
         !! "yaxis2" = Some (Axis a) ∧
    matches a = Some (replace "axis" "" "yaxis1") ∧
    (Y = Y → showticklabels a = Some false).
Proof.
  apply (shared_rows_match_first (dicts two_rows_world) one_row_table Y
           (VBool true) (-1) one_row_layout _ 2%nat 0%nat "yaxis1" ["yaxis2"]
           "yaxis2").
  - reflexivity.
  - reflexivity.
  - vm_compute. reflexivity.
  - reflexivity.
  - intros [|r1] [|r2] k; try done; vm_compute;
      intros H1 H2; by apply not_elem_of_nil in H1 || apply not_elem_of_nil in H2.
  - simpl. lia.
  - vm_compute. reflexivity.
  - left.
Defined.

Section all_linked.
Context (ds : list dict) (grid_ref : list (list (option ref_element)))
  (x_or_y : axis_letter).

Lemma linked_nil id layout : linked id [] layout layout.
Proof. intros k. split; [|done]. by intros ?%not_elem_of_nil. Qed.

Lemma linked_cons id remove_label k keys a layout layout' :
  linked id keys (<[k := Axis (set_matches id remove_label a)]> layout) layout' →
  linked id (k :: keys) layout layout'.
Proof.
  intros Hrest k'. destruct (Hrest k') as [Hin Hout]. split.
  - intros Hk'. destruct (decide (k' ∈ keys)) as [Hkeys|Hkeys]; [auto|].
    apply elem_of_cons in Hk' as [->|?]; [|done].
    rewrite Hout by done. rewrite lookup_insert_eq. by eexists.
  - intros Hk'. apply not_elem_of_cons in Hk' as [Hne Hkeys].
    rewrite Hout by done. by rewrite lookup_insert_ne.
Qed.

Lemma linked_app id keys1 keys2 layout layout1 layout2 :
  linked id keys1 layout layout1 → linked id keys2 layout1 layout2 →
  linked id (keys1 ++ keys2) layout layout2.
Proof.
  intros H1 H2 k. destruct (H1 k) as [Hin1 Hout1], (H2 k) as [Hin2 Hout2].
  split.
  - intros Hk. destruct (decide (k ∈ keys2)) as [Hk2|Hk2]; [auto|].
    apply elem_of_app in Hk as [Hk1|?]; [|done].
    rewrite Hout2 by done. auto.
  - intros Hk. apply not_elem_of_app in Hk as [Hk1 Hk2].
    rewrite Hout2 by done. auto.
Qed.

Context {X : Type} (pos : X → nat * nat) (remove_label : X → bool).

Let step (first : option string) (x : X) : M layout_t (option string) :=
  do ref <- lift (ref_at grid_ref (pos x).1 (pos x).2);
  update_axis_matches ds x_or_y first ref (remove_label x).

Let keys (xs : list X) : list string :=
  omap (λ x, link_key ds grid_ref x_or_y (pos x).1 (pos x).2) xs.

Lemma link_fold_any xs first layout layout' first' :
  for_fold xs first step layout = (layout', inr first') →
  left_by first first' (keys xs) layout layout'.
Proof.
  revert first layout. induction xs as [|x xs IH]; intros first layout.
  { intros [= <- <-]. destruct first; [|done]. split; [done|]. apply linked_nil. }
  simpl. unfold m_bind at 1.
  destruct (step first x layout) as [layout1 [e|first1]] eqn:Hstep; [done|].
  intros Hrest. apply link_step in Hstep. apply IH in Hrest. unfold keys.
  change (omap ?f (x :: xs))
    with (match f x with Some y => y :: omap f xs | None => omap f xs end).
  destruct (link_key ds grid_ref x_or_y (pos x).1 (pos x).2) as [k|].
  - destruct first as [id|].
    + destruct Hstep as (-> & a & Ha & ->). destruct Hrest as [-> Hrest].
      split; [done|]. by eapply linked_cons.
    + destruct Hstep as [-> ->]. done.
  - by destruct Hstep as [-> ->].
Qed.

Lemma left_by_app first first1 first2 keys1 keys2 layout layout1 layout2 :
  left_by first first1 keys1 layout layout1 →
  left_by first1 first2 keys2 layout1 layout2 →
  left_by first first2 (keys1 ++ keys2) layout layout2.
Proof.
  unfold left_by at 1 3. destruct first as [id|].
  - intros [-> H1] [-> H2]. split; [done|]. by eapply linked_app.
  - destruct keys1 as [|k0 rest].
    + by intros [-> ->].
    + intros [-> H1] [-> H2]. split; [done|]. by eapply linked_app.
Qed.

End all_linked.

Lemma for_fold_ext {S X A} (xs : list X) (a : A) (body body' : A → X → M S A) s :
  (∀ a x s, body a x s = body' a x s) →
  for_fold xs a body s = for_fold xs a body' s.
Proof.
  intros Hext. revert a s. induction xs as [|x xs IH]; intros a s; [done|].
  simpl. unfold m_bind. rewrite Hext.
  destruct (body' a x s) as [t [e|a']]; [done|]. apply IH.
Qed.

Section all_groups.
Context (ds : list dict) (grid_ref : list (list (option ref_element)))
  (x_or_y : axis_letter).
Context {X Y : Type} (xs : Y → list X) (pos : Y → X → nat * nat)
  (remove_label : Y → X → bool).

Lemma link_fold_groups ys first layout layout' first' :
  for_fold ys first (λ first_axis_id y,
    for_fold (xs y) first_axis_id (λ first_axis_id x,
      do ref <- lift (ref_at grid_ref (pos y x).1 (pos y x).2);
      update_axis_matches ds x_or_y first_axis_id ref (remove_label y x)))
    layout = (layout', inr first') →
  left_by first first'
    (concat ((λ y, omap (λ x, link_key ds grid_ref x_or_y (pos y x).1 (pos y x).2)
                     (xs y)) <$> ys))
    layout layout'.
Proof.
  revert first layout. induction ys as [|y ys IH]; intros first layout.
  { intros [= <- <-]. destruct first; [|done]. split; [done|]. apply linked_nil. }
  simpl. unfold m_bind at 1.
  destruct (for_fold (xs y) first _ layout) as [layout1 [e|first1]] eqn:Hy;
    [done|].
  intros Hrest. apply IH in Hrest.
  apply (link_fold_any ds grid_ref x_or_y (pos y) (remove_label y)) in Hy.
  by eapply left_by_app.
Qed.

End all_groups.

Lemma omap_imap_pair {A B} (f : A → option B) (l : list A) :
  omap (λ x : nat * A, f x.2) (imap pair l) = omap f l.
Proof.
  enough (∀ h : nat → nat,
    omap (λ x : nat * A, f x.2) (imap (λ i, pair (h i)) l) = omap f l) as Hgen
    by apply (Hgen id).
  induction l as [|x l IH]; intros h; [done|].
  rewrite imap_cons.
  change (omap ?g (?y :: ?t))
    with (match g y with Some z => z :: omap g t | None => omap g t end).
  cbn beta. change ((h 0%nat, x).2) with x.
  destruct (f x); [f_equal|]; exact (IH (h ∘ S)).
Qed.

(** When all axes are shared ([shared == 'all']) and
    [_configure_shared_axes] returns, every axis the linking works on,
    other than the first one it visits (column by column, the rows in
    their order), matches that first one. *)
Theorem shared_all_match_first ds grid_ref x_or_y row_dir layout layout'
    cols k0 rest k :
  _configure_shared_axes ds grid_ref x_or_y (VStr "all") row_dir layout
    = (layout', inr tt) →
  ncols grid_ref = inr cols →
  grid_keys ds grid_ref x_or_y row_dir cols = k0 :: rest →
  k ∈ rest →
  ∃ a, layout' !! k = Some (Axis a) ∧ matches a = Some (replace "axis" "" k0).
Proof.
  intros Hrun Hcols Hkeys Hk.
  unfold _configure_shared_axes in Hrun.
  unfold m_bind at 1 in Hrun. unfold lift at 1 in Hrun.
  rewrite Hcols in Hrun.
  change (py_eq (VStr "all") (VStr "columns")) with false in Hrun.
  change (py_eq (VStr "all") (VStr "rows")) with false in Hrun.
  change (py_eq (VStr "all") (VStr "all")) with true in Hrun.
  change (is_True (VStr "all")) with false in Hrun.
  rewrite !andb_false_r in Hrun. cbn [orb] in Hrun.
  unfold m_bind at 1 in Hrun.
  match type of Hrun with context [for_fold ?ys ?a ?body layout] =>
    destruct (for_fold ys a body layout) as [layout1 [e|first']] eqn:Hfold
  end; [done|].
  injection Hrun as ->.
  set (pos := λ (c : nat) (x : nat * nat), (x.2, c)).
  set (remove_label := λ (c : nat) (x : nat * nat),
         match x_or_y with
         | Y => bool_decide (0 < c)%nat
         | X => if bool_decide (0 < row_dir) then bool_decide (0 < x.1)%nat
                else bool_decide (x.2 < length grid_ref - 1)%nat
         end).
  assert (for_fold (seq 0 cols) None (λ first_axis_id c,
            for_fold (imap pair (rows_iter grid_ref row_dir)) first_axis_id
              (λ first_axis_id x,
                 do ref <- lift (ref_at grid_ref (pos c x).1 (pos c x).2);
                 update_axis_matches ds x_or_y first_axis_id ref
                   (remove_label c x))) layout = (layout', inr first'))
    as Hgroups.
  { rewrite <- Hfold. apply for_fold_ext. intros first c s.
    apply for_fold_ext. by intros first1 [ri r] s1. }
  apply link_fold_groups in Hgroups. unfold left_by in Hgroups.
  assert (concat ((λ c, omap (λ x, link_key ds grid_ref x_or_y (pos c x).1
                                     (pos c x).2)
                          (imap pair (rows_iter grid_ref row_dir)))
                    <$> seq 0 cols) = k0 :: rest) as Hks.
  { rewrite <- Hkeys. unfold grid_keys. f_equal. apply list_fmap_ext.
    intros _ c _. unfold column_keys.
    apply (omap_imap_pair (λ r, link_key ds grid_ref x_or_y r c)). }
  rewrite Hks in Hgroups. destruct Hgroups as [_ Hlinked].
  by apply Hlinked.
Qed.

Lemma shared_all_match_first_witness :
  ∃ a, (_configure_shared_axes (dicts two_rows_world)
          (_grid_ref two_rows_figure) Y (VStr "all") (-1) two_rows_layout).1
         !! "yaxis1" = Some (Axis a) ∧
    matches a = Some (replace "axis" "" "yaxis2").
Proof.
  apply (shared_all_match_first (dicts two_rows_world)
           (_grid_ref two_rows_figure) Y (-1) two_rows_layout _ 1%nat
           "yaxis2" ["yaxis1"] "yaxis1").
  - vm_compute. reflexivity.
  - reflexivity.
  - vm_compute. reflexivity.
  - left.
Defined.

(** ** The insets are normalised in place *)

Lemma normalize_insets_given inset insets ds :
  normalize_insets (Some (inset :: insets)) ds =
  (run for_each (Some <$> inset :: insets)
         (update_at converted (λ _, true) E_type);
   run for_each (Some <$> inset :: insets)
         (update_at (filled inset_defaults) (keys_ok inset_defaults)
            (E_invalid_key "insets"));
   m_ret (inset :: insets)) ds.
Proof.
  unfold normalize_insets.
  change (default [] (Some (inset :: insets))) with (inset :: insets).
  cbv iota. unfold m_bind at 1 3.
  rewrite (for_each_fmap Some).
  rewrite (for_each_ext _ (λ x, convert_is_3d (Some x))
             (λ x, update_at converted (λ _, true) E_type (Some x)))
    by (intros; apply convert_is_3d_update).
  destruct (for_each _ _ ds) as [ds1 [e|[]]]; [done|].
  unfold m_bind. rewrite _check_keys_and_fill_items.
  assert (arg_items (Item <$> inset :: insets) = Some <$> inset :: insets) as ->;
    [|done].
  unfold arg_items. generalize (inset :: insets). intros l.
  induction l as [|x l IH]; [done|]. simpl. f_equal. exact IH.
Qed.

(** When [normalize_insets] returns, every dictionary of [insets] has
    been updated in place, at its own address: it has exactly the inset
    keys, keeps the entries it had (other than [type] and [is_3d]), takes
    the default for every key it lacked, and its [type] is ['scene'] when
    a truthy [is_3d] was given, else the type given, else ['xy']. *)
Theorem normalize_insets_in_place insets ds ds' insets' l d :
  normalize_insets (Some insets) ds = (ds', inr insets') →
  l ∈ insets →
  ds !! l = Some d →
  insets' = insets ∧
  ∃ d', ds' !! l = Some d' ∧
    dom d' = keys_of inset_defaults ∧
    (∀ k v, k ≠ "type" → k ≠ "is_3d" → d !! k = Some v → d' !! k = Some v) ∧
    (∀ k v, k ≠ "type" → (k, v) ∈ inset_defaults → d !! k = None →
       d' !! k = Some v) ∧
    d' !! "type" =
      Some (match d !! "is_3d" with
            | Some v =>
                if truthy v then VStr "scene" else default (VStr "xy") (d !! "type")
            | None => default (VStr "xy") (d !! "type")
            end).
Proof.
  intros Hrun Hl Hd.
  destruct insets as [|inset insets]; [by apply not_elem_of_nil in Hl|].
  rewrite normalize_insets_given in Hrun.
  unfold m_bind at 1 in Hrun.
  destruct (for_each (Some <$> inset :: insets)
              (update_at converted (λ _, true) E_type) ds)
    as [ds1 [e|[]]] eqn:H1; [done|].
  unfold m_bind, m_ret in Hrun.
  destruct (for_each (Some <$> inset :: insets) _ ds1)
    as [ds2 [e|[]]] eqn:H2; [done|].
  injection Hrun as <- <-. split; [done|].
  assert (Some l ∈ Some <$> inset :: insets) as Hl'.
  { apply list_elem_of_fmap. by exists l. }
  destruct (update_loop_returns converted (λ _, true) E_type _ ds
              converted_idemp (λ _, eq_refl) ds1 H1 l Hl') as [Hds1 _].
  destruct (update_loop_returns (filled inset_defaults) (keys_ok inset_defaults)
              (E_invalid_key "insets") _ ds1
              (filled_idemp _) (keys_ok_filled _) ds2 H2 l Hl') as [Hds' Hok].
  rewrite Hd in Hds1. simpl in Hds1. rewrite Hds1 in Hds'. simpl in Hds'.
  rewrite (deref_lookup _ _ _ Hds1) in Hok.
  exists (filled inset_defaults (converted d)). split; [done|].
  unfold keys_ok in Hok. apply bool_decide_eq_true_1 in Hok.
  split; [|split; [|split]].
  - rewrite filled_dom. unfold keys_of. set_solver.
  - intros k v Ht Hi Hk. rewrite filled_union.
    apply lookup_union_Some_l. by rewrite converted_lookup_ne.
  - intros k v Ht Hin Hk. rewrite filled_union.
    assert (k ≠ "is_3d") as Hi.
    { intros ->. unfold inset_defaults in Hin.
      repeat (apply elem_of_cons in Hin as [[=]|Hin]).
      by apply not_elem_of_nil in Hin. }
    rewrite lookup_union_r by (by rewrite converted_lookup_ne).
    unfold inset_defaults in Hin.
    repeat (apply elem_of_cons in Hin as [[= -> ->]|Hin]); try done.
    by apply not_elem_of_nil in Hin.
  - rewrite filled_union, lookup_union, converted_type.
    destruct (d !! "is_3d") as [v|]; [destruct (truthy v); [done|]|];
      by destruct (d !! "type").
Qed.

Lemma normalize_insets_in_place_witness :
  [0%nat] = [0%nat] ∧
  ∃ d', [list_to_map (("type", VStr "scene") :: ("l", VFloat 0.25)
                        :: inset_defaults) : dict] !! 0%nat = Some d' ∧
    dom d' = keys_of inset_defaults ∧
    (∀ k v, k ≠ "type" → k ≠ "is_3d" →
       ({["is_3d" := VBool true; "l" := VFloat 0.25]} : dict) !! k = Some v →
       d' !! k = Some v) ∧
    (∀ k v, k ≠ "type" → (k, v) ∈ inset_defaults →
       ({["is_3d" := VBool true; "l" := VFloat 0.25]} : dict) !! k = None →
       d' !! k = Some v) ∧
    d' !! "type" =
      Some (match ({["is_3d" := VBool true; "l" := VFloat 0.25]} : dict) !! "is_3d" with
            | Some v =>
                if truthy v then VStr "scene"
                else default (VStr "xy")
                       (({["is_3d" := VBool true; "l" := VFloat 0.25]} : dict) !! "type")
            | None =>
                default (VStr "xy")
                  (({["is_3d" := VBool true; "l" := VFloat 0.25]} : dict) !! "type")
            end).
Proof.
  apply (normalize_insets_in_place [0%nat]
           [ {["is_3d" := VBool true; "l" := VFloat 0.25]} ]
           [list_to_map (("type", VStr "scene") :: ("l", VFloat 0.25)
                           :: inset_defaults)]
           [0%nat] 0%nat).
  - vm_compute. reflexivity.
  - left.
  - reflexivity.
Defined.
